(** * Swarm traffic action of esmini: a shallow embedding

    The development follows [SwarmTrafficAction] (Start, Step,
    createRoadSegments, createEllipseSegments, createVehicle, sampleRoads,
    spawn, ensureDistance, despawn).  Two smaller parts follow it, each with
    its own modelling notes: the loop of [Event::Start], and the variable
    arrays and the pointer transport of the OSMP source [EsminiOsiSource].

    Modelling choices.
    - A C++ [double] is a binary64 float ([PrimFloat.float]); comparisons and
      arithmetic are the IEEE ones, so every evaluation below rounds exactly
      as the compiled code does.
    - The calls [abs(x)] of Step and ensureDistance are unqualified and the
      translation unit has neither a using-directive for [std] nor a
      using-declaration for [std::abs] ([<cmath>] puts its floating-point
      overloads in [std]), so they resolve to [int abs(int)]: the argument
      is converted to [int], which truncates it, and the [int] result is
      converted back for the comparison with a [double] ([abs_of_double]).
    - A C++ [int] is a [Z]; the conversions between [int] and [size_t] that
      the code performs implicitly are written out ([to_int], [to_size_t]).
      Signed overflow is undefined behaviour and is not modelled.
    - The entity repository is a finite map from object id to object.
    - Every pseudo-random draw reads the next value of an oracle ([Gen]);
      the library distributions are functions of that raw value.
    - Dereferencing the null pointer that a failed lookup returns is modelled
      by [None].
    - The two loops whose exit depends on a floating-point comparison take
      fuel and return [None] when it runs out. *)

From Stdlib Require Import ZArith Lia Floats String.
From stdpp Require Import base option list strings gmap.

Set Warnings "-inexact-float".

Local Open Scope Z_scope.

(** ** Constants of the translation unit *)

Definition USELESS_THRESHOLD : Z := 5.
Definition VHEICLE_DISTANCE : float := 12%float.
Definition TIME_INTERVAL : float := 0.1%float.
Definition M_PI : float := 0x1.921fb54442d18p+1%float.

(** ** Machine integers *)

(** Conversion to [int] (32 bits, two's complement) and to [size_t] (64 bits,
    unsigned); [is_int] is the range of [int]. *)
Definition to_int (z : Z) : Z := (z + 2147483648) mod 4294967296 - 2147483648.
Definition to_size_t (z : Z) : Z := z mod 18446744073709551616.
Definition is_int (z : Z) : Prop := -2147483648 <= z < 2147483648.

(** The integer part of the absolute value of the finite double with
    mantissa [m] and exponent [e], that is of [m * 2 ^ e]. *)
Definition magnitude (m : positive) (e : Z) : Z :=
  if 0 <=? e then Z.pos m * 2 ^ e else Z.pos m / 2 ^ (- e).

(** Conversion of a [double] to [int]: the value is truncated toward zero.
    For a value whose integer part is not an [int], and for an infinity or a
    NaN, the conversion is undefined in C++; the model takes what the
    conversion instruction of x86-64 returns for them, [INT_MIN]. *)
Definition double_to_int (d : float) : Z :=
  match Prim2SF d with
  | S754_zero _ => 0
  | S754_finite s m e =>
      let z := if s then - magnitude m e else magnitude m e in
      if (-2147483648 <=? z) && (z <? 2147483648) then z else -2147483648
  | _ => -2147483648
  end.

(** [int abs(int)]; the absolute value of [INT_MIN] wraps around to
    [INT_MIN]. *)
Definition abs_int (n : Z) : Z := to_int (Z.abs n).

(** Conversion of an [int] to [double], which is exact. *)
Definition int_to_double (n : Z) : float :=
  if n <? 0 then (- of_uint63 (Uint63.of_Z (- n)))%float
  else of_uint63 (Uint63.of_Z n).

(** The call [abs(x)] with a [double] argument, its result compared with a
    [double]: [(double)abs((int)x)]. *)
Definition abs_of_double (x : float) : float :=
  int_to_double (abs_int (double_to_int x)).

(** ** Randomness *)

(** The raw values the engines will produce, in the order they are drawn. *)
Definition Gen : Type := list Z.

Definition next (g : Gen) : Z * Gen :=
  match g with
  | [] => (0, [])
  | v :: g' => (v, g')
  end.

(** [std::uniform_int_distribution<int> d(lo, hi); d(gen)] *)
Definition uniform_int_distribution (lo hi : Z) (g : Gen) : Z * Gen :=
  let '(v, g') := next g in (lo + v mod (hi - lo + 1), g').

(** [std::sample(first, last, out, n, gen)]: selection sampling, which keeps
    the relative order of the chosen elements and writes [min n (last - first)]
    of them. *)
Fixpoint sample {A : Type} (l : list A) (n : nat) (g : Gen) : list A * Gen :=
  match l, n with
  | [], _ => ([], g)
  | _, O => ([], g)
  | x :: l', S n' =>
      let '(v, g') := next g in
      if v mod Z.of_nat (length l) <? Z.of_nat n
      then let '(r, g'') := sample l' n' g' in (x :: r, g'')
      else sample l' n g'
  end.

(** [std::random_shuffle(first, last)]: each element in turn is moved to a
    drawn position of the part already shuffled. *)
Definition insert_at {A : Type} (i : nat) (x : A) (l : list A) : list A :=
  take i l ++ x :: drop i l.

Fixpoint random_shuffle {A : Type} (l : list A) (g : Gen) : list A * Gen :=
  match l with
  | [] => ([], g)
  | x :: l' =>
      let '(r, g') := random_shuffle l' g in
      let '(v, g'') := next g' in
      (insert_at (Z.to_nat (v mod Z.of_nat (S (length r)))) x r, g'')
  end.

(** ** Data model *)

Record Point : Type := mkPoint { p_x : float; p_y : float; p_h : float }.

Definition Solutions : Type := list Point.

(** [roadmanager::Position], reduced to what the action reads and writes. *)
Record Position : Type := mkPosition {
  GetX : float; GetY : float; GetH : float;
  GetTrackId : Z; GetLaneId : Z; GetS : float; GetOffset : float
}.

(** [Vehicle] / [Object].  [name_] is [Some id] for the name
    [std::to_string(id)] and [None] for the empty name of a fresh object. *)
Record Object : Type := mkObject {
  name_ : option Z;
  pos_ : Position;
  speed_ : float;
  controller_ : option Z;
  model_filepath_ : string
}.

Record SpawnInfo : Type := mkSpawnInfo {
  vehicleID : Z;
  outMidAreaCount : Z;
  roadID : Z;
  lane : Z;
  simTime_ : float
}.

Record SelectInfo : Type := mkSelectInfo {
  pos : Position;
  road : Z;
  nLanes : Z
}.

Inductive GeometryType : Type :=
  | GEOMETRY_TYPE_UNKNOWN
  | GEOMETRY_TYPE_LINE
  | GEOMETRY_TYPE_OTHER.

(** One geometry span of a road: its kind, the arc-length at which it starts
    on the road, its length, and its start pose. *)
Record Geometry : Type := mkGeometry {
  GetType : GeometryType;
  gm_S : float;
  GetLength : float;
  gm_X : float; gm_Y : float; gm_Hdg : float
}.

Record Road : Type := mkRoad {
  GetId : Z;
  GetGeometries : list Geometry
}.

Record Triangle : Type := mkTriangle {
  tr_a : Point; tr_b : Point; tr_c : Point;
  sI : float; sF : float;
  tr_geometry : option Geometry
}.

(** A leaf box owns its triangle. *)
Record BBox : Type := mkBBox { triangle : Triangle }.

Definition BBoxVec : Type := list BBox.

Record EllipseInfo : Type := mkEllipseInfo {
  SMjA : float; SMnA : float; egoPos : Position
}.

(** ** External collaborators *)

(** The road network ([roadmanager]): geometry evaluation, the conversion of
    an inertial pose to a track position, and the lane queries. *)
Class RoadManager : Type := {
  odrRoads : list Road;
  EvaluateDS : Geometry -> float -> float * float * float;
  track_of : float -> float -> float -> float -> Z * float;
  GetNumberOfDrivingLanes : Z -> float -> Z;
  GetDrivingLaneByIdx : Z -> float -> Z -> option Z
}.

(** The geometry helpers of [OSCSwarmTrafficGeometry.hpp] and the AABB tree. *)
Class SwarmGeometry : Type := {
  ellipse : float -> float -> float -> float -> float -> float -> float -> float;
  paramEllipse : float -> float -> float -> float -> float -> float -> float * float;
  angleTangentEllipse : float -> float -> float -> float -> float;
  tangentIntersection :
    float -> float -> float -> float -> float -> float -> float -> float -> float * float;
  curve2triangles : Geometry -> float -> float -> BBoxVec;
  ceil : float -> float;
  Tree : Type;
  build : BBoxVec -> Tree;
  findSolutions : Tree -> Tree -> EllipseInfo -> Solutions
}.

(** Modelled from the spec: the [roadmanager::Position] setters, which are
    not part of this translation unit.  [XYZH2TrackPos] stores the pose it is
    given and the track position the road network resolves it to (section 6:
    convert (x, y, heading) to (roadId, laneId, s)); [SetLanePos] stores the
    lane placement. *)
Definition XYZH2TrackPos `{RoadManager} (x3 y3 z3 h3 : float) : Position :=
  let '(rid, s) := track_of x3 y3 z3 h3 in
  mkPosition x3 y3 h3 rid 0 s 0%float.

(** Modelled from the spec: [SetInertiaPos(x, y, h, updateTrackPos = true)]
    of the missing [roadmanager::Position]. *)
Definition SetInertiaPos `{RoadManager} (x3 y3 h3 : float) : Position :=
  XYZH2TrackPos x3 y3 0%float h3.

(** Modelled from the spec: [SetLanePos(trackId, laneId, s, offset)] of the
    missing [roadmanager::Position]. *)
Definition SetLanePos (p : Position) (trackId laneId : Z) (s offset : float)
  : Position :=
  mkPosition (GetX p) (GetY p) (GetH p) trackId laneId s offset.

(** Modelled from the spec: the entity repository, which is not part of this
    translation unit, is a finite map from id to object (section 6: add an
    object, receiving an assigned id; remove by name/id; look up by id).
    [GetObjectById] is the lookup, a null pointer being [None]. *)
Definition GetObjectById (e : gmap Z Object) (id : Z) : option Object := e !! id.

(** Modelled from the spec: [addObject] of the missing repository; the id it
    assigns is one not in use. *)
Definition addObject (e : gmap Z Object) (o : Object) : Z * gmap Z Object :=
  let id := fresh (dom e) in (id, <[id := o]> e).

(** Modelled from the spec: [removeObject] of the missing repository; the
    object named after an id is the one stored under it. *)
Definition removeObject (e : gmap Z Object) (name : option Z) : gmap Z Object :=
  match name with
  | Some id => delete id e
  | None => e
  end.

(** ** The action *)

Section Swarm.
Context `{RM : RoadManager} `{SG : SwarmGeometry}.

Record SwarmTrafficAction : Type := mkSwarm {
  innerRadius_ : float;
  semiMajorAxis_ : float;
  semiMinorAxis_ : float;
  velocity_ : float;
  numberOfVehicles : Z;
  centralObject_ : Object;
  midSMjA : float;
  midSMnA : float;
  lastTime : float;
  minSize_ : float;
  rTree : option Tree;
  spawnedV : list SpawnInfo;
  entities_ : gmap Z Object
}.

Definition with_lifecycle (st : SwarmTrafficAction)
    (l : list SpawnInfo) (e : gmap Z Object) : SwarmTrafficAction :=
  mkSwarm (innerRadius_ st) (semiMajorAxis_ st) (semiMinorAxis_ st)
    (velocity_ st) (numberOfVehicles st) (centralObject_ st) (midSMjA st)
    (midSMnA st) (lastTime st) (minSize_ st) (rTree st) l e.

Definition with_lastTime (st : SwarmTrafficAction) (t : float)
  : SwarmTrafficAction :=
  mkSwarm (innerRadius_ st) (semiMajorAxis_ st) (semiMinorAxis_ st)
    (velocity_ st) (numberOfVehicles st) (centralObject_ st) (midSMjA st)
    (midSMnA st) t (minSize_ st) (rTree st) (spawnedV st) (entities_ st).

(** *** createRoadSegments *)

(** The body of the [GEOMETRY_TYPE_LINE] loop for one chunk [dist, ds];
    [pow(v, 2)] is the product [v * v]. *)
Definition lineChunk (gm : Geometry) (dist ds : float) : BBox :=
  let '(x0, y0, _) := EvaluateDS gm dist in
  let '(x1, y1, _) := EvaluateDS gm ds in
  let l := PrimFloat.sqrt ((x1 - x0) * (x1 - x0) + (y1 - y0) * (y1 - y0))%float in
  let x2 := ((x1 + x0) / 2 + l / 4.0)%float in
  let y2 := ((y1 + y0) / 2 + l / 4.0)%float in
  mkBBox (mkTriangle (mkPoint x0 y0 0) (mkPoint x1 y1 0) (mkPoint x2 y2 0)
            dist ds (Some gm)).

(** [for (double dist = gm->GetS(); dist < length;) { ... dist = ds; }] *)
Fixpoint lineLoop (fuel : nat) (gm : Geometry) (minSize length dist : float)
  : option BBoxVec :=
  match fuel with
  | O => None
  | Datatypes.S fuel' =>
      if (dist <? length)%float then
        let ds := (dist + minSize)%float in
        let ds := if (length <? ds)%float then length else ds in
        rest ← lineLoop fuel' gm minSize length ds;
        Some (lineChunk gm dist ds :: rest)
      else Some []
  end.

Definition geometrySegments (fuel : nat) (minSize : float) (gm : Geometry)
  : option BBoxVec :=
  match GetType gm with
  | GEOMETRY_TYPE_UNKNOWN => Some []
  | GEOMETRY_TYPE_LINE =>
      let length := GetLength gm in
      lineLoop fuel gm minSize length (gm_S gm)
  | GEOMETRY_TYPE_OTHER => Some (curve2triangles gm minSize (M_PI / 36)%float)
  end.

Fixpoint segmentsOf (fuel : nat) (minSize : float) (gms : list Geometry)
  : option BBoxVec :=
  match gms with
  | [] => Some []
  | gm :: gms' =>
      v ← geometrySegments fuel minSize gm;
      w ← segmentsOf fuel minSize gms';
      Some (v ++ w)
  end.

Definition createRoadSegments (fuel : nat) (minSize : float) : option BBoxVec :=
  segmentsOf fuel minSize (concat (map GetGeometries odrRoads)).

(** *** createEllipseSegments *)

(** Modelled from the spec: [aabbTree::makeTriangleAndBbx], which is not part
    of this translation unit, makes the box of the triangle with the three
    given vertices (section 4.3: emit one Triangle, two boundary points and
    the control point, and its bounding box). *)
Definition makeTriangleAndBbx (x0 y0 x1 y1 x2 y2 : float) : BBox :=
  mkBBox (mkTriangle (mkPoint x0 y0 0) (mkPoint x1 y1 0) (mkPoint x2 y2 0)
            0 0 None).

Definition ellipseChunk (p : Position) (SMjA SMnA alpha da : float) : BBox :=
  let '(x0, y0) := paramEllipse alpha (GetX p) (GetY p) SMjA SMnA (GetH p) in
  let '(x1, y1) := paramEllipse da (GetX p) (GetY p) SMjA SMnA (GetH p) in
  let theta0 := angleTangentEllipse SMjA SMnA alpha (GetH p) in
  let theta1 := angleTangentEllipse SMjA SMnA da (GetH p) in
  let '(x2, y2) := tangentIntersection x0 y0 alpha theta0 x1 y1 da theta1 in
  makeTriangleAndBbx x0 y0 x1 y1 x2 y2.

(** The angular intervals [alpha, da] the [while] loop walks through. *)
Fixpoint ellipseAngles (fuel : nat) (alpha : float) : option (list (float * float)) :=
  match fuel with
  | O => None
  | Datatypes.S fuel' =>
      if (alpha <? 2 * M_PI - M_PI / 72.0)%float then
        let da := (alpha + M_PI / 36.0)%float in
        let da := if (2 * M_PI - M_PI / 72.0 <? da)%float
                  then (2 * M_PI - M_PI / 72.0)%float else da in
        rest ← ellipseAngles fuel' da;
        Some ((alpha, da) :: rest)
      else Some []
  end.

Definition createEllipseSegments (fuel : nat) (p : Position) (SMjA SMnA : float)
  : option BBoxVec :=
  angles ← ellipseAngles fuel (- M_PI / 72.0)%float;
  Some (map (fun '(alpha, da) => ellipseChunk p SMjA SMnA alpha da) angles).

(** *** createVehicle *)

Definition double_of_char (c : Z) : float := of_uint63 (Uint63.of_Z c).

Definition createVehicle (pos : Position) (hdg_offset : Z) (lane : Z)
    (speed : float) (controller : option Z) (model_filepath : string) : Object :=
  let p := SetInertiaPos (GetX pos) (GetY pos)
             (GetH pos + double_of_char hdg_offset * M_PI)%float in
  let p := SetLanePos p (GetTrackId p) lane (GetS p) 0%float in
  mkObject None p speed controller model_filepath.

Definition set_name (o : Object) (id : Z) : Object :=
  mkObject (Some id) (pos_ o) (speed_ o) (controller_ o) (model_filepath_ o).

(** *** sampleRoads *)

(** One iteration of the loop of the first branch. *)
Definition selectOne (pt : Point) : option SelectInfo :=
  let pos := XYZH2TrackPos (p_x pt) (p_y pt) 0%float (p_h pt) in
  let road := GetTrackId pos in
  if GetNumberOfDrivingLanes road (GetS pos) =? 0 then None
  else Some (mkSelectInfo pos road 1).

(** The loop of the second branch; [lanesLeft] is threaded through. *)
Fixpoint distributeLanes (lanesLeft : Z) (sols : Solutions) (g : Gen)
  : list SelectInfo * Z * Gen :=
  match sols with
  | [] => ([], lanesLeft, g)
  | pt :: sols' =>
      let pos := XYZH2TrackPos (p_x pt) (p_y pt) 0%float (p_h pt) in
      let road := GetTrackId pos in
      let nDrivingLanes := GetNumberOfDrivingLanes road (GetS pos) in
      if nDrivingLanes =? 0 then distributeLanes (lanesLeft + 1) sols' g
      else
        let '(lanesN, g') :=
          if 0 <? lanesLeft then
            let '(lanesN, g') :=
              uniform_int_distribution 0 (Z.min lanesLeft nDrivingLanes) g in
            (if lanesN =? 0 then 0 else lanesN - 1, g')
          else (0, g) in
        let '(info, remaining, g'') := distributeLanes (lanesLeft - lanesN) sols' g' in
        (mkSelectInfo pos road (1 + lanesN) :: info, remaining, g'')
  end.

(** The number of cars the call sets out to spawn. *)
Definition nCarsToSpawn (minN maxN : Z) (g : Gen) : Z * Gen :=
  uniform_int_distribution minN maxN g.

Definition sampleRoads (minN maxN : Z) (sols : Solutions)
    (info : list SelectInfo) (g : Gen) : list SelectInfo * Gen :=
  if maxN <? minN then (info, g)
  else
    let '(n, g) := nCarsToSpawn minN maxN g in
    if (to_size_t n <=? Z.of_nat (length sols)) && (0 <? n) then
      let '(sols, g) := random_shuffle sols g in
      let '(selected, g) := sample sols (Z.to_nat n) g in
      (omap selectOne selected, g)
    else
      let lanesLeft := to_int (to_size_t (n - Z.of_nat (length sols))) in
      let '(info, _, g) := distributeLanes lanesLeft sols g in
      (info, g).

(** *** ensureDistance *)

Fixpoint ensureDistanceLoop (e : gmap Z Object) (pos : Position) (laneId : Z)
    (l : list SpawnInfo) : option bool :=
  match l with
  | [] => Some true
  | info :: l' =>
      if (lane info =? laneId) && (roadID info =? GetTrackId pos) then
        vehicle ← GetObjectById e (vehicleID info);
        if (abs_of_double (GetS (pos_ vehicle) - GetS pos) <=? VHEICLE_DISTANCE)%float
        then Some false
        else ensureDistanceLoop e pos laneId l'
      else ensureDistanceLoop e pos laneId l'
  end.

Definition ensureDistance (st : SwarmTrafficAction) (pos : Position) (laneId : Z)
  : option bool :=
  ensureDistanceLoop (entities_ st) pos laneId (spawnedV st).

(** *** spawn *)

(** The body of the loop over the sampled lane indices. *)
Definition spawnLane (inf : SelectInfo) (simTime : float)
    (st : SwarmTrafficAction) (laneIdx : Z) : option SwarmTrafficAction :=
  match GetDrivingLaneByIdx (road inf) (GetS (pos inf)) laneIdx with
  | None => Some st
  | Some laneID =>
      ok ← ensureDistance st (pos inf) laneID;
      if negb ok then Some st
      else
        let vehicle :=
          createVehicle (pos inf) (if laneID <? 0 then 0 else 1) laneID
            (velocity_ st) None "car_red.osgb" in
        let '(id, e) := addObject (entities_ st) vehicle in
        let e := <[id := set_name vehicle id]> e in
        let sInfo := mkSpawnInfo id 0 (GetTrackId (pos inf)) laneID simTime in
        Some (with_lifecycle st (spawnedV st ++ [sInfo]) e)
  end.

Fixpoint spawnLanes (inf : SelectInfo) (simTime : float)
    (st : SwarmTrafficAction) (lanes : list Z) : option SwarmTrafficAction :=
  match lanes with
  | [] => Some st
  | laneIdx :: lanes' =>
      st' ← spawnLane inf simTime st laneIdx;
      spawnLanes inf simTime st' lanes'
  end.

(** The loop over the selections.  The array [lanes] has [nLanes] entries,
    of which [sample] fills [min nLanes lanesNo]; sampleRoads selects at most
    as many lanes as the road has, so the loop reads filled entries only. *)
Fixpoint spawnAll (simTime : float) (info : list SelectInfo) (g : Gen)
    (st : SwarmTrafficAction) : option (SwarmTrafficAction * Gen) :=
  match info with
  | [] => Some (st, g)
  | inf :: info' =>
      let lanesNo := GetNumberOfDrivingLanes (road inf) (GetS (pos inf)) in
      let elements := seqZ 0 lanesNo in
      let '(lanes, g') := sample elements (Z.to_nat (nLanes inf)) g in
      st' ← spawnLanes inf simTime st lanes;
      spawnAll simTime info' g' st'
  end.

Definition spawn (sols : Solutions) (replace : Z) (simTime : float) (g : Gen)
    (st : SwarmTrafficAction) : option (SwarmTrafficAction * Gen) :=
  let maxCars :=
    to_int (to_size_t (numberOfVehicles st - Z.of_nat (length (spawnedV st)))) in
  if maxCars <=? 0 then Some (st, g)
  else
    let '(info, g) := sampleRoads (replace) maxCars sols [] g in
    spawnAll simTime info g st.

(** *** despawn *)

Definition set_count (info : SpawnInfo) (n : Z) : SpawnInfo :=
  mkSpawnInfo (vehicleID info) n (roadID info) (lane info) (simTime_ info).

(** The decision taken for one record from the two ellipse values: whether
    the vehicle is deleted, and the record as the branch leaves it.  The
    counter is raised as an integer without bound, which is the increment of
    the [int] for every counter below [INT_MAX]; at [INT_MAX] the increment
    overflows, which is undefined and not modelled (the counter of an active
    record lies between 0 and 5). *)
Definition despawnDecision (e0 e1 : float) (info : SpawnInfo) : bool * SpawnInfo :=
  if (0.001 <? e0)%float then (true, info)
  else if ((0.001 <? e1) || ((0 <=? e1) && (e1 <=? 0.001)))%float then
    let info' := set_count info (outMidAreaCount info + 1) in
    (USELESS_THRESHOLD <? outMidAreaCount info', info')
  else (false, set_count info 0).

Definition outerValue (st : SwarmTrafficAction) (vehicle : Object) : float :=
  let cPos := pos_ (centralObject_ st) in
  let vPos := pos_ vehicle in
  ellipse (GetX cPos) (GetY cPos) (GetH cPos) (semiMajorAxis_ st)
    (semiMinorAxis_ st) (GetX vPos) (GetY vPos).

Definition midValue (st : SwarmTrafficAction) (vehicle : Object) : float :=
  let cPos := pos_ (centralObject_ st) in
  let vPos := pos_ vehicle in
  ellipse (GetX cPos) (GetY cPos) (GetH cPos) (midSMjA st) (midSMnA st)
    (GetX vPos) (GetY vPos).

(** The loop over the records.  [increase] and [deleteVehicle] are reset at
    the end of every iteration, so an iteration either erases the record (the
    iterator then designates the next one) or steps over it. *)
Fixpoint despawnLoop (st : SwarmTrafficAction) (e : gmap Z Object)
    (l : list SpawnInfo) : option (list SpawnInfo * gmap Z Object * Z) :=
  match l with
  | [] => Some ([], e, 0)
  | info :: l' =>
      vehicle ← GetObjectById e (vehicleID info);
      let e0 := outerValue st vehicle in
      let e1 := midValue st vehicle in
      let '(deleteVehicle, info') := despawnDecision e0 e1 info in
      if deleteVehicle then
        '(kept, e', count) ← despawnLoop st (removeObject e (name_ vehicle)) l';
        Some (kept, e', count + 1)
      else
        '(kept, e', count) ← despawnLoop st e l';
        Some (info' :: kept, e', count)
  end.

Definition despawn (simTime : float) (st : SwarmTrafficAction)
  : option (SwarmTrafficAction * Z) :=
  '(kept, e, count) ← despawnLoop st (entities_ st) (spawnedV st);
  Some (with_lifecycle st kept e, count).

(** *** Start and Step *)

Definition Start (fuel : nat) (st : SwarmTrafficAction) : option SwarmTrafficAction :=
  let mMj := ((semiMajorAxis_ st + innerRadius_ st) / 2.0)%float in
  let mMn := ((semiMinorAxis_ st + innerRadius_ st) / 2.0)%float in
  let '(x0, y0) := paramEllipse 0 0 0 mMj mMn 0 in
  let '(x1, y1) := paramEllipse (M_PI / 36)%float 0 0 mMj mMn 0 in
  let minSize :=
    (ceil (PrimFloat.sqrt ((x1 - x0) * (x1 - x0) + (y1 - y0) * (y1 - y0)) * 100)
      / 100.0)%float in
  let minSize := if (minSize =? 0)%float then 1.0%float else minSize in
  vec ← createRoadSegments fuel minSize;
  Some (mkSwarm (innerRadius_ st) (semiMajorAxis_ st) (semiMinorAxis_ st)
          (velocity_ st) (numberOfVehicles st) (centralObject_ st) mMj mMn
          (-1)%float minSize (Some (build vec)) (spawnedV st) (entities_ st)).

(** The guard of [Step]. *)
Definition stepDue (simTime : float) (st : SwarmTrafficAction) : bool :=
  ((lastTime st <? 0)
   || (TIME_INTERVAL <? abs_of_double (simTime - lastTime st)))%float.

(** The body the guard protects. *)
Definition evaluation (fuel : nat) (simTime : float) (g : Gen)
    (st : SwarmTrafficAction) : option (SwarmTrafficAction * Gen) :=
  let SMjA := midSMjA st in
  let SMnA := midSMnA st in
  let info := mkEllipseInfo SMjA SMnA (pos_ (centralObject_ st)) in
  vec ← createEllipseSegments fuel (pos_ (centralObject_ st)) SMjA SMnA;
  let eTree := build vec in
  tree ← rTree st;
  let sols := findSolutions tree eTree info in
  '(st1, replace) ← despawn simTime st;
  '(st2, g') ← spawn sols replace simTime g st1;
  Some (with_lastTime st2 simTime, g').

Definition Step (fuel : nat) (dt simTime : float) (g : Gen)
    (st : SwarmTrafficAction) : option (SwarmTrafficAction * Gen) :=
  if stepDue simTime st then evaluation fuel simTime g st
  else Some (st, g).

End Swarm.

(** ** Well-formedness and the properties the lifecycle is measured against *)

Section Properties.
Context `{RM : RoadManager} `{SG : SwarmGeometry}.

(** Every record refers to a registered vehicle that carries the record's id
    as its name. *)
Definition recordsAlive (e : gmap Z Object) (l : list SpawnInfo) : Prop :=
  forall info, info ∈ l ->
    exists vehicle, e !! vehicleID info = Some vehicle /\
                    name_ vehicle = Some (vehicleID info).

(** No two records share a vehicle, and every record has its vehicle. *)
Definition lifecycleOk (st : SwarmTrafficAction) : Prop :=
  NoDup (vehicleID <$> spawnedV st) /\
  recordsAlive (entities_ st) (spawnedV st).

(** What one despawn evaluation leaves of a record, read off the repository
    [e]: nothing when the vehicle is deleted, the updated record otherwise. *)
Definition survivor (st : SwarmTrafficAction) (e : gmap Z Object)
    (info : SpawnInfo) : option SpawnInfo :=
  vehicle ← e !! vehicleID info;
  let '(deleteVehicle, info') :=
    despawnDecision (outerValue st vehicle) (midValue st vehicle) info in
  if deleteVehicle then None else Some info'.

(** A record followed over consecutive evaluations, each given by the pair of
    ellipse values the vehicle has at that evaluation. *)
Fixpoint followRecord (obs : list (float * float)) (info : SpawnInfo)
  : option SpawnInfo :=
  match obs with
  | [] => Some info
  | (e0, e1) :: obs' =>
      let '(deleteVehicle, info') := despawnDecision e0 e1 info in
      if deleteVehicle then None else followRecord obs' info'
  end.

(** The vehicle lies inside the outer ellipse and at or outside the mid one. *)
Definition inBand (e0 e1 : float) : Prop :=
  (e0 <? 0)%float = true /\ (0 <=? e1)%float = true.

(** Two arc-lengths are farther apart than the minimum spacing: their
    distance is greater than [VHEICLE_DISTANCE]. *)
Definition farApart (s1 s2 : float) : Prop :=
  (VHEICLE_DISTANCE <? abs (s1 - s2))%float = true.

(** The test of ensureDistance on two arc-lengths, as the code computes
    it. *)
Definition tooClose (s1 s2 : float) : bool :=
  (abs_of_double (s1 - s2) <=? VHEICLE_DISTANCE)%float.

(** Every pair of active records that share road and lane is farther apart
    than the minimum spacing, the arc-lengths being those of the vehicles. *)
Definition spacingOk (e : gmap Z Object) (l : list SpawnInfo) : Prop :=
  forall i j r1 r2 v1 v2,
    (i < j)%nat -> l !! i = Some r1 -> l !! j = Some r2 ->
    lane r1 = lane r2 -> roadID r1 = roadID r2 ->
    e !! vehicleID r1 = Some v1 -> e !! vehicleID r2 = Some v2 ->
    farApart (GetS (pos_ v1)) (GetS (pos_ v2)).

(** The best-effort distribution of section 4.4, in the words of the spec
    with the range of the extra count as amended: every solution point is
    visited in turn with the pool of lanes still to hand out; a point
    without driving lanes yields no selection and gives its share back to
    the pool; a point with driving lanes yields a selection of one lane plus
    an extra count between 0 and one less than the smaller of the pool and
    the lanes available, which is taken from the pool. *)
Inductive bestEffort : Z -> Solutions -> list SelectInfo -> Z -> Prop :=
  | bestEffort_nil pool : bestEffort pool [] [] pool
  | bestEffort_skip pool pt sols info pool' :
      (let p := XYZH2TrackPos (p_x pt) (p_y pt) 0%float (p_h pt) in
       GetNumberOfDrivingLanes (GetTrackId p) (GetS p) = 0) ->
      bestEffort (pool + 1) sols info pool' ->
      bestEffort pool (pt :: sols) info pool'
  | bestEffort_take pool pt sols info pool' extra :
      (let p := XYZH2TrackPos (p_x pt) (p_y pt) 0%float (p_h pt) in
       GetNumberOfDrivingLanes (GetTrackId p) (GetS p) <> 0 /\
       0 <= extra
         <= Z.min pool (GetNumberOfDrivingLanes (GetTrackId p) (GetS p)) - 1) ->
      bestEffort (pool - extra) sols info pool' ->
      bestEffort pool (pt :: sols)
        (mkSelectInfo (XYZH2TrackPos (p_x pt) (p_y pt) 0%float (p_h pt))
           (GetTrackId (XYZH2TrackPos (p_x pt) (p_y pt) 0%float (p_h pt)))
           (1 + extra) :: info) pool'.

(** The intervals of a ring follow one another: each starts where the
    previous one ends. *)
Fixpoint ringChained (angles : list (float * float)) : Prop :=
  match angles with
  | s :: (s' :: _) as rest => s.2 = s'.1 /\ ringChained rest
  | _ => True
  end.

(** The sum of the sizes of the intervals. *)
Definition ringTotal (angles : list (float * float)) : float :=
  fold_left (fun acc s => (acc + (s.2 - s.1))%float) angles 0%float.

(** A position whose track coordinates are those the road network resolves
    its inertial pose to. *)
Definition resolved (p : Position) : Prop :=
  (GetTrackId p, GetS p) = track_of (GetX p) (GetY p) 0%float (GetH p).

(** The invariant of the lifecycle list that spawn maintains. *)
Definition spawnInv (st : SwarmTrafficAction) : Prop :=
  recordsAlive (entities_ st) (spawnedV st) /\
  spacingOk (entities_ st) (spawnedV st).

(** The arc-length intervals of the triangles of a list of boxes. *)
Definition intervals (v : BBoxVec) : list (float * float) :=
  (fun bx => (sI (triangle bx), sF (triangle bx))) <$> v.

(** The number of lanes a list of selections assigns in total. *)
Definition lanesAssigned (info : list SelectInfo) : Z :=
  foldr (fun s acc => nLanes s + acc) 0 info.

(** The capacity [spawn] computes on entry. *)
Definition maxCars (st : SwarmTrafficAction) : Z :=
  to_int (to_size_t (numberOfVehicles st - Z.of_nat (length (spawnedV st)))).

End Properties.

(** ** Further properties of the lifecycle *)

Section FurtherProperties.
Context `{RM : RoadManager} `{SG : SwarmGeometry}.

(** Every counter lies between 0 and the patience threshold. *)
Definition countsOk (l : list SpawnInfo) : Prop :=
  Forall (fun r => 0 <= outMidAreaCount r <= USELESS_THRESHOLD) l.

(** Two records that differ at most in their counter. *)
Definition sameVehicle (r r' : SpawnInfo) : Prop :=
  vehicleID r' = vehicleID r /\ roadID r' = roadID r /\
  lane r' = lane r /\ simTime_ r' = simTime_ r.

(** The fields of the action that neither spawn nor despawn writes. *)
Definition sameSetup (st st' : SwarmTrafficAction) : Prop :=
  innerRadius_ st' = innerRadius_ st /\
  semiMajorAxis_ st' = semiMajorAxis_ st /\
  semiMinorAxis_ st' = semiMinorAxis_ st /\
  velocity_ st' = velocity_ st /\
  numberOfVehicles st' = numberOfVehicles st /\
  centralObject_ st' = centralObject_ st /\
  midSMjA st' = midSMjA st /\ midSMnA st' = midSMnA st /\
  lastTime st' = lastTime st /\ minSize_ st' = minSize_ st /\
  rTree st' = rTree st.

(** A record as spawn makes it at time [simTime], going from [st] to [st']:
    counter 0, the time of the call, an id that was not in use, and under
    that id a vehicle named after it, on the record's lane, with the speed of
    the action, no controller and the fixed model file. *)
Definition freshRecord (simTime : float) (st st' : SwarmTrafficAction)
    (r : SpawnInfo) : Prop :=
  outMidAreaCount r = 0 /\ simTime_ r = simTime /\
  entities_ st !! vehicleID r = None /\
  exists vehicle,
    entities_ st' !! vehicleID r = Some vehicle /\
    name_ vehicle = Some (vehicleID r) /\
    GetLaneId (pos_ vehicle) = lane r /\
    speed_ vehicle = velocity_ st /\
    controller_ vehicle = None /\
    model_filepath_ vehicle = "car_red.osgb"%string.

(** Going from [st] to [st'] appends the records [news], each made at time
    [simTime], keeps every object of the repository and writes no other
    field. *)
Definition appends (simTime : float) (st st' : SwarmTrafficAction)
    (news : list SpawnInfo) : Prop :=
  spawnedV st' = spawnedV st ++ news /\
  entities_ st ⊆ entities_ st' /\
  Forall (freshRecord simTime st st') news /\
  sameSetup st st'.

End FurtherProperties.

(** ** A small world to run the definitions on

    One straight road along the x axis (id 0) and a parallel one (id 1), each
    with one driving lane per direction (ids -1 and 1); any point farther out
    resolves to a road without driving lanes (id 2).  The reference heading
    is 0, for which the membership value of a point is the one below.  *)

Definition flatRoads : RoadManager := {|
  odrRoads :=
    [mkRoad 0 [mkGeometry GEOMETRY_TYPE_LINE 0 100 0 0 0;
               mkGeometry GEOMETRY_TYPE_LINE 100 50 100 0 0]];
  EvaluateDS := fun gm ds => ((gm_X gm + ds)%float, gm_Y gm, gm_Hdg gm);
  track_of := fun x3 y3 _ _ =>
    (if (y3 <? 50)%float then 0 else if (y3 <? 150)%float then 1 else 2, x3);
  GetNumberOfDrivingLanes := fun rid _ =>
    if (rid =? 0) || (rid =? 1) then 2 else 0;
  GetDrivingLaneByIdx := fun _ _ idx =>
    if idx =? 0 then Some (-1) else if idx =? 1 then Some 1 else None
|}.

(** The ring helpers are not reached by the runs below; they stand for a
    ring that is never sampled. *)
Definition flatGeometry : SwarmGeometry := {|
  ellipse := fun h0 k0 _ sa sb x0 y0 =>
    ((x0 - h0) * (x0 - h0) / (sa * sa) + (y0 - k0) * (y0 - k0) / (sb * sb) - 1)%float;
  paramEllipse := fun _ h0 k0 _ _ _ => (h0, k0);
  angleTangentEllipse := fun _ _ t _ => t;
  tangentIntersection := fun x0 y0 _ _ _ _ _ _ => (x0, y0);
  curve2triangles := fun _ _ _ => [];
  ceil := fun v => v;
  Tree := BBoxVec;
  build := fun v => v;
  findSolutions := fun _ _ _ => []
|}.

Definition ego : Object :=
  mkObject None (mkPosition 50 0 0 0 (-1) 50 0) 10 None "ego".

Definition car (id : Z) (x0 y0 : float) : Object :=
  mkObject (Some id) (mkPosition x0 y0 0 0 (-1) x0 0) 10 None "car_red.osgb".

(** Outer radii 40, inner radius 20 (mid radii 30), reference object at
    [s = 50], fleet size [n], the given records and vehicles. *)
Definition flatState (n : Z) (last : float) (l : list SpawnInfo)
    (e : gmap Z Object) : @SwarmTrafficAction flatGeometry :=
  @mkSwarm flatGeometry 20 40 40 10 n ego 30 30 last 1 (Some []) l e.

(** A vehicle at [x = 90] is exactly on the outer ellipse (radius 40 around
    [x = 50]): the evaluation keeps its record and raises the counter. *)
Definition boundaryState : @SwarmTrafficAction flatGeometry :=
  flatState 3 0 [mkSpawnInfo 7 0 0 (-1) 0] {[ 7 := car 7 90 0 ]}.

(** The last evaluation was at time 0 and no vehicle is active. *)
Definition idleState : @SwarmTrafficAction flatGeometry := flatState 3 0 [] ∅.


(** The geometry of the small world with a ring that meets the roads in two
    points of the first road, at [x = 25] and at [x = 80]. *)
Definition busyGeometry : SwarmGeometry := {|
  ellipse := fun h0 k0 _ sa sb x0 y0 =>
    ((x0 - h0) * (x0 - h0) / (sa * sa) + (y0 - k0) * (y0 - k0) / (sb * sb) - 1)%float;
  paramEllipse := fun _ h0 k0 _ _ _ => (h0, k0);
  angleTangentEllipse := fun _ _ t _ => t;
  tangentIntersection := fun x0 y0 _ _ _ _ _ _ => (x0, y0);
  curve2triangles := fun _ _ _ => [];
  ceil := fun v => v;
  Tree := BBoxVec;
  build := fun v => v;
  findSolutions := fun _ _ _ => [mkPoint 25 0 0; mkPoint 80 0 0]
|}.

(** Two vehicles on the lane -1 of the first road, at the arc-lengths 30
    and 60, and their records. *)
Definition twoRecords : list SpawnInfo :=
  [mkSpawnInfo 7 0 0 (-1) 0; mkSpawnInfo 9 0 0 (-1) 0].

Definition twoCars : gmap Z Object := {[ 7 := car 7 30 0; 9 := car 9 60 0 ]}.

(** Fleet size 5, the last evaluation at time 0, and the two vehicles. *)
Definition busyState : @SwarmTrafficAction busyGeometry :=
  @mkSwarm busyGeometry 20 40 40 10 5 ego 30 30 0 1 (Some []) twoRecords twoCars.

(** The records of a state with the road, the lane and the arc-length of
    their vehicles. *)
Definition placed {SG : SwarmGeometry} (st : SwarmTrafficAction)
  : list (Z * Z * float) :=
  omap (fun info =>
          (fun v => (roadID info, lane info, GetS (pos_ v)))
            <$> entities_ st !! vehicleID info) (spawnedV st).

(** * Event::Start ([OSCManeuver.cpp])

    The loop of [Event::Start] restarts every action of the event and sets
    the start time back by the headstart of a ghost that an action
    teleports.  What [Reset] and [Start] do to an action belongs to the
    action; the model keeps the time each action is started with and the
    time handed to [StoryBoardElement::Start].

    The loop reads [object_] and [type_] of every action through a pointer
    cast to [OSCPrivateAction].  For an action that is not a private action
    the read is undefined; it is modelled by [None]. *)

Inductive ActionType : Type := TELEPORT | OTHER_ACTION.

Record OSCPrivateAction : Type := mkPrivateAction {
  object_IsGhost : bool;
  type_ : ActionType;
  object_GetHeadstartTime : float
}.

Inductive OSCAction : Type :=
  | PrivateAction (pa : OSCPrivateAction)
  | GlobalAction.

Definition isGhostTeleport (pa : OSCPrivateAction) : bool :=
  object_IsGhost pa && match type_ pa with TELEPORT => true | _ => false end.

(** The times [action_[i]->Start] is called with, in order, and the time
    [StoryBoardElement::Start] is called with. *)
Fixpoint Event_Start (action_ : list OSCAction) (simTime : float)
  : option (list float * float) :=
  match action_ with
  | [] => Some ([], simTime)
  | GlobalAction :: _ => None
  | PrivateAction pa :: rest =>
      let simTime' :=
        if isGhostTeleport pa then (simTime - object_GetHeadstartTime pa)%float
        else simTime in
      '(times, final) ← Event_Start rest simTime';
      Some (simTime :: times, final)
  end.

(** The headstart times of the ghost teleports among [actions]. *)
Definition headstarts (actions : list OSCAction) : list float :=
  omap (fun a => match a with
                 | PrivateAction pa =>
                     if isGhostTeleport pa then Some (object_GetHeadstartTime pa)
                     else None
                 | GlobalAction => None
                 end) actions.

(** [simTime] set back by each of [hs] in turn. *)
Definition setBack (simTime : float) (hs : list float) : float :=
  foldl (fun t h => (t - h)%float) simTime hs.

Definition isPrivate (a : OSCAction) : Prop :=
  match a with PrivateAction _ => True | GlobalAction => False end.

(** * The OSMP source of the FMU ([EsminiOsiSource])

    The part of [EsminiOsiSource.cpp] that keeps the FMI variables and hands
    the serialized sensor view to the importer.

    Modelling choices.
    - [fmi2Integer] and [fmi2Boolean] are [int] ([Z]), [fmi2Real] is
      [double], [fmi2ValueReference] and [size_t] are unsigned (a [nat] where
      the code only compares and indexes).
    - The arrays [boolean_vars], [integer_vars], [real_vars] and
      [string_vars] are lists; [sizesOk] says that each has its declared
      size.  A read [vars[r]] is a total lookup: the code reads only under
      the test [r < FMI_..._VARS].
    - The sizes and indices of the header are the fields of
      [VariableLayout].
    - A pointer is the 64-bit number [reinterpret_cast] gives; [union
      addrconv] is its 64 bits of storage, the member [lo] being the low
      half (the build for [PTRDIFF_MAX == INT64_MAX] on a little-endian
      target).  The branch for [PTRDIFF_MAX == INT32_MAX] is given beside
      it. *)

Inductive fmi2Status : Type :=
  | fmi2OK | fmi2Warning | fmi2Discard | fmi2Error | fmi2Fatal | fmi2Pending.

Definition fmi2False : Z := 0.
Definition fmi2True : Z := 1.

(** ** [decode_integer_to_pointer] and [encode_pointer_to_integer] *)

(** [union addrconv]: 64 bits, read as [address] or as the two [int]s
    [base.lo] (bits 0 to 31) and [base.hi] (bits 32 to 63). *)
Record addrconv : Type := mkAddrconv { address : Z }.

Definition base_lo (u : addrconv) : Z := to_int (address u mod 4294967296).
Definition base_hi (u : addrconv) : Z := to_int (address u / 4294967296).

Definition set_base_lo (u : addrconv) (v : Z) : addrconv :=
  mkAddrconv (address u / 4294967296 * 4294967296 + v mod 4294967296).
Definition set_base_hi (u : addrconv) (v : Z) : addrconv :=
  mkAddrconv (v mod 4294967296 * 4294967296 + address u mod 4294967296).

(** The local [myaddr] is not initialised; [myaddr] is what it holds on
    entry. *)
Definition decode_integer_to_pointer_from (myaddr : addrconv) (hi lo : Z) : Z :=
  let myaddr := set_base_lo myaddr lo in
  let myaddr := set_base_hi myaddr hi in
  address myaddr.

Definition decode_integer_to_pointer (hi lo : Z) : Z :=
  decode_integer_to_pointer_from (mkAddrconv 0) hi lo.

(** The result is the pair [(hi, lo)] of the two reference parameters. *)
Definition encode_pointer_to_integer (ptr : Z) : Z * Z :=
  let myaddr := mkAddrconv ptr in
  (base_hi myaddr, base_lo myaddr).

(** The branch for [PTRDIFF_MAX == INT32_MAX]: a pointer has 32 bits. *)
Definition decode_integer_to_pointer_32 (hi lo : Z) : Z := lo mod 4294967296.
Definition encode_pointer_to_integer_32 (ptr : Z) : Z * Z := (0, to_int ptr).

(** ** The instance *)

(** A [std::string]: the address [data()] returns and the characters. *)
Record Buffer : Type := mkBuffer { str_data : Z; str_bytes : list Byte.byte }.

(** The sizes of the variable arrays and the indices of the variables the
    code names, as the header defines them. *)
Class VariableLayout : Type := {
  FMI_BOOLEAN_VARS : nat;
  FMI_INTEGER_VARS : nat;
  FMI_REAL_VARS : nat;
  FMI_STRING_VARS : nat;
  FMI_INTEGER_TRAFFICUPDATE_IN_BASELO_IDX : nat;
  FMI_INTEGER_TRAFFICUPDATE_IN_BASEHI_IDX : nat;
  FMI_INTEGER_TRAFFICUPDATE_IN_SIZE_IDX : nat;
  FMI_INTEGER_SENSORVIEW_OUT_BASELO_IDX : nat;
  FMI_INTEGER_SENSORVIEW_OUT_BASEHI_IDX : nat;
  FMI_INTEGER_SENSORVIEW_OUT_SIZE_IDX : nat
}.

(** [osi3::SensorView] and its serialization into a string, which may move
    the characters of the string it writes to. *)
Class Protobuf : Type := {
  SensorView : Type;
  SerializeToString : SensorView -> Buffer -> Buffer
}.

#[global] Instance float_inhabited : Inhabited float := populate 0%float.

(** [EsminiOsiSource], reduced to the members the functions below use. *)
Record EsminiOsiSource : Type := mkSource {
  boolean_vars : list Z;
  integer_vars : list Z;
  real_vars : list float;
  string_vars : list string;
  currentBuffer : Buffer;
  lastBuffer : Buffer;
  loggingOn : bool;
  loggingCategories : gset string
}.

Definition with_boolean_vars (c : EsminiOsiSource) (v : list Z) : EsminiOsiSource :=
  mkSource v (integer_vars c) (real_vars c) (string_vars c)
    (currentBuffer c) (lastBuffer c) (loggingOn c) (loggingCategories c).
Definition with_integer_vars (c : EsminiOsiSource) (v : list Z) : EsminiOsiSource :=
  mkSource (boolean_vars c) v (real_vars c) (string_vars c)
    (currentBuffer c) (lastBuffer c) (loggingOn c) (loggingCategories c).
Definition with_real_vars (c : EsminiOsiSource) (v : list float) : EsminiOsiSource :=
  mkSource (boolean_vars c) (integer_vars c) v (string_vars c)
    (currentBuffer c) (lastBuffer c) (loggingOn c) (loggingCategories c).
Definition with_string_vars (c : EsminiOsiSource) (v : list string) : EsminiOsiSource :=
  mkSource (boolean_vars c) (integer_vars c) (real_vars c) v
    (currentBuffer c) (lastBuffer c) (loggingOn c) (loggingCategories c).

(** ** The loops of the getters and setters *)

(** [for (i = 0; i < nvr; i++) { if (vr[i] < n) value[i] = vars[vr[i]]; else
    return fmi2Error; } return fmi2OK;] with the caller's array [value] and
    the index [i] the loop has reached. *)
Fixpoint getLoop {A : Type} `{Inhabited A} (n : nat) (vars : list A)
    (vr : list nat) (i : nat) (value : list A) : fmi2Status * list A :=
  match vr with
  | [] => (fmi2OK, value)
  | r :: vr' =>
      if (r <? n)%nat then getLoop n vars vr' (Datatypes.S i) (<[i := vars !!! r]> value)
      else (fmi2Error, value)
  end.

(** [for (i = 0; i < nvr; i++) { if (vr[i] < n) vars[vr[i]] = value[i]; else
    return fmi2Error; } return fmi2OK;] over the pairs [(vr[i], value[i])] of
    the caller's two arrays of [nvr] elements. *)
Fixpoint setLoop {A : Type} (n : nat) (args : list (nat * A)) (vars : list A)
  : fmi2Status * list A :=
  match args with
  | [] => (fmi2OK, vars)
  | (r, v) :: args' =>
      if (r <? n)%nat then setLoop n args' (<[r := v]> vars)
      else (fmi2Error, vars)
  end.

(** [for (int i = 0; i < n; i++) vars[i] = x;] *)
Definition fillLoop {A : Type} (n : nat) (x : A) (vars : list A) : list A :=
  foldl (fun v i => <[i := x]> v) vars (seq 0 n).

Section OsiSource.
Context `{VL : VariableLayout} `{PB : Protobuf}.

Definition GetReal (c : EsminiOsiSource) (vr : list nat) (value : list float)
  : fmi2Status * list float :=
  getLoop FMI_REAL_VARS (real_vars c) vr 0 value.

Definition GetInteger (c : EsminiOsiSource) (vr : list nat) (value : list Z)
  : fmi2Status * list Z :=
  getLoop FMI_INTEGER_VARS (integer_vars c) vr 0 value.

Definition GetBoolean (c : EsminiOsiSource) (vr : list nat) (value : list Z)
  : fmi2Status * list Z :=
  getLoop FMI_BOOLEAN_VARS (boolean_vars c) vr 0 value.

(** The entries written are the strings themselves, not the pointers
    [c_str()] returns. *)
Definition GetString (c : EsminiOsiSource) (vr : list nat) (value : list string)
  : fmi2Status * list string :=
  getLoop FMI_STRING_VARS (string_vars c) vr 0 value.

Definition SetReal (c : EsminiOsiSource) (args : list (nat * float))
  : fmi2Status * EsminiOsiSource :=
  let '(status, v) := setLoop FMI_REAL_VARS args (real_vars c) in
  (status, with_real_vars c v).

Definition SetInteger (c : EsminiOsiSource) (args : list (nat * Z))
  : fmi2Status * EsminiOsiSource :=
  let '(status, v) := setLoop FMI_INTEGER_VARS args (integer_vars c) in
  (status, with_integer_vars c v).

Definition SetBoolean (c : EsminiOsiSource) (args : list (nat * Z))
  : fmi2Status * EsminiOsiSource :=
  let '(status, v) := setLoop FMI_BOOLEAN_VARS args (boolean_vars c) in
  (status, with_boolean_vars c v).

Definition SetString (c : EsminiOsiSource) (args : list (nat * string))
  : fmi2Status * EsminiOsiSource :=
  let '(status, v) := setLoop FMI_STRING_VARS args (string_vars c) in
  (status, with_string_vars c v).

Definition doInit (c : EsminiOsiSource) : fmi2Status * EsminiOsiSource :=
  (fmi2OK,
   mkSource (fillLoop FMI_BOOLEAN_VARS fmi2False (boolean_vars c))
     (fillLoop FMI_INTEGER_VARS 0 (integer_vars c))
     (fillLoop FMI_REAL_VARS 0%float (real_vars c))
     (fillLoop FMI_STRING_VARS EmptyString (string_vars c))
     (currentBuffer c) (lastBuffer c) (loggingOn c) (loggingCategories c)).

(** [doFree(); return doInit();], [doFree] having no effect. *)
Definition Reset (c : EsminiOsiSource) : fmi2Status * EsminiOsiSource :=
  doInit c.

(** What [get_fmi_traffic_update_in] hands to [ParseFromArray]: the buffer
    address and the size, for the result 0; [None] for the result -1. *)
Definition get_fmi_traffic_update_in (c : EsminiOsiSource) : option (Z * Z) :=
  if 0 <? integer_vars c !!! FMI_INTEGER_TRAFFICUPDATE_IN_SIZE_IDX then
    let buffer :=
      decode_integer_to_pointer
        (integer_vars c !!! FMI_INTEGER_TRAFFICUPDATE_IN_BASEHI_IDX)
        (integer_vars c !!! FMI_INTEGER_TRAFFICUPDATE_IN_BASELO_IDX) in
    Some (buffer, integer_vars c !!! FMI_INTEGER_TRAFFICUPDATE_IN_SIZE_IDX)
  else None.

Definition set_fmi_sensor_view_out (data : SensorView) (c : EsminiOsiSource)
  : EsminiOsiSource :=
  let current := SerializeToString data (currentBuffer c) in
  let '(hi, lo) := encode_pointer_to_integer (str_data current) in
  let v := <[FMI_INTEGER_SENSORVIEW_OUT_BASEHI_IDX := hi]> (integer_vars c) in
  let v := <[FMI_INTEGER_SENSORVIEW_OUT_BASELO_IDX := lo]> v in
  let v := <[FMI_INTEGER_SENSORVIEW_OUT_SIZE_IDX :=
               to_int (Z.of_nat (length (str_bytes current)))]> v in
  mkSource (boolean_vars c) v (real_vars c) (string_vars c)
    (lastBuffer c) current (loggingOn c) (loggingCategories c).

Definition reset_fmi_sensor_view_out (c : EsminiOsiSource) : EsminiOsiSource :=
  let v := <[FMI_INTEGER_SENSORVIEW_OUT_SIZE_IDX := 0]> (integer_vars c) in
  let v := <[FMI_INTEGER_SENSORVIEW_OUT_BASEHI_IDX := 0]> v in
  let v := <[FMI_INTEGER_SENSORVIEW_OUT_BASELO_IDX := 0]> v in
  with_integer_vars c v.

(** One round of the loop over [categories]. *)
Definition addCategory (s : gset string) (category : string) : gset string :=
  if String.eqb category "FMI" then {[ "FMI"%string ]} ∪ s
  else if String.eqb category "OSMP" then {[ "OSMP"%string ]} ∪ s
  else if String.eqb category "OSI" then {[ "OSI"%string ]} ∪ s
  else s.

Definition allCategories : gset string :=
  {[ "FMI"%string; "OSMP"%string; "OSI"%string ]}.

(** [categories] is [None] for a null pointer and the array of
    [nCategories] names otherwise. *)
Definition SetDebugLogging (theloggingOn : Z) (categories : option (list string))
    (c : EsminiOsiSource) : fmi2Status * EsminiOsiSource :=
  let on := if theloggingOn =? 0 then false else true in
  let cats :=
    match categories with
    | Some (category :: rest) => foldl addCategory ∅ (category :: rest)
    | _ => allCategories
    end in
  (fmi2OK,
   mkSource (boolean_vars c) (integer_vars c) (real_vars c) (string_vars c)
     (currentBuffer c) (lastBuffer c) on cats).

(** Every array has its declared size. *)
Definition sizesOk (c : EsminiOsiSource) : Prop :=
  length (boolean_vars c) = FMI_BOOLEAN_VARS /\
  length (integer_vars c) = FMI_INTEGER_VARS /\
  length (real_vars c) = FMI_REAL_VARS /\
  length (string_vars c) = FMI_STRING_VARS.

(** The three variables of the sensor view are distinct variables of the
    integer array, as are the three of the traffic update. *)
Definition layoutOk : Prop :=
  (FMI_INTEGER_SENSORVIEW_OUT_BASELO_IDX < FMI_INTEGER_VARS)%nat /\
  (FMI_INTEGER_SENSORVIEW_OUT_BASEHI_IDX < FMI_INTEGER_VARS)%nat /\
  (FMI_INTEGER_SENSORVIEW_OUT_SIZE_IDX < FMI_INTEGER_VARS)%nat /\
  FMI_INTEGER_SENSORVIEW_OUT_BASELO_IDX <> FMI_INTEGER_SENSORVIEW_OUT_BASEHI_IDX /\
  FMI_INTEGER_SENSORVIEW_OUT_BASELO_IDX <> FMI_INTEGER_SENSORVIEW_OUT_SIZE_IDX /\
  FMI_INTEGER_SENSORVIEW_OUT_BASEHI_IDX <> FMI_INTEGER_SENSORVIEW_OUT_SIZE_IDX /\
  (FMI_INTEGER_TRAFFICUPDATE_IN_BASELO_IDX < FMI_INTEGER_VARS)%nat /\
  (FMI_INTEGER_TRAFFICUPDATE_IN_BASEHI_IDX < FMI_INTEGER_VARS)%nat /\
  (FMI_INTEGER_TRAFFICUPDATE_IN_SIZE_IDX < FMI_INTEGER_VARS)%nat /\
  FMI_INTEGER_TRAFFICUPDATE_IN_BASELO_IDX <> FMI_INTEGER_TRAFFICUPDATE_IN_BASEHI_IDX /\
  FMI_INTEGER_TRAFFICUPDATE_IN_BASELO_IDX <> FMI_INTEGER_TRAFFICUPDATE_IN_SIZE_IDX /\
  FMI_INTEGER_TRAFFICUPDATE_IN_BASEHI_IDX <> FMI_INTEGER_TRAFFICUPDATE_IN_SIZE_IDX.

End OsiSource.

(** ** What the getters and setters are measured against *)

Definition validRefs (n : nat) (vr : list nat) : Prop :=
  Forall (fun r => (r < n)%nat) vr.

(** [pre ++ rest] is cut at its first invalid reference: the references of
    [pre] are valid, and [rest] is empty or starts with an invalid one. *)
Definition cutAtFirstInvalid (n : nat) (pre rest : list nat) : Prop :=
  validRefs n pre /\
  match rest with [] => True | r :: _ => (n <= r)%nat end.

(** The status of a call whose references after the valid ones are [rest]. *)
Definition statusOf {B : Type} (rest : list B) : fmi2Status :=
  match rest with [] => fmi2OK | _ => fmi2Error end.

(** The value the pairs [args], applied in their order, leave in variable
    [j], when one of them writes it. *)
Fixpoint written {A : Type} (args : list (nat * A)) (j : nat) : option A :=
  match args with
  | [] => None
  | (r, v) :: args' =>
      match written args' j with
      | Some w => Some w
      | None => if decide (r = j) then Some v else None
      end
  end.

(** A getter over the array [vars] of [n] variables: the entries of the
    caller's array that belong to the valid references before the first
    invalid one are written, the others are left, and the status tells
    whether an invalid reference was met. *)
Definition getterSpec {A : Type} `{Inhabited A} (n : nat) (vars : list A)
    (get : list nat -> list A -> fmi2Status * list A) : Prop :=
  forall pre rest value,
    cutAtFirstInvalid n pre rest -> (length pre <= length value)%nat ->
    get (pre ++ rest) value =
      (statusOf rest, ((fun r => vars !!! r) <$> pre) ++ drop (length pre) value).

(** A setter of the array [proj c], which [upd] replaces: the pairs before
    the first invalid reference are applied, the last write to a variable
    winning; nothing is written out of the array and no other member is
    changed. *)
Definition setterSpec {A : Type} (n : nat) (proj : EsminiOsiSource -> list A)
    (upd : EsminiOsiSource -> list A -> EsminiOsiSource)
    (set : EsminiOsiSource -> list (nat * A) -> fmi2Status * EsminiOsiSource)
  : Prop :=
  forall c pre rest,
    length (proj c) = n ->
    cutAtFirstInvalid n (fst <$> pre) (fst <$> rest) ->
    exists v,
      set c (pre ++ rest) = (statusOf rest, upd c v) /\
      length v = n /\
      forall j, v !! j = match written pre j with
                         | Some w => Some w
                         | None => proj c !! j
                         end.

(** Setting distinct valid variables and getting them back returns the
    values set. *)
Definition roundTripSpec {A : Type} (n : nat) (proj : EsminiOsiSource -> list A)
    (set : EsminiOsiSource -> list (nat * A) -> fmi2Status * EsminiOsiSource)
    (get : EsminiOsiSource -> list nat -> list A -> fmi2Status * list A) : Prop :=
  forall c args value,
    length (proj c) = n ->
    validRefs n (fst <$> args) -> NoDup (fst <$> args) ->
    (length args <= length value)%nat ->
    exists c',
      set c args = (fmi2OK, c') /\ length (proj c') = n /\
      get c' (fst <$> args) value =
        (fmi2OK, (snd <$> args) ++ drop (length args) value).

(** The range of a 64-bit pointer. *)
Definition is_pointer (p : Z) : Prop := 0 <= p < 18446744073709551616.

(** A layout to run the definitions on: six integer variables, the traffic
    update in the first three and the sensor view in the last three, and two
    variables of every other type. *)
Definition smallLayout : VariableLayout := {|
  FMI_BOOLEAN_VARS := 2;
  FMI_INTEGER_VARS := 6;
  FMI_REAL_VARS := 2;
  FMI_STRING_VARS := 2;
  FMI_INTEGER_TRAFFICUPDATE_IN_BASELO_IDX := 0;
  FMI_INTEGER_TRAFFICUPDATE_IN_BASEHI_IDX := 1;
  FMI_INTEGER_TRAFFICUPDATE_IN_SIZE_IDX := 2;
  FMI_INTEGER_SENSORVIEW_OUT_BASELO_IDX := 3;
  FMI_INTEGER_SENSORVIEW_OUT_BASEHI_IDX := 4;
  FMI_INTEGER_SENSORVIEW_OUT_SIZE_IDX := 5
|}.

(** A serialization that writes the sensor view, a list of bytes here, to
    a fresh address 16 bytes after the old one. *)
Definition smallProtobuf : Protobuf := {|
  SensorView := list Byte.byte;
  SerializeToString := fun data b => mkBuffer (str_data b + 16) data
|}.

Definition smallSource : EsminiOsiSource :=
  mkSource [0; 0] [0; 0; 0; 0; 0; 0] [0%float; 0%float]
    [EmptyString; EmptyString]
    (mkBuffer 4096 []) (mkBuffer 8192 []) false ∅.

(** ** Facts about binary64 comparisons *)

Section FloatOrder.
Local Open Scope float_scope.

Lemma SFcompare_antisym (u v : spec_float) (c : comparison) :
  SFcompare u v = Some c -> SFcompare v u = Some (CompOpp c).
Proof.
  destruct u as [[]|[]| |[] mu eu], v as [[]|[]| |[] mv ev];
    cbv [SFcompare]; intros E; inversion E; subst; clear E; try reflexivity.
  all: rewrite (Z.compare_antisym ev eu);
    destruct (ev ?= eu)%Z; cbv [CompOpp]; try reflexivity;
    pose proof (Pos.compare_cont_antisym mu mv Eq) as Ha;
    change (CompOpp Eq) with Eq in Ha; rewrite <- Ha;
    destruct (Pos.compare_cont Eq mu mv); reflexivity.
Qed.

Lemma SFcompare_total (u v : spec_float) :
  u <> S754_nan -> v <> S754_nan -> exists c, SFcompare u v = Some c.
Proof.
  destruct u as [[]|[]| |[] mu eu], v as [[]|[]| |[] mv ev]; cbv [SFcompare];
    intros; try congruence; eauto.
Qed.

Lemma is_nan_false (v : float) : is_nan v = false -> Prim2SF v <> S754_nan.
Proof.
  unfold is_nan. rewrite FloatAxioms.eqb_spec. intros Hn E. rewrite E in Hn. discriminate.
Qed.

Ltac sf_cases e :=
  rewrite ?FloatAxioms.ltb_spec, ?FloatAxioms.leb_spec;
  let k1 := eval vm_compute in (Prim2SF 0.001) in
  change (Prim2SF 0.001) with k1;
  let k0 := eval vm_compute in (Prim2SF 0) in
  change (Prim2SF 0) with k0;
  destruct (Prim2SF e) as [[]|[]| |[] ? ?];
  cbv [SFltb SFleb SFcompare orb andb]; congruence.

Lemma below_zero_not_outside (e : float) :
  (e <? 0) = true -> (0.001 <? e) = false.
Proof. sf_cases e. Qed.

Lemma below_zero_within_mid (e : float) :
  (e <? 0) = true ->
  ((0.001 <? e) || ((0 <=? e) && (e <=? 0.001)))%bool = false.
Proof. sf_cases e. Qed.

Lemma nonneg_beyond_mid (e : float) :
  (0 <=? e) = true ->
  ((0.001 <? e) || ((0 <=? e) && (e <=? 0.001)))%bool = true.
Proof.
  intros Hge. rewrite Hge. rewrite Bool.andb_true_l.
  rewrite FloatAxioms.leb_spec in Hge. rewrite FloatAxioms.ltb_spec, FloatAxioms.leb_spec.
  unfold SFltb, SFleb in *.
  destruct (SFcompare (Prim2SF 0) (Prim2SF e)) as [c0|] eqn:E0; [|discriminate].
  assert (Hn : Prim2SF e <> S754_nan).
  { intros Hn. rewrite Hn in E0. destruct (Prim2SF 0); discriminate. }
  destruct (SFcompare_total (Prim2SF 0.001) (Prim2SF e)) as [c Hc]; [|assumption|].
  { vm_compute. discriminate. }
  rewrite Hc, (SFcompare_antisym _ _ _ Hc). destruct c; reflexivity.
Qed.

Lemma within_not_beyond (u v : float) : (u <=? v) = true -> (v <? u) = false.
Proof.
  rewrite FloatAxioms.leb_spec, FloatAxioms.ltb_spec. unfold SFleb, SFltb.
  destruct (SFcompare (Prim2SF u) (Prim2SF v)) as [c|] eqn:Hc; [|discriminate].
  rewrite (SFcompare_antisym _ _ _ Hc). destruct c; cbv [CompOpp]; congruence.
Qed.

Lemma add_zero_same (v : float) : is_nan v = false -> (v + 0 =? v) = true.
Proof.
  intros Hn. apply is_nan_false in Hn. rewrite FloatAxioms.eqb_spec, FloatAxioms.add_spec.
  let k0 := eval vm_compute in (Prim2SF 0) in change (Prim2SF 0) with k0.
  unfold SFeqb.
  destruct (Prim2SF v) as [[]|[]| |[] m e] eqn:E; try congruence;
    cbv [SF64add SFadd SFcompare];
    rewrite ?Z.compare_refl, ?Pos.compare_cont_refl; reflexivity.
Qed.

(** For a distance that is a number, failing the test [d <= k] is being
    greater than [k]. *)
Lemma not_within_is_beyond (d k : float) :
  is_nan d = false -> is_nan k = false -> (d <=? k) = false -> (k <? d) = true.
Proof.
  intros Hd Hk. apply is_nan_false in Hd, Hk.
  rewrite FloatAxioms.leb_spec, FloatAxioms.ltb_spec. unfold SFleb, SFltb.
  destruct (SFcompare_total _ _ Hk Hd) as [c Hc].
  rewrite Hc, (SFcompare_antisym _ _ _ Hc). destruct c; cbv [CompOpp]; congruence.
Qed.

End FloatOrder.

(** ** Facts about the conversion of a double to int *)

Lemma digits2_pos_bound (m : positive) : Z.pos m < 2 ^ Z.pos (digits2_pos m).
Proof.
  induction m as [p IH|p IH|]; cbn [digits2_pos].
  - rewrite Pos2Z.inj_succ, Z.pow_succ_r by lia. lia.
  - rewrite Pos2Z.inj_succ, Z.pow_succ_r by lia. lia.
  - reflexivity.
Qed.

Lemma valid_mantissa (s : bool) (m : positive) (e : Z) :
  valid_binary (S754_finite s m e) = true -> Z.pos m < 2 ^ 53.
Proof.
  unfold valid_binary, bounded, canonical_mantissa, fexp, SpecFloat.emin, prec, emax.
  intros Hv. apply andb_true_iff in Hv as [Hc _]. apply Z.eqb_eq in Hc.
  pose proof (digits2_pos_bound m) as Hd.
  assert (Hle : Z.pos (digits2_pos m) <= 53) by lia.
  assert (Hp : 2 ^ Z.pos (digits2_pos m) <= 2 ^ 53) by (apply Z.pow_le_mono_r; lia).
  lia.
Qed.

Lemma magnitude_nonneg (m : positive) (e : Z) : 0 <= magnitude m e.
Proof.
  unfold magnitude. destruct (Z.leb_spec 0 e).
  - pose proof (Z.pow_nonneg 2 e). nia.
  - apply Z.div_pos; [lia|]. apply Z.pow_pos_nonneg; lia.
Qed.

Lemma magnitude_below (m : positive) (e c ec : Z) :
  Z.pos m < 2 ^ 53 -> ec <= 0 -> 2 ^ 52 <= c * 2 ^ (- ec) ->
  e < ec \/ (e = ec /\ Z.pos m < c * 2 ^ (- ec)) ->
  magnitude m e < c.
Proof.
  intros Hm Hec Hnorm Hcmp. unfold magnitude.
  assert (Hpos : 0 < 2 ^ (- ec)) by (apply Z.pow_pos_nonneg; lia).
  destruct (Z.leb_spec 0 e) as [He|He].
  - assert (e = 0) by lia. subst e. assert (ec = 0) by lia. subst ec.
    cbn in *. lia.
  - assert (Hpe : 0 < 2 ^ (- e)) by (apply Z.pow_pos_nonneg; lia).
    apply Z.div_lt_upper_bound; [exact Hpe|].
    destruct Hcmp as [Hlt|[-> Hlt]]; [|lia].
    assert (Hmono : 2 ^ (- ec + 1) <= 2 ^ (- e)) by (apply Z.pow_le_mono_r; lia).
    rewrite Z.pow_add_r in Hmono by lia. change (2 ^ 1) with 2 in Hmono.
    change (2 ^ 53) with (2 * 2 ^ 52) in Hm. nia.
Qed.

Lemma magnitude_above (m : positive) (e c ec : Z) :
  Z.pos m < 2 ^ 53 -> ec <= 0 -> 2 ^ 52 <= c * 2 ^ (- ec) ->
  c <= magnitude m e ->
  ec < e \/ (e = ec /\ c * 2 ^ (- ec) <= Z.pos m).
Proof.
  intros Hm Hec Hnorm Hc.
  destruct (Z.lt_trichotomy e ec) as [Hlt|[->|Hgt]]; [|right; split; [reflexivity|]|now left].
  - pose proof (magnitude_below m e c ec Hm Hec Hnorm (or_introl Hlt)). lia.
  - destruct (Z.le_gt_cases (c * 2 ^ (- ec)) (Z.pos m)) as [Hge|Hbelow]; [exact Hge|].
    pose proof (magnitude_below m ec c ec Hm Hec Hnorm (or_intror (conj eq_refl Hbelow))).
    lia.
Qed.

Lemma small_int_close (z : Z) :
  -12 <= z <= 12 -> (int_to_double (abs_int z) <=? VHEICLE_DISTANCE)%float = true.
Proof.
  intros Hz.
  assert (Hk : exists k : nat, z = Z.of_nat k - 12 /\ (k <= 24)%nat).
  { exists (Z.to_nat (z + 12)). split; lia. }
  destruct Hk as (k & -> & Hk).
  do 25 (destruct k as [|k]; [reflexivity|]). lia.
Qed.

Lemma compare_cont_lt (a b : positive) :
  Z.pos a < Z.pos b -> PosDef.Pos.compare_cont Eq a b = Lt.
Proof. intros H. apply Pos.compare_lt_iff. lia. Qed.

Lemma compare_cont_le (a b : positive) :
  Z.pos a <= Z.pos b -> PosDef.Pos.compare_cont Eq a b <> Gt.
Proof. intros H. apply Pos.compare_le_iff. lia. Qed.

Lemma compare_cont_lt_inv (a b : positive) :
  PosDef.Pos.compare_cont Eq a b = Lt -> Z.pos a < Z.pos b.
Proof. intros H. pose proof (proj1 (Pos.compare_lt_iff a b) H). lia. Qed.


(** What the conversion yields for a finite double. *)
Lemma double_to_int_finite (d : float) (s : bool) (m : positive) (e : Z) :
  Prim2SF d = S754_finite s m e ->
  double_to_int d = -2147483648 \/
  (Z.abs (double_to_int d) = magnitude m e /\ magnitude m e < 2147483648).
Proof.
  intros Hd. unfold double_to_int. rewrite Hd. cbv zeta.
  pose proof (magnitude_nonneg m e) as Hn.
  generalize dependent (magnitude m e). intros a Hn.
  destruct s; cbv iota;
    (destruct (_ && _) eqn:Hr; [|now left]);
    apply andb_true_iff in Hr as [Hlo Hhi]; apply Z.leb_le in Hlo;
    apply Z.ltb_lt in Hhi;
    (destruct (Z.eq_dec a 2147483648); [left|right]; lia).
Qed.

Lemma abs_int_small (z : Z) : 0 <= Z.abs z < 2147483648 -> abs_int z = Z.abs z.
Proof. intros Hz. unfold abs_int, to_int. rewrite Z.mod_small; lia. Qed.


Lemma accepted_at_least_13 (d : float) :
  (abs_of_double d <=? VHEICLE_DISTANCE)%float = false ->
  exists m e, Prim2SF (abs d) = S754_finite false m e /\
    (-49 < e \/ (e = -49 /\ 7318349394477056 <= Z.pos m)).
Proof.
  unfold abs_of_double. intros Htest.
  pose proof (FloatAxioms.Prim2SF_valid d) as Hv.
  rewrite FloatAxioms.abs_spec.
  destruct (Prim2SF d) as [z0|[]| |s m e] eqn:Hd.
  1-4: unfold double_to_int in Htest; rewrite Hd in Htest; discriminate.
  exists m, e. split; [reflexivity|]. apply valid_mantissa in Hv.
  destruct (double_to_int_finite d s m e Hd) as [Hinv|[Habs Hrange]].
  { rewrite Hinv in Htest. discriminate. }
  pose proof (magnitude_nonneg m e) as Hn.
  destruct (Z.le_gt_cases (magnitude m e) 12) as [Hsmall|Hbig].
  { rewrite small_int_close in Htest by lia. discriminate. }
  change 7318349394477056 with (13 * 2 ^ (- -49)).
  apply (magnitude_above m e 13 (-49) Hv); [lia|vm_compute; discriminate|lia].
Qed.

Lemma accepted_far (d : float) :
  (abs_of_double d <=? VHEICLE_DISTANCE)%float = false ->
  (VHEICLE_DISTANCE <? abs d)%float = true.
Proof.
  intros Htest. destruct (accepted_at_least_13 d Htest) as (m & e & Habs & Hcmp).
  rewrite FloatAxioms.ltb_spec, Habs.
  change (Prim2SF VHEICLE_DISTANCE) with (S754_finite false 6755399441055744 (-49)).
  cbv [SFltb SFcompare].
  destruct Hcmp as [Hlt|[-> Hm]].
  - apply Z.compare_lt_iff in Hlt. now rewrite Hlt.
  - rewrite Z.compare_refl. rewrite compare_cont_lt by lia. reflexivity.
Qed.

Lemma accepted_13 (d : float) :
  (abs_of_double d <=? VHEICLE_DISTANCE)%float = false ->
  (13 <=? abs d)%float = true.
Proof.
  intros Htest. destruct (accepted_at_least_13 d Htest) as (m & e & Habs & Hcmp).
  rewrite FloatAxioms.leb_spec, Habs.
  change (Prim2SF 13) with (S754_finite false 7318349394477056 (-49)).
  cbv [SFleb SFcompare].
  destruct Hcmp as [Hlt|[-> Hm]].
  - apply Z.compare_lt_iff in Hlt. now rewrite Hlt.
  - rewrite Z.compare_refl.
    pose proof (compare_cont_le 7318349394477056 m Hm).
    destruct (PosDef.Pos.compare_cont Eq 7318349394477056 m); congruence.
Qed.

(** A vehicle less than 13 away is rejected. *)
Lemma within_13_rejected (d : float) :
  (abs d <? 13)%float = true ->
  (abs_of_double d <=? VHEICLE_DISTANCE)%float = true.
Proof.
  rewrite FloatAxioms.ltb_spec, FloatAxioms.abs_spec.
  change (Prim2SF 13) with (S754_finite false 7318349394477056 (-49)).
  unfold abs_of_double.
  pose proof (FloatAxioms.Prim2SF_valid d) as Hv.
  destruct (Prim2SF d) as [z0|[]| |s m e] eqn:Hd; cbv [SFabs SFltb SFcompare];
    try discriminate.
  - intros _. unfold double_to_int. rewrite Hd. reflexivity.
  - intros Hcmp. apply valid_mantissa in Hv.
    assert (Hsmall : magnitude m e < 13).
    { apply (magnitude_below m e 13 (-49) Hv); [lia|vm_compute; discriminate|].
      destruct (Z.compare_spec e (-49)) as [->|Hlt|Hgt]; [|now left|discriminate].
      right. split; [reflexivity|].
      destruct (PosDef.Pos.compare_cont Eq m 7318349394477056) eqn:E; try discriminate.
      apply compare_cont_lt_inv in E. exact E. }
    pose proof (magnitude_nonneg m e) as Hn.
    apply small_int_close. unfold double_to_int. rewrite Hd. cbv zeta.
    destruct s.
    + destruct (Z.leb_spec (-2147483648) (- magnitude m e)); cbn [andb]; [|lia].
      destruct (Z.ltb_spec (- magnitude m e) 2147483648); lia.
    + destruct (Z.leb_spec (-2147483648) (magnitude m e)); cbn [andb]; [|lia].
      destruct (Z.ltb_spec (magnitude m e) 2147483648); lia.
Qed.

(** An advance of less than one second leaves the guard closed. *)
Lemma below_one_not_due (d : float) :
  (abs d <? 1)%float = true ->
  (TIME_INTERVAL <? abs_of_double d)%float = false.
Proof.
  rewrite FloatAxioms.ltb_spec, FloatAxioms.abs_spec.
  change (Prim2SF 1) with (S754_finite false 4503599627370496 (-52)).
  unfold abs_of_double.
  pose proof (FloatAxioms.Prim2SF_valid d) as Hv.
  destruct (Prim2SF d) as [z0|[]| |s m e] eqn:Hd; cbv [SFabs SFltb SFcompare];
    try discriminate.
  - intros _. unfold double_to_int. rewrite Hd. reflexivity.
  - intros Hcmp. apply valid_mantissa in Hv.
    assert (Hsmall : magnitude m e < 1).
    { apply (magnitude_below m e 1 (-52) Hv); [lia|vm_compute; discriminate|].
      destruct (Z.compare_spec e (-52)) as [->|Hlt|Hgt]; [|now left|discriminate].
      right. split; [reflexivity|].
      destruct (PosDef.Pos.compare_cont Eq m 4503599627370496) eqn:E; try discriminate.
      apply compare_cont_lt_inv in E. exact E. }
    pose proof (magnitude_nonneg m e) as Hn.
    assert (Hz : magnitude m e = 0) by lia.
    unfold double_to_int. rewrite Hd. cbv zeta. rewrite Hz. now destruct s.
Qed.

(** ** Lists *)

Lemma omap_agree {A B : Type} (f g : A -> option B) (l : list A) :
  (forall a, a ∈ l -> f a = g a) -> omap f l = omap g l.
Proof.
  induction l as [|a l IH]; intros Hfg; [reflexivity|].
  cbn. rewrite (Hfg a) by apply list_elem_of_here.
  rewrite IH; [reflexivity|].
  intros a' Ha'. apply Hfg. now apply list_elem_of_further.
Qed.

Lemma NoDup_fmap_same {A B : Type} (f : A -> B) (l : list A) (a1 a2 : A) :
  NoDup (f <$> l) -> a1 ∈ l -> a2 ∈ l -> f a1 = f a2 -> a1 = a2.
Proof.
  induction l as [|a l IH]; intros Hnd H1 H2 Hf.
  - inversion H1.
  - rewrite fmap_cons in Hnd. apply NoDup_cons in Hnd as [Hnot Hnd].
    apply elem_of_cons in H1 as [->|H1], H2 as [->|H2]; auto.
    + exfalso. apply Hnot. rewrite Hf. apply (list_elem_of_fmap_2 f _ _ H2).
    + exfalso. apply Hnot. rewrite <- Hf. apply (list_elem_of_fmap_2 f _ _ H1).
Qed.

Lemma omap_shorter {A B : Type} (f : A -> option B) (l : list A) :
  (length (omap f l) <= length l)%nat.
Proof.
  induction l as [|a l IH]; [reflexivity|].
  cbn. destruct (f a); cbn; lia.
Qed.

(** ** despawn *)

Section DespawnFacts.
Context `{RM : RoadManager} `{SG : SwarmGeometry}.
Implicit Types (st : SwarmTrafficAction) (e : gmap Z Object)
  (l : list SpawnInfo) (info : SpawnInfo).

Lemma despawnDecision_id (v0 v1 : float) info :
  vehicleID (despawnDecision v0 v1 info).2 = vehicleID info.
Proof.
  unfold despawnDecision.
  destruct (0.001 <? v0)%float; [reflexivity|].
  destruct (_ || _)%float; reflexivity.
Qed.

Lemma survivor_id st e info r :
  survivor st e info = Some r -> vehicleID r = vehicleID info.
Proof.
  unfold survivor. destruct (e !! vehicleID info) as [v|]; [|discriminate].
  cbn. pose proof (despawnDecision_id (outerValue st v) (midValue st v) info) as Hid.
  destruct (despawnDecision _ _ info) as [[] info']; [discriminate|].
  intros [= <-]. exact Hid.
Qed.

Lemma survivor_delete st e info k :
  k <> vehicleID info ->
  survivor st (delete k e) info = survivor st e info.
Proof.
  intros Hk. unfold survivor. now rewrite lookup_delete_ne.
Qed.

(** The loop returns, keeps exactly the survivors in their order, deletes
    the vehicle of every record it drops and no other object, and counts the
    records it drops. *)
Lemma despawnLoop_survivors st l : forall e,
  NoDup (vehicleID <$> l) -> recordsAlive e l ->
  exists e' n,
    despawnLoop st e l = Some (omap (survivor st e) l, e', n) /\
    n = Z.of_nat (length l) - Z.of_nat (length (omap (survivor st e) l)) /\
    (forall info, info ∈ l -> survivor st e info = None ->
       e' !! vehicleID info = None) /\
    (forall k, k ∉ vehicleID <$> l -> e' !! k = e !! k) /\
    (forall info, info ∈ l -> is_Some (survivor st e info) ->
       e' !! vehicleID info = e !! vehicleID info).
Proof.
  induction l as [|info l IH]; intros e Hnd Halive.
  - exists e, 0. repeat split; try reflexivity; intros ? H; inversion H.
  - rewrite fmap_cons in Hnd. apply NoDup_cons in Hnd as [Hnot Hnd].
    destruct (Halive info) as (v & Hv & Hname); [apply list_elem_of_here|].
    assert (Hfresh : forall a, a ∈ l -> vehicleID info <> vehicleID a).
    { intros a Ha Heq. apply Hnot. rewrite Heq.
      apply (list_elem_of_fmap_2 vehicleID _ _ Ha). }
    assert (Htail : forall e2, (forall k, k <> vehicleID info -> e2 !! k = e !! k) ->
              recordsAlive e2 l).
    { intros e2 He2 info2 Hin2.
      destruct (Halive info2) as (v2 & Hv2 & Hn2); [now apply list_elem_of_further|].
      exists v2. split; [|exact Hn2]. rewrite He2; [exact Hv2|].
      intros Heq. now apply (Hfresh info2). }
    assert (Hs : survivor st e info =
                 let '(d, info') := despawnDecision (outerValue st v) (midValue st v) info in
                 if d then None else Some info').
    { unfold survivor. rewrite Hv. reflexivity. }
    cbn [despawnLoop]. unfold GetObjectById. rewrite Hv. cbn [mbind option_bind].
    rewrite fmap_cons.
    change (omap (survivor st e) (info :: l)) with
      (match survivor st e info with
       | Some r => r :: omap (survivor st e) l
       | None => omap (survivor st e) l
       end).
    destruct (despawnDecision (outerValue st v) (midValue st v) info) as [[] info'] eqn:Hd.
    + (* the vehicle is deleted *)
      rewrite Hname. cbn [removeObject].
      destruct (IH (delete (vehicleID info) e) Hnd) as (e' & n & Hrun & Hn & Hgone & Hother & Hkept).
      { apply Htail. intros k Hk. now rewrite lookup_delete_ne. }
      assert (Hom : omap (survivor st (delete (vehicleID info) e)) l = omap (survivor st e) l).
      { apply omap_agree. intros a Ha. apply survivor_delete. now apply Hfresh. }
      rewrite Hrun. cbn [mbind option_bind]. rewrite Hs, Hom. exists e', (n + 1).
      split; [reflexivity|]. split.
      { rewrite Hn, Hom. cbn [length]. lia. }
      split; [|split].
      * intros a Ha Hsa. apply elem_of_cons in Ha as [->|Ha].
        -- rewrite Hother by exact Hnot. apply lookup_delete_eq.
        -- apply Hgone; [exact Ha|]. rewrite survivor_delete; [exact Hsa|].
           now apply Hfresh.
      * intros k Hk. apply not_elem_of_cons in Hk as [Hk1 Hk2].
        rewrite Hother by exact Hk2. now rewrite lookup_delete_ne.
      * intros a Ha Hsa. apply elem_of_cons in Ha as [->|Ha].
        -- rewrite Hs in Hsa. destruct Hsa; discriminate.
        -- rewrite Hkept; [rewrite lookup_delete_ne; [reflexivity|now apply Hfresh]|exact Ha|].
           rewrite survivor_delete; [exact Hsa|now apply Hfresh].
    + (* the record stays *)
      destruct (IH e Hnd) as (e' & n & Hrun & Hn & Hgone & Hother & Hkept).
      { apply Htail. reflexivity. }
      rewrite Hrun. cbn [mbind option_bind]. rewrite Hs. exists e', n.
      split; [reflexivity|]. split.
      { rewrite Hn. cbn [length]. lia. }
      split; [|split].
      * intros a Ha Hsa. apply elem_of_cons in Ha as [->|Ha].
        -- rewrite Hs in Hsa. discriminate.
        -- now apply Hgone.
      * intros k Hk. apply not_elem_of_cons in Hk as [Hk1 Hk2].
        now apply Hother.
      * intros a Ha Hsa. apply elem_of_cons in Ha as [->|Ha].
        -- now apply Hother.
        -- now apply Hkept.
Qed.

(** What [despawn] does with one record of a well-formed lifecycle list: it
    returns, and the record's fate is the one [despawnDecision] takes from
    the vehicle's two ellipse values. *)
Lemma despawn_record st (simTime : float) info vehicle :
  lifecycleOk st -> info ∈ spawnedV st ->
  entities_ st !! vehicleID info = Some vehicle ->
  exists st' n,
    despawn simTime st = Some (st', n) /\
    0 <= n /\
    match despawnDecision (outerValue st vehicle) (midValue st vehicle) info with
    | (true, _) =>
        ((vehicleID info ∉ (vehicleID <$> spawnedV st')) /\
         entities_ st' !! vehicleID info = None /\ 1 <= n)
    | (false, info') =>
        (info' ∈ spawnedV st' /\ entities_ st' !! vehicleID info = Some vehicle)
    end.
Proof.
  intros [Hnd Halive] Hin Hv.
  destruct (despawnLoop_survivors st (spawnedV st) (entities_ st) Hnd Halive)
    as (e' & n & Hrun & Hn & Hgone & Hother & Hkept).
  unfold despawn. rewrite Hrun. cbn [mbind option_bind].
  exists (with_lifecycle st (omap (survivor st (entities_ st)) (spawnedV st)) e'), n.
  split; [reflexivity|].
  assert (Hlen : (length (omap (survivor st (entities_ st)) (spawnedV st))
                  <= length (spawnedV st))%nat) by apply omap_shorter.
  split; [lia|].
  assert (Hs : survivor st (entities_ st) info =
               let '(d, info') :=
                 despawnDecision (outerValue st vehicle) (midValue st vehicle) info in
               if d then None else Some info').
  { unfold survivor. rewrite Hv. reflexivity. }
  destruct (despawnDecision (outerValue st vehicle) (midValue st vehicle) info)
    as [[] info'] eqn:Hd; cbn [spawnedV entities_ with_lifecycle].
  - split; [|split].
    + intros Hmem. apply list_elem_of_fmap in Hmem as (r & Hid & Hr).
      apply list_elem_of_omap in Hr as (a & Ha & Hsa).
      pose proof (survivor_id _ _ _ _ Hsa) as Hra.
      assert (a = info) as ->.
      { apply (NoDup_fmap_same vehicleID (spawnedV st)); auto. congruence. }
      rewrite Hs in Hsa. discriminate.
    + now apply Hgone.
    + assert (Hlt : (length (omap (survivor st (entities_ st)) (spawnedV st))
                     < length (spawnedV st))%nat); [|lia].
      clear -Hin Hs. induction (spawnedV st) as [|a l IH]; [inversion Hin|].
      apply elem_of_cons in Hin as [<-|Hin]; cbn.
      * rewrite Hs. pose proof (omap_shorter (survivor st (entities_ st)) l). cbn. lia.
      * specialize (IH Hin). destruct (survivor st (entities_ st) a); cbn; lia.
  - split.
    + apply list_elem_of_omap. exists info. now rewrite Hs.
    + rewrite Hkept; [exact Hv|exact Hin|]. rewrite Hs. eauto.
Qed.

Lemma set_count_count info n : outMidAreaCount (set_count info n) = n.
Proof. reflexivity. Qed.

Lemma set_count_twice info n m : set_count (set_count info n) m = set_count info m.
Proof. reflexivity. Qed.

(** A vehicle that stays in the band is kept, with its counter raised by
    one per evaluation, as long as the counter does not exceed the
    threshold. *)
Lemma followRecord_kept (obs : list (float * float)) : forall info,
  Forall (fun o => inBand o.1 o.2) obs ->
  outMidAreaCount info + Z.of_nat (length obs) <= USELESS_THRESHOLD ->
  followRecord obs info =
    Some (set_count info (outMidAreaCount info + Z.of_nat (length obs))).
Proof.
  unfold USELESS_THRESHOLD.
  induction obs as [|[v0 v1] obs IH]; intros info Hall Hle.
  - cbn [followRecord length]. rewrite Z.add_0_r. now destruct info.
  - apply Forall_cons in Hall as [[Hin0 Hin1] Hall]. cbn [fst snd] in *.
    cbn [followRecord]. unfold despawnDecision.
    rewrite (below_zero_not_outside _ Hin0), (nonneg_beyond_mid _ Hin1).
    rewrite set_count_count. unfold USELESS_THRESHOLD.
    cbn [length] in Hle |- *.
    destruct (Z.ltb_spec 5 (outMidAreaCount info + 1)); [lia|].
    rewrite (IH _ Hall), set_count_count, set_count_twice by (rewrite set_count_count; lia).
    do 2 f_equal. lia.
Qed.

(** It is deleted by the evaluation that takes the counter beyond the
    threshold. *)
Lemma followRecord_dropped (obs : list (float * float)) : forall info,
  Forall (fun o => inBand o.1 o.2) obs ->
  obs <> [] ->
  USELESS_THRESHOLD < outMidAreaCount info + Z.of_nat (length obs) ->
  followRecord obs info = None.
Proof.
  unfold USELESS_THRESHOLD.
  induction obs as [|[v0 v1] obs IH]; intros info Hall Hne Hgt; [congruence|].
  apply Forall_cons in Hall as [[Hin0 Hin1] Hall]. cbn [fst snd] in *.
  cbn [followRecord]. unfold despawnDecision.
  rewrite (below_zero_not_outside _ Hin0), (nonneg_beyond_mid _ Hin1).
  rewrite set_count_count. unfold USELESS_THRESHOLD.
  destruct (Z.ltb_spec 5 (outMidAreaCount info + 1)); [reflexivity|].
  apply IH; [exact Hall| |].
  - intros ->. cbn [length] in Hgt. lia.
  - rewrite set_count_count. cbn [length] in Hgt. lia.
Qed.

(** C1 (amended).  A record whose vehicle lies beyond the outer ellipse by
    more than the tolerance (outer value above 0.001) is removed by that
    evaluation whatever its counter: despawn returns, the record is gone from
    the list, the vehicle is gone from the repository and the count of
    removals is at least one.  A vehicle exactly on the outer boundary (outer
    value between 0 and 0.001) is not removed on that ground: lying at or
    outside the mid ellipse, it has its counter raised and is removed only
    when the counter exceeds the threshold. *)
Theorem despawn_beyond_outer_removed st (simTime : float) info vehicle :
  lifecycleOk st -> info ∈ spawnedV st ->
  entities_ st !! vehicleID info = Some vehicle ->
  exists st' n,
    despawn simTime st = Some (st', n) /\
    ((0.001 <? outerValue st vehicle)%float = true ->
       1 <= n /\
       (vehicleID info ∉ (vehicleID <$> spawnedV st')) /\
       entities_ st' !! vehicleID info = None) /\
    ((0 <=? outerValue st vehicle)%float = true ->
     (outerValue st vehicle <=? 0.001)%float = true ->
     (0 <=? midValue st vehicle)%float = true ->
       if outMidAreaCount info + 1 <=? USELESS_THRESHOLD
       then set_count info (outMidAreaCount info + 1) ∈ spawnedV st'
       else vehicleID info ∉ (vehicleID <$> spawnedV st')).
Proof.
  intros Hok Hin Hv.
  destruct (despawn_record st simTime info vehicle Hok Hin Hv)
    as (st' & n & Hrun & Hn & Hfate).
  exists st', n. split; [exact Hrun|]. unfold despawnDecision in Hfate. split.
  - intros Hout. rewrite Hout in Hfate. tauto.
  - intros _ Hle Hmid. rewrite (within_not_beyond _ _ Hle) in Hfate.
    rewrite (nonneg_beyond_mid _ Hmid), set_count_count in Hfate.
    destruct (Z.leb_spec (outMidAreaCount info + 1) USELESS_THRESHOLD) as [Hc|Hc].
    + apply Z.ltb_ge in Hc. rewrite Hc in Hfate. tauto.
    + apply Z.ltb_lt in Hc. rewrite Hc in Hfate. tauto.
Qed.

(** C2.  The fate of a record in one evaluation is the one [followRecord]
    gives for the vehicle's pair of ellipse values.  For a vehicle inside the
    outer ellipse and at or outside the mid ellipse the counter is raised by
    one, the record stays while the raised counter is at most 5 and is
    removed once it exceeds 5; so over consecutive such evaluations a record
    that starts at 0 survives five of them and is removed by the sixth.  For
    a vehicle inside the mid ellipse (and not beyond the outer one, within
    which the mid ellipse lies) the counter is reset to 0. *)
Theorem despawn_hysteresis st (simTime : float) info vehicle :
  lifecycleOk st -> info ∈ spawnedV st ->
  entities_ st !! vehicleID info = Some vehicle ->
  exists st' n,
    despawn simTime st = Some (st', n) /\
    match followRecord [(outerValue st vehicle, midValue st vehicle)] info with
    | Some info' => info' ∈ spawnedV st'
    | None => vehicleID info ∉ (vehicleID <$> spawnedV st')
    end /\
    (inBand (outerValue st vehicle) (midValue st vehicle) ->
       if outMidAreaCount info + 1 <=? USELESS_THRESHOLD
       then set_count info (outMidAreaCount info + 1) ∈ spawnedV st'
       else vehicleID info ∉ (vehicleID <$> spawnedV st')) /\
    ((0.001 <? outerValue st vehicle)%float = false ->
     (midValue st vehicle <? 0)%float = true ->
       set_count info 0 ∈ spawnedV st') /\
    (forall obs, Forall (fun o => inBand o.1 o.2) obs ->
       (outMidAreaCount info + Z.of_nat (length obs) <= USELESS_THRESHOLD ->
          followRecord obs info =
            Some (set_count info (outMidAreaCount info + Z.of_nat (length obs)))) /\
       (obs <> [] ->
        USELESS_THRESHOLD < outMidAreaCount info + Z.of_nat (length obs) ->
          followRecord obs info = None)).
Proof.
  intros Hok Hin Hv.
  destruct (despawn_record st simTime info vehicle Hok Hin Hv)
    as (st' & n & Hrun & Hn & Hfate).
  exists st', n. split; [exact Hrun|].
  cbn [followRecord].
  split; [|split; [|split]].
  - destruct (despawnDecision _ _ info) as [[] info']; tauto.
  - intros [Hin0 Hin1]. unfold despawnDecision in Hfate.
    rewrite (below_zero_not_outside _ Hin0), (nonneg_beyond_mid _ Hin1) in Hfate.
    rewrite set_count_count in Hfate.
    destruct (Z.leb_spec (outMidAreaCount info + 1) USELESS_THRESHOLD) as [Hc|Hc].
    + apply Z.ltb_ge in Hc. rewrite Hc in Hfate. tauto.
    + apply Z.ltb_lt in Hc. rewrite Hc in Hfate. tauto.
  - intros Hout Hmid. unfold despawnDecision in Hfate.
    rewrite Hout, (below_zero_within_mid _ Hmid) in Hfate. tauto.
  - intros obs Hobs. split.
    + now apply followRecord_kept.
    + now apply followRecord_dropped.
Qed.

End DespawnFacts.

(** C1, counterexample: the vehicle is on the outer boundary (its outer
    value is 0) and despawn removes nothing. *)
Lemma despawn_keeps_vehicle_on_outer_boundary :
  outerValue boundaryState (car 7 90 0) = 0%float /\
  (0 <=? outerValue boundaryState (car 7 90 0))%float = true /\
  option_map (fun r => (spawnedV r.1, r.2)) (despawn 0 boundaryState)
    = Some ([mkSpawnInfo 7 1 0 (-1) 0], 0).
Proof. vm_compute. repeat split; reflexivity. Qed.

Lemma flat_lifecycleOk (n : Z) (t : float) (r : SpawnInfo) (o : Object) :
  name_ o = Some (vehicleID r) ->
  lifecycleOk (flatState n t [r] {[ vehicleID r := o ]}).
Proof.
  intros Hname. split.
  - cbn. apply NoDup_singleton.
  - intros info Hin. apply list_elem_of_singleton in Hin as ->.
    exists o. split; [apply lookup_singleton_eq|exact Hname].
Qed.

Lemma despawn_beyond_outer_removed_witness :
  exists st' n,
    despawn 0 (flatState 3 0 [mkSpawnInfo 7 3 0 (-1) 0] {[ 7 := car 7 95 0 ]})
      = Some (st', n) /\
    1 <= n /\ (7 ∉ (vehicleID <$> spawnedV st')) /\ entities_ st' !! 7 = None.
Proof.
  destruct (despawn_beyond_outer_removed
              (flatState 3 0 [mkSpawnInfo 7 3 0 (-1) 0] {[ 7 := car 7 95 0 ]})
              0 (mkSpawnInfo 7 3 0 (-1) 0) (car 7 95 0))
    as (st' & n & Hrun & Hout & _).
  - now apply (flat_lifecycleOk 3 0 (mkSpawnInfo 7 3 0 (-1) 0)).
  - apply list_elem_of_here.
  - apply lookup_singleton_eq.
  - exists st', n. split; [exact Hrun|]. apply Hout. vm_compute. reflexivity.
Defined.

Lemma despawn_hysteresis_witness :
  exists st' n,
    despawn 0 (flatState 3 0 [mkSpawnInfo 7 2 0 (-1) 0] {[ 7 := car 7 85 0 ]})
      = Some (st', n) /\
    mkSpawnInfo 7 3 0 (-1) 0 ∈ spawnedV st'.
Proof.
  destruct (despawn_hysteresis
              (flatState 3 0 [mkSpawnInfo 7 2 0 (-1) 0] {[ 7 := car 7 85 0 ]})
              0 (mkSpawnInfo 7 2 0 (-1) 0) (car 7 85 0))
    as (st' & n & Hrun & _ & Hband & _).
  - now apply (flat_lifecycleOk 3 0 (mkSpawnInfo 7 2 0 (-1) 0)).
  - apply list_elem_of_here.
  - apply lookup_singleton_eq.
  - exists st', n. split; [exact Hrun|]. apply Hband. split; vm_compute; reflexivity.
Defined.

(** ** Step *)

Section StepFacts.
Context `{RM : RoadManager} `{SG : SwarmGeometry}.

Lemma with_lastTime_lastTime (st : SwarmTrafficAction) (t : float) :
  lastTime (with_lastTime st t) = t.
Proof. reflexivity. Qed.

Lemma Start_lastTime (fuel : nat) (st0 st1 : SwarmTrafficAction) :
  Start fuel st0 = Some st1 -> lastTime st1 = (-1)%float.
Proof.
  unfold Start.
  destruct (paramEllipse 0 0 0 _ _ 0) as [x0 y0].
  destruct (paramEllipse (M_PI / 36) 0 0 _ _ 0) as [x1 y1].
  destruct (createRoadSegments fuel _) as [vec|]; [|discriminate].
  cbn [mbind option_bind]. intros [= <-]. reflexivity.
Qed.

(** C5, failing input: any call whose simulation time is less than one
    second away from the time of the last evaluation, such as a call at 0.5
    after an evaluation at 0.  The guard converts the difference of the two
    times to an [int] before taking its absolute value, so the difference is
    truncated: below one second it counts as 0, which is not greater than
    0.1, and Step returns the state as it is, although the time has advanced
    by 0.1 or more. *)
Theorem step_throttle (fuel : nat) (dt simTime : float) (g : Gen)
    (st : SwarmTrafficAction) :
  (lastTime st <? 0)%float = false ->
  (abs (simTime - lastTime st) <? 1)%float = true ->
  stepDue simTime st = false /\
  Step fuel dt simTime g st = Some (st, g).
Proof.
  intros Hlast Hnear.
  assert (Hdue : stepDue simTime st = false).
  { unfold stepDue. rewrite Hlast. now apply below_one_not_due. }
  split; [exact Hdue|]. unfold Step. now rewrite Hdue.
Qed.

End StepFacts.

Lemma step_throttle_witness :
  (TIME_INTERVAL <=? 0.5 - lastTime idleState)%float = true /\
  Step (RM := flatRoads) 100 0.5 0.5 [] idleState = Some (idleState, []) /\
  option_map (fun r => lastTime r.1)
    (evaluation (RM := flatRoads) 100 0.5 [] idleState) = Some 0.5%float.
Proof.
  split; [reflexivity|]. split; [|vm_compute; reflexivity].
  apply (step_throttle (RM := flatRoads) 100 0.5 0.5 [] idleState); reflexivity.
Defined.

(** ** createVehicle *)

Section VehicleFacts.
Context `{RM : RoadManager} `{SG : SwarmGeometry}.

Lemma createVehicle_pose (p : Position) (off laneId : Z) (speed : float)
    (ctrl : option Z) (path : string) :
  let v := createVehicle p off laneId speed ctrl path in
  GetH (pos_ v) = (GetH p + double_of_char off * M_PI)%float /\
  GetLaneId (pos_ v) = laneId /\
  (GetTrackId (pos_ v), GetS (pos_ v)) =
    track_of (GetX p) (GetY p) 0%float (GetH p + double_of_char off * M_PI)%float.
Proof.
  unfold createVehicle, SetInertiaPos, XYZH2TrackPos, SetLanePos.
  destruct (track_of _ _ _ _) as [rid s]. cbn. auto.
Qed.

(** C6 (amended).  The vehicle spawn creates for a lane has the heading of
    the position offset by pi exactly when the lane id is not negative; for a
    negative lane id the offset is zero, which leaves the heading of the
    position as it is. *)
Theorem spawn_vehicle_heading (p : Position) (laneID : Z) (speed : float)
    (ctrl : option Z) (path : string) :
  GetH (pos_ (createVehicle p (if laneID <? 0 then 0 else 1) laneID speed ctrl path))
    = (if laneID <? 0 then (GetH p + 0)%float else (GetH p + M_PI)%float) /\
  (laneID < 0 -> is_nan (GetH p) = false ->
     (GetH (pos_ (createVehicle p (if (laneID <? 0)%Z then 0%Z else 1%Z)
                    laneID speed ctrl path))
        =? GetH p)%float = true) /\
  (forall inf simTime st laneIdx st',
     GetDrivingLaneByIdx (road inf) (GetS (pos inf)) laneIdx = Some laneID ->
     spawnLane inf simTime st laneIdx = Some st' ->
     st' = st \/
     exists id,
       spawnedV st' =
         spawnedV st ++ [mkSpawnInfo id 0 (GetTrackId (pos inf)) laneID simTime] /\
       entities_ st' !! id =
         Some (set_name (createVehicle (pos inf) (if laneID <? 0 then 0 else 1)
                           laneID (velocity_ st) None "car_red.osgb") id)).
Proof.
  split; [|split].
  - destruct (createVehicle_pose p (if laneID <? 0 then 0 else 1) laneID speed ctrl path)
      as [-> _].
    destruct (laneID <? 0); reflexivity.
  - intros Hneg Hnan.
    destruct (createVehicle_pose p (if laneID <? 0 then 0 else 1) laneID speed ctrl path)
      as [-> _].
    apply Z.ltb_lt in Hneg. rewrite Hneg.
    change (double_of_char 0 * M_PI)%float with 0%float.
    now apply add_zero_same.
  - intros inf simTime st laneIdx st' Hlane. unfold spawnLane. rewrite Hlane.
    destruct (ensureDistance st (pos inf) laneID) as [[]|]; cbn;
      [|intros [= <-]; now left|discriminate].
    intros [= <-]. right. exists (fresh (dom (entities_ st))).
    split; [reflexivity|]. cbn. apply lookup_insert_eq.
Qed.

End VehicleFacts.

(** C6, counterexample: on the lane with id -1 the vehicle keeps the heading
    0 of the position, while on the lane with id 1 it gets the heading pi. *)
Lemma negative_lane_keeps_heading :
  GetH (pos_ (createVehicle (RM := flatRoads) (mkPosition 20 0 0 0 0 20 0)
                (if -1 <? 0 then 0 else 1) (-1) 10 None "car_red.osgb")) = 0%float /\
  GetH (pos_ (createVehicle (RM := flatRoads) (mkPosition 20 0 0 0 0 20 0)
                (if 1 <? 0 then 0 else 1) 1 10 None "car_red.osgb")) = M_PI /\
  option_map (fun st' =>
      (fun kv => (GetLaneId (pos_ kv.2), GetH (pos_ kv.2))) <$> map_to_list (entities_ st'))
    (spawnLane (RM := flatRoads)
       (mkSelectInfo (mkPosition 20 0 0 0 0 20 0) 0 1) 0 idleState 0)
    = Some [(-1, 0%float)].
Proof. vm_compute. repeat split; reflexivity. Qed.

Lemma spawn_vehicle_heading_witness :
  (GetH (pos_ (createVehicle (RM := flatRoads) (mkPosition 20 0 0 0 0 20 0)
                 (if (-1 <? 0)%Z then 0%Z else 1%Z) (-1)%Z 10 None "car_red.osgb"))
     =? 0)%float = true.
Proof.
  apply (spawn_vehicle_heading (RM := flatRoads) (SG := flatGeometry)
           (mkPosition 20 0 0 0 0 20 0) (-1) 10 None "car_red.osgb").
  - lia.
  - reflexivity.
Defined.

(** ** sampleRoads *)

Lemma to_int_size_t (z : Z) : is_int z -> to_int (to_size_t z) = z.
Proof.
  unfold is_int, to_int, to_size_t. intros Hz.
  destruct (Z.neg_nonneg_cases z) as [Hneg|Hpos].
  - replace (z mod 18446744073709551616) with (z + 18446744073709551616).
    + replace (z + 18446744073709551616 + 2147483648)
        with (z + 2147483648 + 4294967296 * 4294967296) by lia.
      rewrite Z_mod_plus_full. rewrite Z.mod_small; lia.
    + apply (Z.mod_unique z 18446744073709551616 (-1)); lia.
  - rewrite (Z.mod_small z) by lia. rewrite Z.mod_small; lia.
Qed.

Lemma to_size_t_nonneg (z : Z) : 0 <= z -> is_int z -> to_size_t z = z.
Proof. unfold is_int, to_size_t. intros. apply Z.mod_small. lia. Qed.

Lemma uniform_int_distribution_range (lo hi : Z) (g : Gen) :
  lo <= hi -> lo <= (uniform_int_distribution lo hi g).1 <= hi.
Proof.
  intros Hle. unfold uniform_int_distribution.
  destruct (next g) as [v g']. cbn.
  pose proof (Z.mod_pos_bound v (hi - lo + 1)). lia.
Qed.

Lemma uniform_int_distribution_reaches (lo hi k : Z) :
  lo <= k <= hi -> (uniform_int_distribution lo hi [k - lo]).1 = k.
Proof.
  intros Hk. unfold uniform_int_distribution. cbn.
  rewrite Z.mod_small by lia. lia.
Qed.

Section SampleFacts.
Context `{RM : RoadManager} `{SG : SwarmGeometry}.

(** The loop of the second branch, entered with a positive pool, hands the
    lanes out as the best-effort distribution describes and keeps the pool
    positive. *)
Lemma distributeLanes_bestEffort (sols : Solutions) : forall pool g,
  (forall rid s, 0 <= GetNumberOfDrivingLanes rid s) ->
  0 < pool ->
  bestEffort pool sols (distributeLanes pool sols g).1.1
    (distributeLanes pool sols g).1.2 /\
  0 < (distributeLanes pool sols g).1.2.
Proof.
  induction sols as [|pt sols IH]; intros pool g Hlanes Hpool.
  - cbn. split; [constructor|exact Hpool].
  - cbn [distributeLanes].
    set (p := XYZH2TrackPos (p_x pt) (p_y pt) 0%float (p_h pt)).
    destruct (Z.eqb_spec (GetNumberOfDrivingLanes (GetTrackId p) (GetS p)) 0) as [Hz|Hnz].
    + destruct (IH (pool + 1) g Hlanes) as [Hbe Hpos]; [lia|].
      split; [|exact Hpos]. now apply bestEffort_skip.
    + apply Z.ltb_lt in Hpool as Hpoolb. rewrite Hpoolb.
      pose proof (Hlanes (GetTrackId p) (GetS p)) as Hn.
      pose proof (uniform_int_distribution_range 0
        (Z.min pool (GetNumberOfDrivingLanes (GetTrackId p) (GetS p))) g) as Hd.
      destruct (uniform_int_distribution 0 _ g) as [d g'] eqn:Hdraw.
      cbn [fst] in Hd. specialize (Hd ltac:(lia)).
      set (extra := if d =? 0 then 0 else d - 1).
      assert (Hextra : 0 <= extra
                         <= Z.min pool (GetNumberOfDrivingLanes (GetTrackId p) (GetS p)) - 1
                       /\ extra < pool).
      { unfold extra. destruct (Z.eqb_spec d 0); lia. }
      destruct (IH (pool - extra) g' Hlanes) as [Hbe Hpos]; [lia|].
      destruct (distributeLanes (pool - extra) sols g') as [[info left_] g''] eqn:Hrec.
      cbn [fst snd] in *. split; [|exact Hpos].
      apply bestEffort_take; [|exact Hbe].
      fold p. cbv zeta. split; [exact Hnz|lia].
Qed.

Lemma bestEffort_at_least_one (pool : Z) (sols : Solutions)
    (info : list SelectInfo) (pool' : Z) :
  bestEffort pool sols info pool' -> Forall (fun s => 1 <= nLanes s) info.
Proof.
  induction 1 as [| |pool pt sols info pool' extra Hextra _ IH]; auto.
  constructor; [|exact IH]. cbv zeta in Hextra. cbn. lia.
Qed.

(** With more cars to spawn than solution points, sampleRoads runs the loop
    of its second branch on the unmet quota. *)
Lemma sampleRoads_second_branch (minN maxN : Z) (sols : Solutions)
    (info0 : list SelectInfo) (g : Gen) :
  is_int minN -> is_int maxN -> minN <= maxN ->
  Z.of_nat (length sols) < (nCarsToSpawn minN maxN g).1 ->
  (sampleRoads minN maxN sols info0 g).1 =
    (distributeLanes ((nCarsToSpawn minN maxN g).1 - Z.of_nat (length sols)) sols
       (nCarsToSpawn minN maxN g).2).1.1.
Proof.
  intros Hmin Hmax Hle Hfew.
  pose proof (uniform_int_distribution_range minN maxN g Hle) as Hn.
  unfold sampleRoads, nCarsToSpawn in *.
  destruct (Z.ltb_spec maxN minN); [lia|].
  destruct (uniform_int_distribution minN maxN g) as [n g1]. cbn [fst snd] in *.
  assert (Hint : is_int n) by (unfold is_int in *; lia).
  rewrite to_size_t_nonneg by (auto; lia).
  destruct (Z.leb_spec n (Z.of_nat (length sols))); [lia|]. cbn [andb].
  rewrite to_int_size_t by (unfold is_int in *; lia).
  destruct (distributeLanes _ sols g1) as [[info left_] g2]. reflexivity.
Qed.

(** Every best-effort distribution of a positive pool is one the loop
    produces: the draws that lead to it are read off the extra counts. *)
Lemma bestEffort_reached (pool : Z) (sols : Solutions)
    (info : list SelectInfo) (pool' : Z) :
  bestEffort pool sols info pool' -> 0 < pool ->
  exists g, (distributeLanes pool sols g).1 = (info, pool').
Proof.
  induction 1 as [pool|pool pt sols info pool' Hzero _ IH
                 |pool pt sols info pool' extra Hextra _ IH]; intros Hpool.
  - exists []. reflexivity.
  - destruct IH as [g Hg]; [lia|]. exists g. cbn [distributeLanes].
    cbv zeta in Hzero. rewrite Hzero. exact Hg.
  - cbv zeta in Hextra. destruct Hextra as [Hnz Hextra].
    destruct IH as [g Hg]; [lia|].
    exists ((if extra =? 0 then 0 else extra + 1) :: g). cbn [distributeLanes].
    set (p := XYZH2TrackPos (p_x pt) (p_y pt) 0%float (p_h pt)) in *.
    destruct (Z.eqb_spec (GetNumberOfDrivingLanes (GetTrackId p) (GetS p)) 0);
      [contradiction|].
    destruct (Z.ltb_spec 0 pool); [|lia].
    unfold uniform_int_distribution. cbn [next].
    set (d := if extra =? 0 then 0 else extra + 1).
    assert (Hd : 0 <= d <= Z.min pool (GetNumberOfDrivingLanes (GetTrackId p) (GetS p)))
      by (unfold d; destruct (Z.eqb_spec extra 0); lia).
    rewrite Z.sub_0_r, Z.add_0_l, Z.mod_small by lia.
    replace (if d =? 0 then 0 else d - 1) with extra
      by (unfold d; destruct (Z.eqb_spec extra 0) as [->|];
          [reflexivity|destruct (Z.eqb_spec (extra + 1) 0); lia]).
    destruct (distributeLanes (pool - extra) sols g) as [[info1 pool1] g1].
    cbn [fst] in *. now injection Hg as -> ->.
Qed.

(** C9 (amended).  When the number of cars to spawn exceeds the number of
    solution points, the selections sampleRoads returns are a best-effort
    distribution of the unmet quota over all the solution points: each point
    with driving lanes gets one lane plus an extra count, taken from the
    pool, between 0 and one less than the smaller of the pool and the lanes
    available, and each point without driving lanes gets nothing and adds
    one to the pool.  Conversely every such distribution is returned for
    some draws, so the range of the extra count is exactly this one. *)
Theorem sampleRoads_fewer_points (minN maxN : Z) (sols : Solutions)
    (info0 : list SelectInfo) :
  (forall rid s, 0 <= GetNumberOfDrivingLanes rid s) ->
  is_int minN -> is_int maxN -> minN <= maxN ->
  (forall g,
     Z.of_nat (length sols) < (nCarsToSpawn minN maxN g).1 ->
     exists pool',
       bestEffort ((nCarsToSpawn minN maxN g).1 - Z.of_nat (length sols)) sols
         (sampleRoads minN maxN sols info0 g).1 pool' /\
       0 < pool' /\
       Forall (fun s => 1 <= nLanes s) (sampleRoads minN maxN sols info0 g).1) /\
  (forall n info pool',
     minN <= n <= maxN -> Z.of_nat (length sols) < n ->
     bestEffort (n - Z.of_nat (length sols)) sols info pool' ->
     exists g,
       (nCarsToSpawn minN maxN g).1 = n /\
       (sampleRoads minN maxN sols info0 g).1 = info).
Proof.
  intros Hlanes Hmin Hmax Hle. split.
  - intros g Hfew.
    rewrite (sampleRoads_second_branch minN maxN sols info0 g Hmin Hmax Hle Hfew).
    destruct (distributeLanes_bestEffort sols
                ((nCarsToSpawn minN maxN g).1 - Z.of_nat (length sols))
                (nCarsToSpawn minN maxN g).2 Hlanes) as [Hbe Hpos]; [lia|].
    eexists. split; [exact Hbe|]. split; [exact Hpos|].
    exact (bestEffort_at_least_one _ _ _ _ Hbe).
  - intros n info pool' Hn Hfew Hbe.
    destruct (bestEffort_reached _ _ _ _ Hbe) as [g Hg]; [lia|].
    assert (Hdraw : nCarsToSpawn minN maxN ((n - minN) :: g) = (n, g)).
    { unfold nCarsToSpawn, uniform_int_distribution. cbn [next].
      rewrite Z.mod_small by lia. f_equal. lia. }
    exists ((n - minN) :: g). split; [now rewrite Hdraw|].
    rewrite (sampleRoads_second_branch minN maxN sols info0 _ Hmin Hmax Hle);
      rewrite Hdraw; cbn [fst snd]; [|exact Hfew].
    now rewrite Hg.
Qed.

End SampleFacts.

Lemma sampleRoads_fewer_points_witness :
  exists g,
    (nCarsToSpawn 5 5 g).1 = 5 /\
    nLanes <$> (sampleRoads (RM := flatRoads) 5 5
                  [mkPoint 20 0 0; mkPoint 20 200 0] [] g).1 = [2].
Proof.
  destruct (sampleRoads_fewer_points (RM := flatRoads) 5 5
              [mkPoint 20 0 0; mkPoint 20 200 0] []) as [_ Hreach].
  - intros rid s. cbn. destruct (_ || _); lia.
  - unfold is_int. lia.
  - unfold is_int. lia.
  - lia.
  - destruct (Hreach 5
        [mkSelectInfo (@XYZH2TrackPos flatRoads 20 0 0 0) 0 2] 3)
      as (g & Hdraw & Hrun).
    + lia.
    + cbn. lia.
    + apply (bestEffort_take (RM := flatRoads) 3 (mkPoint 20 0 0)
               [mkPoint 20 200 0] [] 3 1).
      * cbn. split; [discriminate|lia].
      * apply (bestEffort_skip (RM := flatRoads) 2 (mkPoint 20 200 0) [] [] 3).
        -- reflexivity.
        -- apply (bestEffort_nil (RM := flatRoads) 3).
    + exists g. split; [exact Hdraw|]. now rewrite Hrun.
Defined.

(** C9, counterexample: one solution point on a road with two driving lanes
    and a count of 3 cars, so that the pool is 2 and the smaller of the pool
    and the lanes available is 2.  The draw takes the values 0, 1 and 2 and
    the point gets 1, 1 and 2 lanes: the extra count is 0, 0 and 1 and never
    reaches 2. *)
Lemma extra_lanes_stop_short :
  (nCarsToSpawn 3 3 [0]).1 - 1 = 2 /\
  GetNumberOfDrivingLanes (RoadManager := flatRoads) 0 20 = 2 /\
  (fun v => nLanes <$> (sampleRoads (RM := flatRoads) 3 3 [mkPoint 20 0 0] [] [0; v]).1)
    <$> [0; 1; 2] = [[1]; [1]; [2]].
Proof. vm_compute. repeat split; reflexivity. Qed.

(** ** spawn *)

Section SpawnFacts.
Context `{RM : RoadManager} `{SG : SwarmGeometry}.
Implicit Types (st : SwarmTrafficAction) (e : gmap Z Object)
  (l : list SpawnInfo) (info : SpawnInfo).

Lemma XYZH2TrackPos_resolved (x3 y3 h3 : float) :
  resolved (XYZH2TrackPos x3 y3 0%float h3).
Proof.
  unfold resolved, XYZH2TrackPos. destruct (track_of x3 y3 0%float h3) eqn:E.
  cbn. now rewrite E.
Qed.

Lemma distributeLanes_resolved (sols : Solutions) : forall pool g,
  Forall (fun inf => resolved (pos inf)) (distributeLanes pool sols g).1.1.
Proof.
  induction sols as [|pt sols IH]; intros pool g; [constructor|].
  cbn [distributeLanes].
  destruct (_ =? 0); [apply IH|].
  destruct (if 0 <? pool then _ else _) as [lanesN g'].
  specialize (IH (pool - lanesN) g').
  destruct (distributeLanes (pool - lanesN) sols g') as [[info left_] g''].
  cbn in *. constructor; [apply XYZH2TrackPos_resolved|exact IH].
Qed.

Lemma sampleRoads_resolved (minN maxN : Z) (sols : Solutions) (g : Gen) :
  Forall (fun inf => resolved (pos inf)) (sampleRoads minN maxN sols [] g).1.
Proof.
  unfold sampleRoads. destruct (maxN <? minN); [constructor|].
  destruct (nCarsToSpawn minN maxN g) as [n g1].
  destruct (_ && _).
  - destruct (random_shuffle sols g1) as [sols' g2].
    destruct (sample sols' (Z.to_nat n) g2) as [selected g3]. cbn.
    apply Forall_forall. intros inf Hinf.
    apply list_elem_of_omap in Hinf as (pt & _ & Hsel).
    unfold selectOne in Hsel. destruct (_ =? 0); [discriminate|].
    injection Hsel as <-. apply XYZH2TrackPos_resolved.
  - pose proof (distributeLanes_resolved sols
        (to_int (to_size_t (n - Z.of_nat (length sols)))) g1) as Hres.
    destruct (distributeLanes _ sols g1) as [[info left_] g2]. exact Hres.
Qed.

(** The scan over the records returns when every record has its vehicle; it
    answers [true] exactly when the test fails for every record on the road
    and lane of the candidate. *)
Lemma ensureDistanceLoop_spec e (p : Position) (laneId : Z) l :
  (forall info, info ∈ l -> is_Some (e !! vehicleID info)) ->
  exists ok,
    ensureDistanceLoop e p laneId l = Some ok /\
    (ok = true <->
       forall info vehicle, info ∈ l ->
         lane info = laneId -> roadID info = GetTrackId p ->
         e !! vehicleID info = Some vehicle ->
         tooClose (GetS (pos_ vehicle)) (GetS p) = false).
Proof.
  induction l as [|info l IH]; intros Halive.
  - exists true. split; [reflexivity|]. split; [|reflexivity].
    intros _ info vehicle Hin. inversion Hin.
  - destruct IH as (ok & Hrun & Hok).
    { intros a Ha. apply Halive. now apply list_elem_of_further. }
    destruct (Halive info) as [v Hv]; [apply list_elem_of_here|].
    cbn [ensureDistanceLoop]. unfold GetObjectById.
    destruct ((lane info =? laneId) && (roadID info =? GetTrackId p)) eqn:Hsame.
    + rewrite Hv. cbn [mbind option_bind].
      apply andb_true_iff in Hsame as [Hl Hr].
      apply Z.eqb_eq in Hl, Hr.
      destruct (abs_of_double (GetS (pos_ v) - GetS p) <=? VHEICLE_DISTANCE)%float eqn:Hclose.
      * exists false. split; [reflexivity|]. split; [discriminate|].
        intros Hall. specialize (Hall info v (list_elem_of_here _ _) Hl Hr Hv).
        unfold tooClose in Hall. congruence.
      * exists ok. split; [exact Hrun|]. rewrite Hok. split.
        -- intros Hall a va Ha. apply elem_of_cons in Ha as [->|Ha].
           ++ intros _ _ Hva. rewrite Hv in Hva. injection Hva as <-. exact Hclose.
           ++ now apply Hall.
        -- intros Hall a va Ha. apply Hall. now apply list_elem_of_further.
    + exists ok. split; [exact Hrun|]. rewrite Hok. split.
      * intros Hall a va Ha. apply elem_of_cons in Ha as [->|Ha].
        -- intros Hl Hr. apply Z.eqb_eq in Hl, Hr. rewrite Hl, Hr in Hsame. discriminate.
        -- now apply Hall.
      * intros Hall a va Ha. apply Hall. now apply list_elem_of_further.
Qed.

Lemma createVehicle_at_candidate (p : Position) (off laneId : Z) (speed : float)
    (ctrl : option Z) (path : string) :
  (forall x3 y3 z3 h3 h3', track_of x3 y3 z3 h3 = track_of x3 y3 z3 h3') ->
  resolved p ->
  GetS (pos_ (createVehicle p off laneId speed ctrl path)) = GetS p.
Proof.
  intros Hhdg Hres.
  destruct (createVehicle_pose p off laneId speed ctrl path) as (_ & _ & Htrack).
  rewrite (Hhdg _ _ _ _ (GetH p)), <- Hres in Htrack. now injection Htrack.
Qed.

Lemma spacingOk_snoc e l (r : SpawnInfo) :
  spacingOk e l ->
  (forall r1 v1 v2, r1 ∈ l -> lane r1 = lane r -> roadID r1 = roadID r ->
     e !! vehicleID r1 = Some v1 -> e !! vehicleID r = Some v2 ->
     farApart (GetS (pos_ v1)) (GetS (pos_ v2))) ->
  spacingOk e (l ++ [r]).
Proof.
  intros Hold Hnew i j r1 r2 v1 v2 Hij H1 H2 Hlane Hroad Hv1 Hv2.
  apply lookup_snoc_Some in H2 as [[Hj H2]|[-> <-]].
  - rewrite lookup_app_l in H1 by lia.
    exact (Hold i j r1 r2 v1 v2 Hij H1 H2 Hlane Hroad Hv1 Hv2).
  - rewrite lookup_app_l in H1 by lia.
    apply (Hnew r1 v1 v2); auto. exact (list_elem_of_lookup_2 _ _ _ H1).
Qed.

Lemma spacingOk_agree e e' l :
  (forall info, info ∈ l -> e' !! vehicleID info = e !! vehicleID info) ->
  spacingOk e l -> spacingOk e' l.
Proof.
  intros Hsame Hold i j r1 r2 v1 v2 Hij H1 H2 Hlane Hroad Hv1 Hv2.
  rewrite Hsame in Hv1 by exact (list_elem_of_lookup_2 _ _ _ H1).
  rewrite Hsame in Hv2 by exact (list_elem_of_lookup_2 _ _ _ H2).
  exact (Hold i j r1 r2 v1 v2 Hij H1 H2 Hlane Hroad Hv1 Hv2).
Qed.

(** One lane index: the call returns and the invariant is kept, whether the
    candidate is skipped, rejected or committed. *)
Lemma spawnLane_keeps (inf : SelectInfo) (simTime : float) st (laneIdx : Z) :
  (forall x3 y3 z3 h3 h3', track_of x3 y3 z3 h3 = track_of x3 y3 z3 h3') ->
  resolved (pos inf) ->
  spawnInv st ->
  exists st', spawnLane inf simTime st laneIdx = Some st' /\ spawnInv st'.
Proof.
  intros Hhdg Hres [Halive Hspace]. unfold spawnLane.
  destruct (GetDrivingLaneByIdx _ _ laneIdx) as [laneID|]; [|exists st; now split].
  destruct (ensureDistanceLoop_spec (entities_ st) (pos inf) laneID (spawnedV st))
    as (ok & Hrun & Hok).
  { intros info Hin. destruct (Halive info Hin) as (v & Hv & _). now exists v. }
  unfold ensureDistance. rewrite Hrun. cbn [mbind option_bind].
  destruct ok; cbn [negb]; [|exists st; now split].
  destruct Hok as [Hfar _]. specialize (Hfar eq_refl).
  set (vehicle := createVehicle (pos inf) (if laneID <? 0 then 0 else 1) laneID
                    (velocity_ st) None "car_red.osgb").
  unfold addObject. set (id := fresh (dom (entities_ st))).
  assert (Hid : entities_ st !! id = None).
  { apply not_elem_of_dom. apply is_fresh. }
  assert (Hold : forall info, info ∈ spawnedV st ->
            <[id := set_name vehicle id]> (<[id := vehicle]> (entities_ st))
              !! vehicleID info = entities_ st !! vehicleID info).
  { intros info Hin. destruct (Halive info Hin) as (v & Hv & _).
    rewrite !lookup_insert_ne; [reflexivity| |]; intros Heq; rewrite <- Heq in Hv; congruence. }
  eexists. split; [reflexivity|]. split; cbn [spawnedV entities_ with_lifecycle].
  - intros info Hin. apply elem_of_app in Hin as [Hin|Hin].
    + rewrite (Hold info Hin). now apply Halive.
    + apply list_elem_of_singleton in Hin as ->. cbn [vehicleID].
      exists (set_name vehicle id). split; [apply lookup_insert_eq|reflexivity].
  - apply spacingOk_snoc.
    + now apply (spacingOk_agree (entities_ st)).
    + cbn [vehicleID lane roadID]. intros r1 v1 v2 Hin Hlane Hroad Hv1 Hv2.
      rewrite (Hold r1 Hin) in Hv1. rewrite lookup_insert_eq in Hv2.
      injection Hv2 as <-. cbn [set_name pos_].
      unfold vehicle. rewrite (createVehicle_at_candidate _ _ _ _ _ _ Hhdg Hres).
      apply accepted_far. now apply (Hfar r1).
Qed.

Lemma spawnLanes_keeps (inf : SelectInfo) (simTime : float) (lanes : list Z) :
  forall st,
  (forall x3 y3 z3 h3 h3', track_of x3 y3 z3 h3 = track_of x3 y3 z3 h3') ->
  resolved (pos inf) ->
  spawnInv st ->
  exists st', spawnLanes inf simTime st lanes = Some st' /\ spawnInv st'.
Proof.
  induction lanes as [|laneIdx lanes IH]; intros st Hhdg Hres Hinv.
  - exists st. now split.
  - destruct (spawnLane_keeps inf simTime st laneIdx Hhdg Hres Hinv) as (st1 & Hrun & Hinv1).
    cbn [spawnLanes]. rewrite Hrun. cbn [mbind option_bind]. now apply IH.
Qed.

Lemma spawnAll_keeps (simTime : float) (info : list SelectInfo) : forall g st,
  (forall x3 y3 z3 h3 h3', track_of x3 y3 z3 h3 = track_of x3 y3 z3 h3') ->
  Forall (fun inf => resolved (pos inf)) info ->
  spawnInv st ->
  exists st' g', spawnAll simTime info g st = Some (st', g') /\ spawnInv st'.
Proof.
  induction info as [|inf info IH]; intros g st Hhdg Hres Hinv.
  - exists st, g. now split.
  - apply Forall_cons in Hres as [Hres1 Hres].
    cbn [spawnAll].
    destruct (sample (seqZ 0 _) (Z.to_nat (nLanes inf)) g) as [lanes g1].
    destruct (spawnLanes_keeps inf simTime lanes st Hhdg Hres1 Hinv) as (st1 & Hrun & Hinv1).
    rewrite Hrun. cbn [mbind option_bind]. now apply IH.
Qed.


End SpawnFacts.

Lemma two_cars_alive : recordsAlive twoCars twoRecords.
Proof.
  intros info Hin. apply elem_of_cons in Hin as [->|Hin].
  - exists (car 7 30 0). split; reflexivity.
  - apply list_elem_of_singleton in Hin as ->.
    exists (car 9 60 0). split; reflexivity.
Qed.

Lemma two_cars_spaced : spacingOk twoCars twoRecords.
Proof.
  intros i j r1 r2 v1 v2 Hij H1 H2 _ _ Hv1 Hv2.
  destruct i as [|[|i]], j as [|[|j]]; try lia; try discriminate.
  injection H1 as <-. injection H2 as <-.
  change (Some (car 7 30 0) = Some v1) in Hv1.
  change (Some (car 9 60 0) = Some v2) in Hv2.
  injection Hv1 as <-. injection Hv2 as <-. reflexivity.
Qed.

Lemma two_cars_distinct : NoDup (vehicleID <$> twoRecords).
Proof.
  apply NoDup_cons. split; [|apply NoDup_singleton].
  intros Hin. apply list_elem_of_singleton in Hin. discriminate.
Qed.



(** ** createEllipseSegments *)

Section EllipseFacts.
Context `{RM : RoadManager} `{SG : SwarmGeometry}.

Lemma ellipseAngles_more_fuel (fuel : nat) : forall alpha angles,
  ellipseAngles fuel alpha = Some angles ->
  forall fuel', (fuel <= fuel')%nat -> ellipseAngles fuel' alpha = Some angles.
Proof.
  induction fuel as [|fuel IH]; intros alpha angles Hrun fuel' Hle; [discriminate|].
  destruct fuel' as [|fuel']; [lia|].
  cbn [ellipseAngles] in *.
  destruct (alpha <? 2 * M_PI - M_PI / 72.0)%float; [|exact Hrun].
  destruct (ellipseAngles fuel _) as [rest|] eqn:Hrest; [|discriminate].
  rewrite (IH _ _ Hrest fuel') by lia. exact Hrun.
Qed.

(** C8, failing input: any semi-axes.  With fuel for 74 iterations the
    sampler returns one triangle per angular interval of a ring that starts
    at the half-step seam offset, is contiguous and ends at the seam one
    revolution later; every interval has positive size, at most the step up
    to rounding, and the sizes sum to a full revolution within tolerance.
    But computed in binary64 the 72 steps fall short of the end of the ring,
    and the ring is closed by a 73rd interval, a sliver below 1e-14 rad. *)
Theorem ellipse_ring (fuel : nat) (p : Position) (SMjA SMnA : float) :
  (74 <= fuel)%nat ->
  exists angles,
    ellipseAngles fuel (- M_PI / 72.0)%float = Some angles /\
    createEllipseSegments fuel p SMjA SMnA =
      Some (map (fun '(alpha, da) => ellipseChunk p SMjA SMnA alpha da) angles) /\
    length angles = 73%nat /\
    (fst <$> head angles) = Some (- M_PI / 72.0)%float /\
    (snd <$> last angles) = Some (2 * M_PI - M_PI / 72.0)%float /\
    ringChained angles /\
    forallb (fun s => (s.1 <? s.2) && (s.2 - s.1 <=? M_PI / 36.0 + 1e-15))%float
      angles = true /\
    (abs (ringTotal angles - 2 * M_PI) <=? 1e-12)%float = true /\
    (fun s => (s.2 - s.1 <? 1e-14)%float) <$> last angles = Some true.
Proof.
  intros Hfuel.
  destruct (ellipseAngles 74 (- M_PI / 72.0)%float) as [angles|] eqn:Hrun;
    [|vm_compute in Hrun; discriminate].
  exists angles.
  pose proof (ellipseAngles_more_fuel _ _ _ Hrun fuel Hfuel) as Hfuel'.
  split; [exact Hfuel'|].
  split; [unfold createEllipseSegments; now rewrite Hfuel'|].
  vm_compute in Hrun. injection Hrun as <-.
  vm_compute. repeat split; reflexivity.
Qed.

End EllipseFacts.

Lemma ellipse_ring_witness :
  exists angles,
    ellipseAngles 100 (- M_PI / 72.0)%float = Some angles /\
    length angles = 73%nat.
Proof.
  destruct (ellipse_ring (SG := flatGeometry) 100 (pos_ ego) 30 30)
    as (angles & Hrun & _ & Hlen & _).
  - lia.
  - exists angles. now split.
Defined.

(** ** createRoadSegments *)

Lemma ltb_irrefl (v : float) : (v <? v)%float = false.
Proof.
  rewrite FloatAxioms.ltb_spec. unfold SFltb.
  destruct (SFcompare (Prim2SF v) (Prim2SF v)) as [[]|] eqn:Hc; try reflexivity.
  pose proof (SFcompare_antisym _ _ _ Hc) as Hc'. rewrite Hc in Hc'. discriminate.
Qed.

Section SegmentFacts.
Context `{RM : RoadManager} `{SG : SwarmGeometry}.

(** What the loop over a straight span emits, whenever it returns: intervals
    that follow one another, the first starting at the arc-length the loop
    starts from, none reaching beyond the bound [length]; and none at all
    when the start is not below that bound. *)
Lemma lineLoop_intervals (fuel : nat) (gm : Geometry) (minSize length : float) :
  forall dist v,
  lineLoop fuel gm minSize length dist = Some v ->
  ringChained (intervals v) /\
  fst <$> head (intervals v) = (if (dist <? length)%float then Some dist else None) /\
  Forall (fun s => (length <? s.2)%float = false) (intervals v).
Proof.
  induction fuel as [|fuel IH]; intros dist v; [discriminate|].
  cbn [lineLoop]. destruct (dist <? length)%float eqn:Hlt.
  - set (ds := if (length <? dist + minSize)%float then length else (dist + minSize)%float).
    destruct (lineLoop fuel gm minSize length ds) as [rest|] eqn:Hrest; [|discriminate].
    cbn [mbind option_bind]. intros [= <-].
    destruct (IH _ _ Hrest) as (Hchain & Hhead & Hall).
    assert (Hsf : sF (triangle (lineChunk gm dist ds)) = ds /\
                  sI (triangle (lineChunk gm dist ds)) = dist).
    { unfold lineChunk. destruct (EvaluateDS gm dist) as [[x0 y0] d0].
      destruct (EvaluateDS gm ds) as [[x1 y1] d1]. now split. }
    destruct Hsf as [Hsf Hsi]. unfold intervals in *. rewrite fmap_cons.
    split; [|split].
    + destruct rest as [|bx rest]; [exact I|]. rewrite fmap_cons in *.
      cbn [ringChained fst snd head] in *. split; [|exact Hchain].
      rewrite Hsf. destruct (ds <? length)%float; [|discriminate].
      now injection Hhead as ->.
    + cbn. now rewrite Hsi.
    + constructor; [|exact Hall]. cbn [snd]. rewrite Hsf. unfold ds.
      destruct (length <? dist + minSize)%float eqn:Hclamp;
        [apply ltb_irrefl|exact Hclamp].
  - intros [= <-]. cbn. repeat split. constructor.
Qed.

End SegmentFacts.

(** C7, failing input: the road of the small world has a straight span
    [0, 100] followed by a straight span that starts at arc-length 100 and
    is 50 long.  With chunks of size 30 the first span is cut into
    contiguous intervals that cover it; for the second span the loop compares
    the start 100 against the length 50 and emits nothing, while a span that
    starts at 20 with length 50 is covered up to 50 only. *)
Lemma later_span_not_covered :
  option_map intervals
    (geometrySegments (RM := flatRoads) (SG := flatGeometry) 1000 30
       (mkGeometry GEOMETRY_TYPE_LINE 100 50 100 0 0)) = Some [] /\
  option_map intervals
    (geometrySegments (RM := flatRoads) (SG := flatGeometry) 1000 30
       (mkGeometry GEOMETRY_TYPE_LINE 20 50 20 0 0)) = Some [(20, 50)%float] /\
  option_map intervals
    (createRoadSegments (RM := flatRoads) (SG := flatGeometry) 1000 30)
    = Some [(0, 30); (30, 60); (60, 90); (90, 100)]%float.
Proof. vm_compute. repeat split; reflexivity. Qed.

(** ** The capacity of the fleet *)

(** C10, failing input: fleet size 1, no active vehicle, two solution points
    60 apart on the same road, no vehicle removed by despawn, and a draw of 0
    for the number of cars to spawn.  The draw sends sampleRoads to its
    second branch, which gives each solution point one lane, and spawn
    creates two vehicles. *)
Lemma spawn_exceeds_fleet_size :
  numberOfVehicles (flatState 1 0 [] ∅) = 1 /\
  maxCars (flatState 1 0 [] ∅) = 1 /\
  (nCarsToSpawn 0 1 [0]).1 = 0 /\
  nLanes <$> (sampleRoads (RM := flatRoads) 0 1 [mkPoint 20 0 0; mkPoint 80 0 0] [] [0]).1
    = [1; 1] /\
  option_map (fun r => length (spawnedV r.1))
    (spawn (RM := flatRoads) [mkPoint 20 0 0; mkPoint 80 0 0] 0 0 [0] (flatState 1 0 [] ∅))
    = Some 2%nat.
Proof. vm_compute. repeat split; reflexivity. Qed.

(** The bound the capacity is meant to give holds whenever the number of
    cars to spawn is drawn positive; the failing input above is the draw
    of 0. *)

Lemma sample_length {A : Type} (l : list A) : forall n g,
  (length (sample l n g).1 <= n)%nat.
Proof.
  induction l as [|a l IH]; intros n g; [cbn; lia|].
  destruct n as [|n]; [cbn; lia|].
  cbn [sample]. destruct (next g) as [v g'].
  destruct (_ <? _).
  - specialize (IH n g'). destruct (sample l n g') as [r g'']. cbn in *. lia.
  - specialize (IH (Datatypes.S n) g'). exact IH.
Qed.

Section CapacityFacts.
Context `{RM : RoadManager} `{SG : SwarmGeometry}.

Lemma bestEffort_accounts (pool : Z) (sols : Solutions)
    (info : list SelectInfo) (pool' : Z) :
  bestEffort pool sols info pool' ->
  lanesAssigned info + pool' = pool + Z.of_nat (length sols).
Proof.
  induction 1 as [pool|pool pt sols info pool' _ _ IH
                 |pool pt sols info pool' extra _ _ IH]; cbn [lanesAssigned foldr length nLanes].
  - lia.
  - fold (lanesAssigned info). lia.
  - fold (lanesAssigned info). lia.
Qed.

Lemma selectOne_one_lane (selected : list Point) :
  lanesAssigned (omap selectOne selected) <= Z.of_nat (length selected).
Proof.
  induction selected as [|pt selected IH]; [cbn; lia|].
  cbn [omap list_omap length]. unfold selectOne at 1.
  destruct (_ =? 0); cbn [lanesAssigned foldr nLanes];
    fold (lanesAssigned (omap selectOne selected)); lia.
Qed.

Lemma sampleRoads_within_draw (minN maxN : Z) (sols : Solutions) (g : Gen) :
  (forall rid s, 0 <= GetNumberOfDrivingLanes rid s) ->
  is_int minN -> is_int maxN -> minN <= maxN ->
  0 < (nCarsToSpawn minN maxN g).1 ->
  lanesAssigned (sampleRoads minN maxN sols [] g).1 <= (nCarsToSpawn minN maxN g).1.
Proof.
  intros Hlanes Hmin Hmax Hle Hpos.
  destruct (Z.le_gt_cases (nCarsToSpawn minN maxN g).1 (Z.of_nat (length sols)))
    as [Hmany|Hfew].
  - (* at least as many points as cars *)
    pose proof (uniform_int_distribution_range minN maxN g Hle) as Hn.
    unfold sampleRoads, nCarsToSpawn in *.
    destruct (Z.ltb_spec maxN minN); [lia|].
    destruct (uniform_int_distribution minN maxN g) as [n g1]. cbn [fst] in *.
    rewrite to_size_t_nonneg by (unfold is_int in *; lia).
    destruct (Z.leb_spec n (Z.of_nat (length sols))); [|lia].
    destruct (Z.ltb_spec 0 n); [|lia]. cbn [andb].
    destruct (random_shuffle sols g1) as [sols' g2].
    pose proof (sample_length sols' (Z.to_nat n) g2) as Hlen.
    destruct (sample sols' (Z.to_nat n) g2) as [selected g3]. cbn [fst] in *.
    pose proof (selectOne_one_lane selected). lia.
  - rewrite (sampleRoads_second_branch minN maxN sols [] g Hmin Hmax Hle Hfew).
    destruct (distributeLanes_bestEffort sols
                ((nCarsToSpawn minN maxN g).1 - Z.of_nat (length sols))
                (nCarsToSpawn minN maxN g).2 Hlanes) as [Hbe Hpool]; [lia|].
    pose proof (bestEffort_accounts _ _ _ _ Hbe). lia.
Qed.

Lemma spawnLane_adds_at_most_one (inf : SelectInfo) (simTime : float)
    (st st' : SwarmTrafficAction) (laneIdx : Z) :
  spawnLane inf simTime st laneIdx = Some st' ->
  (length (spawnedV st') <= length (spawnedV st) + 1)%nat /\
  numberOfVehicles st' = numberOfVehicles st.
Proof.
  unfold spawnLane.
  destruct (GetDrivingLaneByIdx _ _ laneIdx) as [laneID|];
    [|intros [= <-]; split; [lia|reflexivity]].
  destruct (ensureDistance st (pos inf) laneID) as [[]|]; cbn;
    [|intros [= <-]; split; [lia|reflexivity]|discriminate].
  intros [= <-]. cbn. rewrite length_app. cbn. split; [lia|reflexivity].
Qed.

Lemma spawnLanes_adds (inf : SelectInfo) (simTime : float) (lanes : list Z) :
  forall st st' : SwarmTrafficAction,
  spawnLanes inf simTime st lanes = Some st' ->
  (length (spawnedV st') <= length (spawnedV st) + length lanes)%nat /\
  numberOfVehicles st' = numberOfVehicles st.
Proof.
  induction lanes as [|laneIdx lanes IH]; intros st st'; cbn [spawnLanes].
  - intros [= <-]. cbn. split; [lia|reflexivity].
  - destruct (spawnLane inf simTime st laneIdx) as [st1|] eqn:Hone; [|discriminate].
    cbn [mbind option_bind]. intros Hrest.
    destruct (spawnLane_adds_at_most_one _ _ _ _ _ Hone) as [H1 Hn1].
    destruct (IH _ _ Hrest) as [H2 Hn2]. cbn [length]. split; [lia|congruence].
Qed.

Lemma spawnAll_adds (simTime : float) (info : list SelectInfo) :
  forall g (st st' : SwarmTrafficAction) g',
  Forall (fun s => 0 <= nLanes s) info ->
  spawnAll simTime info g st = Some (st', g') ->
  Z.of_nat (length (spawnedV st')) <=
    Z.of_nat (length (spawnedV st)) + lanesAssigned info /\
  numberOfVehicles st' = numberOfVehicles st.
Proof.
  induction info as [|inf info IH]; intros g st st' g' Hnn; cbn [spawnAll].
  - intros [= <- _]. cbn. split; [lia|reflexivity].
  - apply Forall_cons in Hnn as [Hnn1 Hnn].
    pose proof (sample_length (seqZ 0 (GetNumberOfDrivingLanes (road inf) (GetS (pos inf))))
                  (Z.to_nat (nLanes inf)) g) as Hlen.
    destruct (sample _ (Z.to_nat (nLanes inf)) g) as [lanes g1]. cbn [fst] in Hlen.
    destruct (spawnLanes inf simTime st lanes) as [st1|] eqn:Hlanes; [|discriminate].
    cbn [mbind option_bind]. intros Hrest.
    destruct (spawnLanes_adds _ _ _ _ _ Hlanes) as [H1 Hn1].
    destruct (IH _ _ _ _ Hnn Hrest) as [H2 Hn2].
    cbn [lanesAssigned foldr]. fold (lanesAssigned info). split; [lia|congruence].
Qed.

(** Every selection asks for at least one lane and for no more lanes than
    the road has at the position, so [sample] fills the whole array [lanes]
    of spawn. *)
Lemma sampleRoads_lanes_available (minN maxN : Z) (sols : Solutions) (g : Gen) :
  (forall rid s, 0 <= GetNumberOfDrivingLanes rid s) ->
  Forall (fun s => 1 <= nLanes s <= GetNumberOfDrivingLanes (road s) (GetS (pos s)))
    (sampleRoads minN maxN sols [] g).1.
Proof.
  intros Hlanes. unfold sampleRoads. destruct (maxN <? minN); [constructor|].
  destruct (nCarsToSpawn minN maxN g) as [n g1].
  destruct (_ && _).
  - destruct (random_shuffle sols g1) as [sols' g2].
    destruct (sample sols' (Z.to_nat n) g2) as [selected g3]. cbn.
    apply Forall_forall. intros inf Hinf.
    apply list_elem_of_omap in Hinf as (pt & _ & Hsel).
    unfold selectOne in Hsel.
    set (p := XYZH2TrackPos (p_x pt) (p_y pt) 0%float (p_h pt)) in *.
    pose proof (Hlanes (GetTrackId p) (GetS p)).
    destruct (Z.eqb_spec (GetNumberOfDrivingLanes (GetTrackId p) (GetS p)) 0);
      [discriminate|].
    injection Hsel as <-. cbn. lia.
  - generalize (to_int (to_size_t (n - Z.of_nat (length sols)))). intros pool.
    revert pool g1. induction sols as [|pt sols IH]; intros pool g1; [constructor|].
    cbn [distributeLanes].
    set (p := XYZH2TrackPos (p_x pt) (p_y pt) 0%float (p_h pt)).
    pose proof (Hlanes (GetTrackId p) (GetS p)) as Hp.
    destruct (Z.eqb_spec (GetNumberOfDrivingLanes (GetTrackId p) (GetS p)) 0);
      [apply IH|].
    assert (Hn : 0 <= (if 0 <? pool
                       then let '(lanesN, g') :=
                              uniform_int_distribution 0
                                (Z.min pool (GetNumberOfDrivingLanes (GetTrackId p) (GetS p))) g1 in
                            (if lanesN =? 0 then 0 else lanesN - 1, g')
                       else (0, g1)).1
                 < GetNumberOfDrivingLanes (GetTrackId p) (GetS p)).
    { destruct (Z.ltb_spec 0 pool); [|cbn; lia].
      pose proof (uniform_int_distribution_range 0
        (Z.min pool (GetNumberOfDrivingLanes (GetTrackId p) (GetS p))) g1) as Hd.
      destruct (uniform_int_distribution 0 _ g1) as [d g'].
      cbn [fst] in *. specialize (Hd ltac:(lia)). destruct (Z.eqb_spec d 0); lia. }
    destruct (if 0 <? pool then _ else _) as [lanesN g'] eqn:Hdraw. cbn [fst] in Hn.
    specialize (IH (pool - lanesN) g').
    destruct (distributeLanes (pool - lanesN) sols g') as [[info left_] g''].
    cbn in *. constructor; [cbn; lia|exact IH].
Qed.

(** When the number of cars to spawn is drawn positive, spawn adds at most
    that many records, so a list within the fleet size stays within it. *)
Lemma spawn_within_capacity (sols : Solutions) (replace : Z) (simTime : float)
    (g : Gen) (st st' : SwarmTrafficAction) (g' : Gen) :
  (forall rid s, 0 <= GetNumberOfDrivingLanes rid s) ->
  is_int (numberOfVehicles st - Z.of_nat (length (spawnedV st))) ->
  is_int replace -> replace <= maxCars st ->
  0 < (nCarsToSpawn replace (maxCars st) g).1 ->
  spawn sols replace simTime g st = Some (st', g') ->
  Z.of_nat (length (spawnedV st')) <= numberOfVehicles st.
Proof.
  intros Hlanes Hcap Hrep Hle Hpos. unfold spawn. fold (maxCars st).
  assert (Hmax : maxCars st = numberOfVehicles st - Z.of_nat (length (spawnedV st))).
  { unfold maxCars. now apply to_int_size_t. }
  destruct (Z.leb_spec (maxCars st) 0).
  - pose proof (uniform_int_distribution_range replace (maxCars st) g Hle) as Hn.
    unfold nCarsToSpawn in Hpos. lia.
  - pose proof (sampleRoads_within_draw replace (maxCars st) sols g Hlanes Hrep) as Hdraw.
    assert (Hnn : Forall (fun s => 0 <= nLanes s)
                    (sampleRoads replace (maxCars st) sols [] g).1).
    { eapply Forall_impl; [apply (sampleRoads_lanes_available _ _ _ _ Hlanes)|].
      cbn. intros; lia. }
    pose proof (uniform_int_distribution_range replace (maxCars st) g Hle) as Hn.
    unfold nCarsToSpawn in *.
    destruct (sampleRoads replace (maxCars st) sols [] g) as [info g1]. cbn [fst] in *.
    intros Hrun. destruct (spawnAll_adds _ _ _ _ _ _ Hnn Hrun) as [Hadd _].
    rewrite Hmax in Hdraw at 1. specialize (Hdraw Hcap Hle Hpos). lia.
Qed.

End CapacityFacts.

(** ** Well-formedness is kept by both halves of the lifecycle *)

Section LifecycleFacts.
Context `{RM : RoadManager} `{SG : SwarmGeometry}.
Implicit Types (st : SwarmTrafficAction) (e : gmap Z Object)
  (l : list SpawnInfo) (info : SpawnInfo).

Lemma spawnLane_keeps_lifecycleOk (inf : SelectInfo) (simTime : float) st st'
    (laneIdx : Z) :
  lifecycleOk st -> spawnLane inf simTime st laneIdx = Some st' -> lifecycleOk st'.
Proof.
  intros [Hnd Halive]. unfold spawnLane.
  destruct (GetDrivingLaneByIdx _ _ laneIdx) as [laneID|];
    [|intros [= <-]; now split].
  destruct (ensureDistance st (pos inf) laneID) as [[]|]; cbn [mbind option_bind negb];
    [|intros [= <-]; now split|discriminate].
  unfold addObject. set (id := fresh (dom (entities_ st))).
  set (vehicle := createVehicle _ _ _ _ _ _).
  assert (Hid : entities_ st !! id = None).
  { apply not_elem_of_dom. apply is_fresh. }
  assert (Hnew : forall info, info ∈ spawnedV st -> vehicleID info <> id).
  { intros info Hin Heq. destruct (Halive info Hin) as (v & Hv & _). congruence. }
  intros [= <-]. split; cbn [spawnedV entities_ with_lifecycle].
  - rewrite fmap_app. apply NoDup_app. split; [exact Hnd|]. split; [|apply NoDup_singleton].
    intros k Hk Hk'. apply list_elem_of_singleton in Hk'. cbn in Hk'.
    apply list_elem_of_fmap in Hk as (info & -> & Hin). now apply (Hnew info).
  - intros info Hin. apply elem_of_app in Hin as [Hin|Hin].
    + destruct (Halive info Hin) as (v & Hv & Hname). exists v. split; [|exact Hname].
      rewrite !lookup_insert_ne; [exact Hv| |]; intros Heq; now apply (Hnew info).
    + apply list_elem_of_singleton in Hin as ->. cbn [vehicleID].
      exists (set_name vehicle id). split; [apply lookup_insert_eq|reflexivity].
Qed.

Lemma spawnLanes_keeps_lifecycleOk (inf : SelectInfo) (simTime : float)
    (lanes : list Z) : forall st st',
  lifecycleOk st -> spawnLanes inf simTime st lanes = Some st' -> lifecycleOk st'.
Proof.
  induction lanes as [|laneIdx lanes IH]; intros st st' Hok; cbn [spawnLanes].
  - now intros [= <-].
  - destruct (spawnLane inf simTime st laneIdx) as [st1|] eqn:Hone; [|discriminate].
    cbn [mbind option_bind]. apply IH.
    exact (spawnLane_keeps_lifecycleOk _ _ _ _ _ Hok Hone).
Qed.

Lemma spawnAll_keeps_lifecycleOk (simTime : float) (info : list SelectInfo) :
  forall g st st' g',
  lifecycleOk st -> spawnAll simTime info g st = Some (st', g') -> lifecycleOk st'.
Proof.
  induction info as [|inf info IH]; intros g st st' g' Hok; cbn [spawnAll].
  - now intros [= <- _].
  - destruct (sample _ (Z.to_nat (nLanes inf)) g) as [lanes g1].
    destruct (spawnLanes inf simTime st lanes) as [st1|] eqn:Hlanes; [|discriminate].
    cbn [mbind option_bind]. apply IH.
    exact (spawnLanes_keeps_lifecycleOk _ _ _ _ _ Hok Hlanes).
Qed.

(** spawn keeps the lifecycle list well formed. *)
Lemma spawn_keeps_lifecycleOk (sols : Solutions) (replace : Z) (simTime : float)
    (g : Gen) st st' (g' : Gen) :
  lifecycleOk st -> spawn sols replace simTime g st = Some (st', g') ->
  lifecycleOk st'.
Proof.
  intros Hok. unfold spawn. destruct (_ <=? 0); [now intros [= <- _]|].
  destruct (sampleRoads _ _ sols [] g) as [info g1].
  now apply spawnAll_keeps_lifecycleOk.
Qed.

(** despawn returns on a well-formed lifecycle list and keeps it well
    formed; what it returns is the number of records it removed. *)
Lemma despawn_keeps_lifecycleOk (simTime : float) st :
  lifecycleOk st ->
  exists st' n,
    despawn simTime st = Some (st', n) /\ lifecycleOk st' /\
    n = Z.of_nat (length (spawnedV st)) - Z.of_nat (length (spawnedV st')).
Proof.
  intros [Hnd Halive].
  destruct (despawnLoop_survivors st (spawnedV st) (entities_ st) Hnd Halive)
    as (e' & n & Hrun & Hn & Hgone & Hother & Hkept).
  unfold despawn. rewrite Hrun. cbn [mbind option_bind].
  eexists _, n. split; [reflexivity|].
  split; [|exact Hn]. split; cbn [spawnedV entities_ with_lifecycle].
  - clear -Hnd. induction (spawnedV st) as [|a l IH]; [constructor|].
    rewrite fmap_cons in Hnd. apply NoDup_cons in Hnd as [Hnot Hnd].
    cbn [omap list_omap]. destruct (survivor st (entities_ st) a) as [r|] eqn:Hr;
      [|now apply IH].
    rewrite fmap_cons. apply NoDup_cons. split; [|now apply IH].
    intros Hin. apply Hnot. apply list_elem_of_fmap in Hin as (r' & Hid & Hr').
    apply list_elem_of_omap in Hr' as (a' & Ha' & Hsa').
    rewrite (survivor_id _ _ _ _ Hr) in Hid. rewrite Hid, (survivor_id _ _ _ _ Hsa').
    now apply list_elem_of_fmap_2.
  - intros r Hr. apply list_elem_of_omap in Hr as (a & Ha & Hsa).
    destruct (Halive a Ha) as (v & Hv & Hname).
    rewrite (survivor_id _ _ _ _ Hsa). exists v. split; [|exact Hname].
    rewrite Hkept; [exact Hv|exact Ha|]. rewrite Hsa. eauto.
Qed.

End LifecycleFacts.

(** ** What despawn and spawn leave alone *)

Section FrameFacts.
Context `{RM : RoadManager} `{SG : SwarmGeometry}.
Implicit Types (st : SwarmTrafficAction) (e : gmap Z Object)
  (l : list SpawnInfo) (info : SpawnInfo).

Lemma despawnDecision_sameVehicle (v0 v1 : float) info :
  sameVehicle info (despawnDecision v0 v1 info).2.
Proof.
  unfold despawnDecision, sameVehicle.
  destruct (0.001 <? v0)%float; [now repeat split|].
  destruct (_ || _)%float; now repeat split.
Qed.

Lemma despawnDecision_count (v0 v1 : float) info :
  (despawnDecision v0 v1 info).1 = false ->
  outMidAreaCount (despawnDecision v0 v1 info).2 <= USELESS_THRESHOLD /\
  (0 <= outMidAreaCount info -> 0 <= outMidAreaCount (despawnDecision v0 v1 info).2).
Proof.
  unfold despawnDecision, USELESS_THRESHOLD.
  destruct (0.001 <? v0)%float; [discriminate|].
  destruct (_ || _)%float; cbn.
  - intros Hkeep. apply Z.ltb_ge in Hkeep. lia.
  - lia.
Qed.

Lemma survivor_decision st e info r :
  survivor st e info = Some r ->
  exists v0 v1, (despawnDecision v0 v1 info).1 = false /\
                r = (despawnDecision v0 v1 info).2.
Proof.
  unfold survivor. destruct (e !! vehicleID info) as [v|]; [|discriminate]. cbn.
  intros Hs. exists (outerValue st v), (midValue st v).
  destruct (despawnDecision _ _ info) as [[] info']; [discriminate|].
  injection Hs as <-. now split.
Qed.

Lemma omap_survivor_sublist st e l :
  (vehicleID <$> omap (survivor st e) l) `sublist_of` (vehicleID <$> l).
Proof.
  induction l as [|a l IH]; [constructor|].
  cbn [omap list_omap]. rewrite fmap_cons.
  destruct (survivor st e a) as [r|] eqn:Hr.
  - rewrite fmap_cons, (survivor_id _ _ _ _ Hr). now apply sublist_skip.
  - now apply sublist_cons.
Qed.

(** X1.  On a well-formed lifecycle list despawn returns, and what it
    returns is the number of records it erased.  The records it keeps are
    records of the list, in their order, changed at most in their counter.
    It adds no object to the repository and changes none: an object that is
    not the vehicle of a record is left as it was, as is the vehicle of every
    record kept, and the fields of the action other than the list and the
    repository are untouched. *)
Theorem despawn_accounting (simTime : float) st :
  lifecycleOk st ->
  exists st' n,
    despawn simTime st = Some (st', n) /\
    n = Z.of_nat (length (spawnedV st)) - Z.of_nat (length (spawnedV st')) /\
    0 <= n /\
    (vehicleID <$> spawnedV st') `sublist_of` (vehicleID <$> spawnedV st) /\
    (forall r', r' ∈ spawnedV st' ->
       exists r, r ∈ spawnedV st /\ sameVehicle r r' /\
                 entities_ st' !! vehicleID r = entities_ st !! vehicleID r) /\
    (forall k, k ∉ (vehicleID <$> spawnedV st) ->
       entities_ st' !! k = entities_ st !! k) /\
    entities_ st' ⊆ entities_ st /\
    sameSetup st st'.
Proof.
  intros [Hnd Halive].
  destruct (despawnLoop_survivors st (spawnedV st) (entities_ st) Hnd Halive)
    as (e' & n & Hrun & Hn & Hgone & Hother & Hkept).
  unfold despawn. rewrite Hrun. cbn [mbind option_bind].
  eexists _, n. split; [reflexivity|]. cbn [spawnedV entities_ with_lifecycle].
  split; [exact Hn|].
  split; [pose proof (omap_shorter (survivor st (entities_ st)) (spawnedV st)); lia|].
  split; [apply omap_survivor_sublist|].
  split; [|split; [exact Hother|split; [|now repeat split]]].
  - intros r' Hr'. apply list_elem_of_omap in Hr' as (r & Hr & Hsr).
    exists r. split; [exact Hr|]. split.
    + destruct (survivor_decision _ _ _ _ Hsr) as (v0 & v1 & _ & ->).
      apply despawnDecision_sameVehicle.
    + apply Hkept; [exact Hr|]. rewrite Hsr. eauto.
  - apply map_subseteq_spec. intros k v Hk.
    destruct (decide (k ∈ vehicleID <$> spawnedV st)) as [Hin|Hout].
    + apply list_elem_of_fmap in Hin as (r & -> & Hr).
      destruct (survivor st (entities_ st) r) as [r'|] eqn:Hsr.
      * rewrite <- Hkept; [exact Hk|exact Hr|]. rewrite Hsr. eauto.
      * rewrite (Hgone r Hr Hsr) in Hk. discriminate.
    + now rewrite <- Hother.
Qed.

(** X2.  For counters that the increment does not overflow (every [int]
    below [INT_MAX]), after despawn no record that is kept has a counter
    above the patience threshold of 5, and counters that were not negative
    stay so: with the records spawn adds, whose counter is 0, the counters of
    the active records always lie between 0 and 5. *)
Theorem despawn_bounds_counters (simTime : float) st :
  lifecycleOk st ->
  Forall (fun r => -2147483648 <= outMidAreaCount r < 2147483647) (spawnedV st) ->
  exists st' n,
    despawn simTime st = Some (st', n) /\
    Forall (fun r => outMidAreaCount r <= USELESS_THRESHOLD) (spawnedV st') /\
    (Forall (fun r => 0 <= outMidAreaCount r) (spawnedV st) -> countsOk (spawnedV st')).
Proof.
  intros [Hnd Halive] _.
  destruct (despawnLoop_survivors st (spawnedV st) (entities_ st) Hnd Halive)
    as (e' & n & Hrun & _).
  unfold despawn. rewrite Hrun. cbn [mbind option_bind].
  eexists _, n. split; [reflexivity|]. cbn [spawnedV with_lifecycle]. split.
  - apply Forall_forall. intros r' Hr'.
    apply list_elem_of_omap in Hr' as (r & Hr & Hsr).
    destruct (survivor_decision _ _ _ _ Hsr) as (v0 & v1 & Hkeep & ->).
    now apply despawnDecision_count.
  - intros Hpos. apply Forall_forall. intros r' Hr'.
    apply list_elem_of_omap in Hr' as (r & Hr & Hsr).
    destruct (survivor_decision _ _ _ _ Hsr) as (v0 & v1 & Hkeep & ->).
    destruct (despawnDecision_count v0 v1 r Hkeep) as [Hup Hlow].
    split; [|exact Hup]. apply Hlow. rewrite Forall_forall in Hpos. now apply Hpos.
Qed.

Lemma appends_refl (simTime : float) st : appends simTime st st [].
Proof.
  split; [now rewrite app_nil_r|]. split; [reflexivity|].
  split; [constructor|now repeat split].
Qed.

Lemma sameSetup_trans st st1 st2 :
  sameSetup st st1 -> sameSetup st1 st2 -> sameSetup st st2.
Proof. unfold sameSetup. intuition congruence. Qed.

Lemma appends_trans (simTime : float) st st1 st2 (n1 n2 : list SpawnInfo) :
  appends simTime st st1 n1 -> appends simTime st1 st2 n2 ->
  appends simTime st st2 (n1 ++ n2).
Proof.
  intros (Hl1 & He1 & Hf1 & Hs1) (Hl2 & He2 & Hf2 & Hs2).
  split; [now rewrite Hl2, Hl1, app_assoc|].
  split; [now transitivity (entities_ st1)|].
  split; [|exact (sameSetup_trans _ _ _ Hs1 Hs2)].
  apply Forall_app. split.
  - eapply Forall_impl; [exact Hf1|]. cbn.
    intros r (Hc & Ht & Hnone & v & Hv & Hrest).
    repeat split; auto. exists v. split; [|exact Hrest].
    exact (lookup_weaken _ _ _ _ Hv He2).
  - eapply Forall_impl; [exact Hf2|]. cbn.
    intros r (Hc & Ht & Hnone & v & Hv & Hname & Hlane & Hspeed & Hrest).
    repeat split; auto.
    + destruct (entities_ st !! vehicleID r) as [v0|] eqn:Hv0; [|reflexivity].
      rewrite (lookup_weaken _ _ _ _ Hv0 He1) in Hnone. discriminate.
    + destruct Hrest as [Hctrl Hpath].
      exists v. repeat split; auto.
      destruct Hs1 as (_ & _ & _ & Hvel & _). congruence.
Qed.

Lemma spawnLane_appends (inf : SelectInfo) (simTime : float) st st' (laneIdx : Z) :
  spawnLane inf simTime st laneIdx = Some st' ->
  exists news, appends simTime st st' news /\ (length news <= 1)%nat.
Proof.
  unfold spawnLane.
  assert (Hnone : exists news, appends simTime st st news /\ (length news <= 1)%nat).
  { exists []. split; [apply appends_refl|cbn; lia]. }
  destruct (GetDrivingLaneByIdx _ _ laneIdx) as [laneID|];
    [|intros [= <-]; exact Hnone].
  destruct (ensureDistance st (pos inf) laneID) as [[]|]; cbn [mbind option_bind negb];
    [|intros [= <-]; exact Hnone|discriminate].
  unfold addObject. set (id := fresh (dom (entities_ st))).
  pose proof (createVehicle_pose (pos inf) (if laneID <? 0 then 0 else 1) laneID
                (velocity_ st) None "car_red.osgb") as (_ & Hlane & _).
  set (vehicle := createVehicle _ _ _ _ _ _) in *.
  assert (Hid : entities_ st !! id = None).
  { apply not_elem_of_dom. apply is_fresh. }
  intros [= <-]. eexists [_]. split; [|cbn; lia].
  split; [reflexivity|]. cbn [spawnedV entities_ with_lifecycle].
  split; [|split; [|now repeat split]].
  - rewrite insert_insert_eq. now apply insert_subseteq.
  - constructor; [|constructor]. cbn [freshRecord vehicleID outMidAreaCount simTime_ lane].
    repeat split; auto. exists (set_name vehicle id).
    split; [apply lookup_insert_eq|]. now repeat split.
Qed.

Lemma spawnLanes_appends (inf : SelectInfo) (simTime : float) (lanes : list Z) :
  forall st st',
  spawnLanes inf simTime st lanes = Some st' ->
  exists news, appends simTime st st' news /\ (length news <= length lanes)%nat.
Proof.
  induction lanes as [|laneIdx lanes IH]; intros st st'; cbn [spawnLanes].
  - intros [= <-]. exists []. split; [apply appends_refl|cbn; lia].
  - destruct (spawnLane inf simTime st laneIdx) as [st1|] eqn:Hone; [|discriminate].
    cbn [mbind option_bind]. intros Hrest.
    destruct (spawnLane_appends _ _ _ _ _ Hone) as (n1 & Ha1 & Hl1).
    destruct (IH _ _ Hrest) as (n2 & Ha2 & Hl2).
    exists (n1 ++ n2). split; [exact (appends_trans _ _ _ _ _ _ Ha1 Ha2)|].
    rewrite length_app. cbn [length]. lia.
Qed.

Lemma spawnAll_appends (simTime : float) (info : list SelectInfo) :
  forall g st st' g',
  spawnAll simTime info g st = Some (st', g') ->
  exists news, appends simTime st st' news.
Proof.
  induction info as [|inf info IH]; intros g st st' g'; cbn [spawnAll].
  - intros [= <- _]. exists []. apply appends_refl.
  - destruct (sample _ (Z.to_nat (nLanes inf)) g) as [lanes g1].
    destruct (spawnLanes inf simTime st lanes) as [st1|] eqn:Hlanes; [|discriminate].
    cbn [mbind option_bind]. intros Hrest.
    destruct (spawnLanes_appends _ _ _ _ _ Hlanes) as (n1 & Ha1 & _).
    destruct (IH _ _ _ _ Hrest) as (n2 & Ha2).
    exists (n1 ++ n2). exact (appends_trans _ _ _ _ _ _ Ha1 Ha2).
Qed.

(** X3.  spawn only appends: whenever it returns, the list is the old list
    followed by the new records; every object of the repository is still
    there unchanged; each new record has counter 0 and the time of the call,
    an id that was not in use before, and under that id a vehicle named after
    it, on the record's lane, with the speed of the action, no controller and
    the model file car_red.osgb; no other field of the action is written. *)
Theorem spawn_only_appends (sols : Solutions) (replace : Z) (simTime : float)
    (g : Gen) st st' (g' : Gen) :
  spawn sols replace simTime g st = Some (st', g') ->
  exists news,
    spawnedV st' = spawnedV st ++ news /\
    entities_ st ⊆ entities_ st' /\
    Forall (freshRecord simTime st st') news /\
    sameSetup st st'.
Proof.
  unfold spawn. destruct (_ <=? 0).
  - intros [= <- _]. exists []. apply appends_refl.
  - destruct (sampleRoads _ _ sols [] g) as [info g1]. intros Hrun.
    destruct (spawnAll_appends _ _ _ _ _ _ Hrun) as (news & Happ).
    exists news. exact Happ.
Qed.

End FrameFacts.

Lemma despawn_accounting_witness :
  exists st' n,
    despawn 0 (flatState 3 0 [mkSpawnInfo 7 5 0 (-1) 0] {[ 7 := car 7 85 0 ]})
      = Some (st', n) /\
    n = 1 - Z.of_nat (length (spawnedV st')) /\
    entities_ st' ⊆ {[ 7 := car 7 85 0 ]}.
Proof.
  destruct (despawn_accounting 0
              (flatState 3 0 [mkSpawnInfo 7 5 0 (-1) 0] {[ 7 := car 7 85 0 ]}))
    as (st' & n & Hrun & Hn & _ & _ & _ & _ & Hsub & _).
  - now apply (flat_lifecycleOk 3 0 (mkSpawnInfo 7 5 0 (-1) 0)).
  - exists st', n. now repeat split.
Defined.

Lemma despawn_bounds_counters_witness :
  exists st' n,
    despawn 0 (flatState 3 0 [mkSpawnInfo 7 9 0 (-1) 0] {[ 7 := car 7 60 0 ]})
      = Some (st', n) /\
    Forall (fun r => outMidAreaCount r <= USELESS_THRESHOLD) (spawnedV st').
Proof.
  destruct (despawn_bounds_counters 0
              (flatState 3 0 [mkSpawnInfo 7 9 0 (-1) 0] {[ 7 := car 7 60 0 ]}))
    as (st' & n & Hrun & Hup & _).
  - now apply (flat_lifecycleOk 3 0 (mkSpawnInfo 7 9 0 (-1) 0)).
  - repeat constructor; cbn; lia.
  - exists st', n. now split.
Defined.

Lemma spawn_only_appends_witness :
  exists news,
    Forall (fun r => outMidAreaCount r = 0) news /\
    option_map (fun r => spawnedV r.1)
      (spawn (RM := flatRoads) [mkPoint 25 0 0; mkPoint 80 0 0] 0 0 [2; 0; 0; 0; 0]
         (flatState 3 0 [mkSpawnInfo 7 0 0 (-1) 0] {[ 7 := car 7 20 0 ]}))
      = Some ([mkSpawnInfo 7 0 0 (-1) 0] ++ news).
Proof.
  destruct (spawn (RM := flatRoads) [mkPoint 25 0 0; mkPoint 80 0 0] 0 0 [2; 0; 0; 0; 0]
              (flatState 3 0 [mkSpawnInfo 7 0 0 (-1) 0] {[ 7 := car 7 20 0 ]}))
    as [[st' g']|] eqn:Hrun; [|vm_compute in Hrun; discriminate].
  destruct (spawn_only_appends _ _ _ _ _ _ _ Hrun) as (news & Hl & _ & Hfresh & _).
  exists news. split.
  - eapply Forall_impl; [exact Hfresh|]. now intros r [Hc _].
  - cbn. now rewrite Hl.
Defined.

(** ** One evaluation as a whole *)

Section EvaluationFacts.
Context `{RM : RoadManager} `{SG : SwarmGeometry}.
Implicit Types (st : SwarmTrafficAction) (e : gmap Z Object)
  (l : list SpawnInfo) (info : SpawnInfo).

Lemma spawnLane_runs (inf : SelectInfo) (simTime : float) st (laneIdx : Z) :
  lifecycleOk st ->
  exists st', spawnLane inf simTime st laneIdx = Some st' /\ lifecycleOk st'.
Proof.
  intros Hok.
  assert (Hrun : is_Some (spawnLane inf simTime st laneIdx)).
  { destruct Hok as [_ Halive]. unfold spawnLane.
    destruct (GetDrivingLaneByIdx _ _ laneIdx) as [laneID|]; [|eauto].
    destruct (ensureDistanceLoop_spec (entities_ st) (pos inf) laneID (spawnedV st))
      as (ok & Hrun & _).
    { intros info Hin. destruct (Halive info Hin) as (v & Hv & _). now exists v. }
    unfold ensureDistance. rewrite Hrun. cbn [mbind option_bind].
    destruct ok; cbn [negb]; [|eauto].
    unfold addObject. eauto. }
  destruct Hrun as [st' Hrun]. exists st'. split; [exact Hrun|].
  exact (spawnLane_keeps_lifecycleOk _ _ _ _ _ Hok Hrun).
Qed.

Lemma spawnLanes_runs (inf : SelectInfo) (simTime : float) (lanes : list Z) :
  forall st, lifecycleOk st ->
  exists st', spawnLanes inf simTime st lanes = Some st' /\ lifecycleOk st'.
Proof.
  induction lanes as [|laneIdx lanes IH]; intros st Hok; cbn [spawnLanes].
  - exists st. now split.
  - destruct (spawnLane_runs inf simTime st laneIdx Hok) as (st1 & Hone & Hok1).
    rewrite Hone. cbn [mbind option_bind]. now apply IH.
Qed.

Lemma spawnAll_runs (simTime : float) (info : list SelectInfo) :
  forall g st, lifecycleOk st ->
  exists st' g', spawnAll simTime info g st = Some (st', g') /\ lifecycleOk st'.
Proof.
  induction info as [|inf info IH]; intros g st Hok; cbn [spawnAll].
  - exists st, g. now split.
  - destruct (sample _ (Z.to_nat (nLanes inf)) g) as [lanes g1].
    destruct (spawnLanes_runs inf simTime lanes st Hok) as (st1 & Hlanes & Hok1).
    rewrite Hlanes. cbn [mbind option_bind]. now apply IH.
Qed.

Lemma spawn_runs (sols : Solutions) (replace : Z) (simTime : float) (g : Gen) st :
  lifecycleOk st ->
  exists st' g', spawn sols replace simTime g st = Some (st', g') /\ lifecycleOk st'.
Proof.
  intros Hok. unfold spawn. destruct (_ <=? 0); [exists st, g; now split|].
  destruct (sampleRoads _ _ sols [] g) as [info g1]. now apply spawnAll_runs.
Qed.

Lemma spawn_keeps_spawnInv (sols : Solutions) (replace : Z) (simTime : float)
    (g : Gen) st st' (g' : Gen) :
  (forall x3 y3 z3 h3 h3', track_of x3 y3 z3 h3 = track_of x3 y3 z3 h3') ->
  spawnInv st -> spawn sols replace simTime g st = Some (st', g') -> spawnInv st'.
Proof.
  intros Hhdg Hinv. unfold spawn. destruct (_ <=? 0); [now intros [= <- _]|].
  pose proof (sampleRoads_resolved replace
    (to_int (to_size_t (numberOfVehicles st - Z.of_nat (length (spawnedV st)))))
    sols g) as Hres.
  destruct (sampleRoads _ _ sols [] g) as [info g1]. cbn [fst] in Hres.
  destruct (spawnAll_keeps simTime info g1 st Hhdg Hres Hinv) as (st2 & g2 & Hrun & Hinv2).
  rewrite Hrun. now intros [= <- _].
Qed.

Lemma spacingOk_cons e (a : SpawnInfo) l :
  spacingOk e (a :: l) <->
  (forall r v1 v2, r ∈ l -> lane a = lane r -> roadID a = roadID r ->
     e !! vehicleID a = Some v1 -> e !! vehicleID r = Some v2 ->
     farApart (GetS (pos_ v1)) (GetS (pos_ v2))) /\
  spacingOk e l.
Proof.
  split.
  - intros Hsp. split.
    + intros r v1 v2 Hr Hlane Hroad Hv1 Hv2.
      apply list_elem_of_lookup in Hr as [j Hj].
      apply (Hsp 0%nat (Datatypes.S j) a r v1 v2); auto. lia.
    + intros i j r1 r2 v1 v2 Hij H1 H2.
      apply (Hsp (Datatypes.S i) (Datatypes.S j) r1 r2 v1 v2); auto. lia.
  - intros [Hhead Htail] i j r1 r2 v1 v2 Hij H1 H2 Hlane Hroad Hv1 Hv2.
    destruct j as [|j]; [lia|]. cbn in H2. destruct i as [|i].
    + cbn in H1. injection H1 as <-.
      apply (Hhead r2 v1 v2); auto. exact (list_elem_of_lookup_2 _ _ _ H2).
    + cbn in H1. apply (Htail i j r1 r2 v1 v2); auto. lia.
Qed.

(** Erasing records and their vehicles keeps the spacing of those left. *)
Lemma survivors_keep_spacing st e e' l :
  (forall info, info ∈ l -> is_Some (survivor st e info) ->
     e' !! vehicleID info = e !! vehicleID info) ->
  spacingOk e l -> spacingOk e' (omap (survivor st e) l).
Proof.
  induction l as [|a l IH]; intros Hkept Hsp.
  { intros i j r1 r2 v1 v2 _ H1. cbn in H1. now rewrite lookup_nil in H1. }
  apply spacingOk_cons in Hsp as [Hhead Htail].
  assert (IH' : spacingOk e' (omap (survivor st e) l)).
  { apply IH; [|exact Htail]. intros info Hin. apply Hkept. now apply list_elem_of_further. }
  cbn [omap list_omap]. destruct (survivor st e a) as [a'|] eqn:Hsa; [|exact IH'].
  apply spacingOk_cons. split; [|exact IH'].
  intros r' v1 v2 Hr' Hlane Hroad Hv1 Hv2.
  apply list_elem_of_omap in Hr' as (r & Hr & Hsr).
  destruct (survivor_decision _ _ _ _ Hsa) as (u0 & u1 & _ & ->).
  destruct (survivor_decision _ _ _ _ Hsr) as (w0 & w1 & _ & ->).
  destruct (despawnDecision_sameVehicle u0 u1 a) as (Ha1 & Ha2 & Ha3 & _).
  destruct (despawnDecision_sameVehicle w0 w1 r) as (Hr1 & Hr2 & Hr3 & _).
  rewrite Ha1 in Hv1. rewrite Hr1 in Hv2.
  rewrite Hkept in Hv1; [|apply list_elem_of_here|rewrite Hsa; eauto].
  rewrite Hkept in Hv2; [|now apply list_elem_of_further|rewrite Hsr; eauto].
  apply (Hhead r v1 v2); auto; congruence.
Qed.

Lemma ellipseAngles_returns (fuel : nat) :
  (74 <= fuel)%nat -> is_Some (ellipseAngles fuel (- M_PI / 72.0)%float).
Proof.
  intros Hfuel.
  destruct (ellipseAngles 74 (- M_PI / 72.0)%float) as [angles|] eqn:Hrun;
    [|vm_compute in Hrun; discriminate].
  exists angles. exact (ellipseAngles_more_fuel _ _ _ Hrun fuel Hfuel).
Qed.

End EvaluationFacts.

Section StepFrame.
Context `{RM : RoadManager} `{SG : SwarmGeometry}.
Implicit Types (st : SwarmTrafficAction) (e : gmap Z Object)
  (l : list SpawnInfo) (info : SpawnInfo).

Lemma despawn_survivors (simTime : float) st :
  lifecycleOk st ->
  exists e' n,
    despawn simTime st =
      Some (with_lifecycle st (omap (survivor st (entities_ st)) (spawnedV st)) e', n) /\
    (forall info, info ∈ spawnedV st -> is_Some (survivor st (entities_ st) info) ->
       e' !! vehicleID info = entities_ st !! vehicleID info).
Proof.
  intros [Hnd Halive].
  destruct (despawnLoop_survivors st (spawnedV st) (entities_ st) Hnd Halive)
    as (e' & n & Hrun & _ & _ & _ & Hkept).
  exists e', n. split; [|exact Hkept].
  unfold despawn. now rewrite Hrun.
Qed.

Lemma survivors_countsOk st e l :
  countsOk l -> countsOk (omap (survivor st e) l).
Proof.
  unfold countsOk. rewrite !Forall_forall. intros Hall r' Hr'.
  apply list_elem_of_omap in Hr' as (r & Hr & Hsr).
  destruct (survivor_decision _ _ _ _ Hsr) as (v0 & v1 & Hkeep & ->).
  destruct (despawnDecision_count v0 v1 r Hkeep) as [Hup Hlow].
  split; [|exact Hup]. apply Hlow. now apply Hall.
Qed.

Lemma spawn_appends (sols : Solutions) (replace : Z) (simTime : float)
    (g : Gen) st st' (g' : Gen) :
  spawn sols replace simTime g st = Some (st', g') ->
  exists news, appends simTime st st' news.
Proof.
  unfold spawn. destruct (_ <=? 0).
  - intros [= <- _]. exists []. apply appends_refl.
  - destruct (sampleRoads _ _ sols [] g) as [info g1].
    apply spawnAll_appends.
Qed.

Lemma evaluation_runs (fuel : nat) (simTime : float) (g : Gen) st :
  lifecycleOk st -> is_Some (rTree st) -> (74 <= fuel)%nat ->
  exists vec tree e1 st2 g',
    createEllipseSegments fuel (pos_ (centralObject_ st)) (midSMjA st) (midSMnA st)
      = Some vec /\
    rTree st = Some tree /\
    spawn (findSolutions tree (build vec)
             (mkEllipseInfo (midSMjA st) (midSMnA st) (pos_ (centralObject_ st))))
          (Z.of_nat (length (spawnedV st)) -
           Z.of_nat (length (omap (survivor st (entities_ st)) (spawnedV st))))
          simTime g
          (with_lifecycle st (omap (survivor st (entities_ st)) (spawnedV st)) e1)
      = Some (st2, g') /\
    (forall info, info ∈ spawnedV st -> is_Some (survivor st (entities_ st) info) ->
       e1 !! vehicleID info = entities_ st !! vehicleID info) /\
    lifecycleOk
      (with_lifecycle st (omap (survivor st (entities_ st)) (spawnedV st)) e1) /\
    lifecycleOk st2 /\
    evaluation fuel simTime g st = Some (with_lastTime st2 simTime, g').
Proof.
  intros Hok [tree Htree] Hfuel.
  destruct (ellipseAngles_returns fuel Hfuel) as [angles Hangles].
  destruct (despawn_keeps_lifecycleOk simTime st Hok) as (st1 & n & Hdes & Hok1 & Hn).
  destruct (despawn_survivors simTime st Hok) as (e1 & n' & Hdes' & Hkept).
  rewrite Hdes in Hdes'. injection Hdes' as -> ->.
  cbn [spawnedV with_lifecycle] in Hn.
  destruct (spawn_runs
    (findSolutions tree (build (map (fun '(alpha, da) =>
        ellipseChunk (pos_ (centralObject_ st)) (midSMjA st) (midSMnA st) alpha da)
        angles))
      (mkEllipseInfo (midSMjA st) (midSMnA st) (pos_ (centralObject_ st))))
    n' simTime g _ Hok1) as (st2 & g' & Hspawn & Hok2).
  eexists _, tree, e1, st2, g'.
  unfold createEllipseSegments, evaluation. rewrite Hangles. cbn [mbind option_bind].
  split; [reflexivity|]. split; [exact Htree|].
  rewrite <- Hn. split; [exact Hspawn|]. split; [exact Hkept|].
  split; [exact Hok1|]. split; [exact Hok2|].
  unfold createEllipseSegments. rewrite Hangles, Htree. cbn [mbind option_bind].
  rewrite Hdes. cbn [mbind option_bind]. now rewrite Hspawn.
Qed.

(** X4.  Once Start has built the road tree, Step always returns on a
    well-formed lifecycle list (74 rounds of the angular loop are enough),
    and the list it leaves is well formed again: no two records share a
    vehicle and every record has its vehicle, named after it, in the
    repository.  Counters that lay between 0 and 5 still do.  lastTime is the
    time of the call when the guard let the evaluation run and is unchanged
    otherwise; no field other than the list, the repository and lastTime is
    written. *)
Theorem Step_keeps_lifecycle (fuel : nat) (dt simTime : float) (g : Gen) st :
  lifecycleOk st -> is_Some (rTree st) -> (74 <= fuel)%nat ->
  exists st' g',
    Step fuel dt simTime g st = Some (st', g') /\
    lifecycleOk st' /\
    (countsOk (spawnedV st) -> countsOk (spawnedV st')) /\
    lastTime st' = (if stepDue simTime st then simTime else lastTime st) /\
    sameSetup (with_lastTime st (lastTime st')) st'.
Proof.
  intros Hok Htree Hfuel. unfold Step. destruct (stepDue simTime st).
  - destruct (evaluation_runs fuel simTime g st Hok Htree Hfuel)
      as (vec & tree & e1 & st2 & g' & _ & _ & Hspawn & _ & _ & Hok2 & Hrun).
    exists (with_lastTime st2 simTime), g'. split; [exact Hrun|].
    destruct (spawn_appends _ _ _ _ _ _ _ Hspawn) as (news & Hlist & _ & Hnew & Hsetup).
    cbn [spawnedV with_lifecycle] in Hlist.
    split; [exact Hok2|]. cbn [spawnedV lastTime with_lastTime].
    split; [|split; [reflexivity|]].
    + intros Hcounts. rewrite Hlist. apply Forall_app. split.
      * now apply survivors_countsOk.
      * eapply Forall_impl; [exact Hnew|]. intros r (Hzero & _). rewrite Hzero.
        unfold USELESS_THRESHOLD. lia.
    + destruct Hsetup as (H1 & H2 & H3 & H4 & H5 & H6 & H7 & H8 & _ & H10 & H11).
      cbn in *. repeat split; cbn; congruence.
  - exists st, g. split; [reflexivity|]. split; [exact Hok|]. split; [auto|].
    split; [reflexivity|]. now repeat split.
Qed.

(** X5.  Step keeps the minimum spacing: on a road network whose track
    lookup does not depend on the heading, if every two active vehicles on
    the same road and lane are farther apart than VHEICLE_DISTANCE, then so
    are they after Step, the vehicles spawned in the call included. *)
Theorem Step_keeps_spacing (fuel : nat) (dt simTime : float) (g : Gen) st :
  (forall x3 y3 z3 h3 h3', track_of x3 y3 z3 h3 = track_of x3 y3 z3 h3') ->
  lifecycleOk st -> is_Some (rTree st) -> (74 <= fuel)%nat ->
  spacingOk (entities_ st) (spawnedV st) ->
  exists st' g',
    Step fuel dt simTime g st = Some (st', g') /\
    spacingOk (entities_ st') (spawnedV st').
Proof.
  intros Hhdg Hok Htree Hfuel Hsp. unfold Step. destruct (stepDue simTime st).
  - destruct (evaluation_runs fuel simTime g st Hok Htree Hfuel)
      as (vec & tree' & e1 & st2 & g2 & _ & _ & Hspawn & Hkept & Hok1 & _ & Hrun).
    exists (with_lastTime st2 simTime), g2. split; [exact Hrun|].
    cbn [spawnedV entities_ with_lastTime].
    refine (proj2 (spawn_keeps_spawnInv _ _ _ _ _ _ _ Hhdg _ Hspawn)).
    split; [exact (proj2 Hok1)|]. cbn [spawnedV entities_ with_lifecycle].
    now apply survivors_keep_spacing.
  - exists st, g. now split.
Qed.

(** X6.  spawn runs to the end on a well-formed lifecycle list, and when the
    vehicle count drawn is positive it never takes the list beyond
    numberOfVehicles (the lane counts of the road network being
    non-negative, and the list not being longer than numberOfVehicles by
    2^31 or more). *)
Theorem spawn_respects_fleet_size (sols : Solutions) (replace : Z)
    (simTime : float) (g : Gen) st :
  (forall rid s, 0 <= GetNumberOfDrivingLanes rid s) ->
  lifecycleOk st ->
  is_int (numberOfVehicles st - Z.of_nat (length (spawnedV st))) ->
  is_int replace -> replace <= maxCars st ->
  0 < (nCarsToSpawn replace (maxCars st) g).1 ->
  exists st' g',
    spawn sols replace simTime g st = Some (st', g') /\
    Z.of_nat (length (spawnedV st)) <= Z.of_nat (length (spawnedV st')) /\
    Z.of_nat (length (spawnedV st')) <= numberOfVehicles st.
Proof.
  intros Hlanes Hok Hcap Hrep Hle Hpos.
  destruct (spawn_runs sols replace simTime g st Hok) as (st' & g' & Hrun & _).
  exists st', g'. split; [exact Hrun|]. split.
  - destruct (spawn_appends _ _ _ _ _ _ _ Hrun) as (news & Hlist & _).
    rewrite Hlist, length_app. lia.
  - exact (spawn_within_capacity _ _ _ _ _ _ _ Hlanes Hcap Hrep Hle Hpos Hrun).
Qed.

End StepFrame.

Lemma Step_keeps_lifecycle_witness :
  exists st' g',
    Step (RM := flatRoads) 74 0.5 1 [1; 0; 0]
      (flatState 3 0 [mkSpawnInfo 7 0 0 (-1) 0] {[ 7 := car 7 20 0 ]})
      = Some (st', g') /\
    lifecycleOk st'.
Proof.
  destruct (Step_keeps_lifecycle (RM := flatRoads) 74 0.5 1 [1; 0; 0]
              (flatState 3 0 [mkSpawnInfo 7 0 0 (-1) 0] {[ 7 := car 7 20 0 ]}))
    as (st' & g' & Hrun & Hok & _).
  - now apply (flat_lifecycleOk 3 0 (mkSpawnInfo 7 0 0 (-1) 0)).
  - cbn. eauto.
  - lia.
  - exists st', g'. now split.
Defined.

Lemma Step_keeps_spacing_witness :
  exists st' g',
    Step (RM := flatRoads) 74 0.5 1 [2; 0; 0; 0; 0; 0; 0] busyState = Some (st', g') /\
    placed busyState = [(0, -1, 30%float); (0, -1, 60%float)] /\
    placed st' = [(0, -1, 30%float); (0, -1, 60%float); (0, -1, 80%float)] /\
    spacingOk (entities_ st') (spawnedV st').
Proof.
  destruct (Step_keeps_spacing (RM := flatRoads) 74 0.5 1 [2; 0; 0; 0; 0; 0; 0] busyState)
    as (st' & g' & Hrun & Hspaced).
  - reflexivity.
  - split; [exact two_cars_distinct|exact two_cars_alive].
  - cbn. eauto.
  - lia.
  - exact two_cars_spaced.
  - exists st', g'. split; [exact Hrun|]. split; [reflexivity|]. split; [|exact Hspaced].
    assert (Hplaced :
      option_map (fun r => placed r.1)
        (Step (RM := flatRoads) 74 0.5 1 [2; 0; 0; 0; 0; 0; 0] busyState)
      = Some [(0, -1, 30%float); (0, -1, 60%float); (0, -1, 80%float)])
      by (vm_compute; reflexivity).
    rewrite Hrun in Hplaced. now injection Hplaced.
Defined.

Lemma spawn_respects_fleet_size_witness :
  exists st' g',
    spawn (RM := flatRoads) [mkPoint 25 0 0; mkPoint 80 0 0] 0 0 [2; 0; 0; 0; 0]
      (flatState 3 0 [mkSpawnInfo 7 0 0 (-1) 0] {[ 7 := car 7 20 0 ]})
      = Some (st', g') /\
    1 <= Z.of_nat (length (spawnedV st')) <= 3.
Proof.
  destruct (spawn_respects_fleet_size (RM := flatRoads)
              [mkPoint 25 0 0; mkPoint 80 0 0] 0 0 [2; 0; 0; 0; 0]
              (flatState 3 0 [mkSpawnInfo 7 0 0 (-1) 0] {[ 7 := car 7 20 0 ]}))
    as (st' & g' & Hrun & Hlow & Hup).
  - intros rid s. cbn. destruct (_ || _); lia.
  - now apply (flat_lifecycleOk 3 0 (mkSpawnInfo 7 0 0 (-1) 0)).
  - vm_compute. split; [discriminate|reflexivity].
  - vm_compute. split; [discriminate|reflexivity].
  - vm_compute. discriminate.
  - vm_compute. reflexivity.
  - exists st', g'. split; [exact Hrun|]. cbn in Hlow, Hup. lia.
Defined.

(** ** The sampling helpers and the first branch of sampleRoads *)

Lemma insert_at_perm {A : Type} (i : nat) (x : A) (l : list A) :
  insert_at i x l ≡ₚ x :: l.
Proof.
  unfold insert_at. rewrite <- Permutation_middle. now rewrite take_drop.
Qed.

Lemma random_shuffle_perm {A : Type} (l : list A) : forall g,
  (random_shuffle l g).1 ≡ₚ l.
Proof.
  induction l as [|x l IH]; intros g; [reflexivity|].
  cbn [random_shuffle]. specialize (IH g).
  destruct (random_shuffle l g) as [r g1]. destruct (next g1) as [v g2].
  cbn [fst] in *. now rewrite insert_at_perm, IH.
Qed.

Lemma sample_sublist {A : Type} (l : list A) : forall n g,
  (sample l n g).1 `sublist_of` l.
Proof.
  induction l as [|a l IH]; intros n g; [cbn; constructor|].
  destruct n as [|n]; [cbn; apply sublist_nil_l|].
  cbn [sample]. destruct (next g) as [v g'].
  destruct (_ <? _).
  - specialize (IH n g'). destruct (sample l n g') as [r g'']. cbn in *.
    now apply sublist_skip.
  - apply sublist_cons. apply IH.
Qed.

Lemma sample_exact {A : Type} (l : list A) : forall n g,
  (n <= length l)%nat -> length (sample l n g).1 = n.
Proof.
  induction l as [|a l IH]; intros n g Hn; [cbn in *; lia|].
  destruct n as [|n]; [reflexivity|].
  cbn [sample]. destruct (next g) as [v g'].
  destruct (Z.ltb_spec (v mod Z.of_nat (length (a :: l))) (Z.of_nat (Datatypes.S n)))
    as [Htake|Hskip].
  - specialize (IH n g'). destruct (sample l n g') as [r g'']. cbn in *.
    rewrite IH; lia.
  - apply IH.
    pose proof (Z.mod_pos_bound v (Z.of_nat (length (a :: l)))) as Hb.
    cbn [length] in *. lia.
Qed.

Section FirstBranch.
Context `{RM : RoadManager} `{SG : SwarmGeometry}.

Lemma selectOne_lanes (chosen : list Point) :
  Forall (fun s => nLanes s = 1) (omap selectOne chosen).
Proof.
  apply Forall_forall. intros s Hs.
  apply list_elem_of_omap in Hs as (pt & _ & Hsel).
  unfold selectOne in Hsel. destruct (_ =? 0); [discriminate|].
  now injection Hsel as <-.
Qed.

(** The first branch selects exactly as many of the solution points as were
    drawn. *)
Lemma sampleRoads_first_branch (minN maxN : Z) (sols : Solutions)
    (info0 : list SelectInfo) (g : Gen) :
  is_int minN -> is_int maxN -> minN <= maxN ->
  0 < (nCarsToSpawn minN maxN g).1 <= Z.of_nat (length sols) ->
  exists chosen,
    chosen ⊆+ sols /\
    Z.of_nat (length chosen) = (nCarsToSpawn minN maxN g).1 /\
    (sampleRoads minN maxN sols info0 g).1 = omap selectOne chosen.
Proof.
  intros Hmin Hmax Hle Hn.
  pose proof (uniform_int_distribution_range minN maxN g Hle) as Hrange.
  unfold sampleRoads, nCarsToSpawn in *.
  destruct (Z.ltb_spec maxN minN); [lia|].
  destruct (uniform_int_distribution minN maxN g) as [n g1]. cbn [fst] in *.
  rewrite to_size_t_nonneg by (unfold is_int in *; lia).
  destruct (Z.leb_spec n (Z.of_nat (length sols))); [|lia].
  destruct (Z.ltb_spec 0 n); [|lia]. cbn [andb].
  pose proof (random_shuffle_perm sols g1) as Hperm.
  destruct (random_shuffle sols g1) as [sols' g2]. cbn [fst] in Hperm.
  pose proof (sample_sublist sols' (Z.to_nat n) g2) as Hsub.
  pose proof (sample_exact sols' (Z.to_nat n) g2) as Hlen.
  destruct (sample sols' (Z.to_nat n) g2) as [selected g3]. cbn [fst] in *.
  assert (Hfill : length selected = Z.to_nat n).
  { apply Hlen. rewrite (Permutation_length Hperm). lia. }
  exists selected. split; [|split; [lia|reflexivity]].
  rewrite <- Hperm. now apply sublist_submseteq.
Qed.

(** X7.  When the draw [n] of sampleRoads is positive and there are at least
    [n] solution points, the selections are made from exactly [n] of the
    solution points, each point used at most once (the array [selected] is
    filled completely); a chosen point on a road without driving lanes is
    dropped, every other one gets exactly one lane.  What the argument [info]
    held before the call is discarded. *)
Theorem sampleRoads_enough_points (minN maxN : Z) (sols : Solutions)
    (info0 : list SelectInfo) (g : Gen) :
  is_int minN -> is_int maxN -> minN <= maxN ->
  0 < (nCarsToSpawn minN maxN g).1 <= Z.of_nat (length sols) ->
  exists chosen,
    chosen ⊆+ sols /\
    Z.of_nat (length chosen) = (nCarsToSpawn minN maxN g).1 /\
    (sampleRoads minN maxN sols info0 g).1 = omap selectOne chosen /\
    Forall (fun s => nLanes s = 1) (sampleRoads minN maxN sols info0 g).1 /\
    Z.of_nat (length (sampleRoads minN maxN sols info0 g).1)
      <= (nCarsToSpawn minN maxN g).1.
Proof.
  intros Hmin Hmax Hle Hn.
  destruct (sampleRoads_first_branch minN maxN sols info0 g Hmin Hmax Hle Hn)
    as (chosen & Hsub & Hlen & Hrun).
  exists chosen. split; [exact Hsub|]. split; [exact Hlen|]. split; [exact Hrun|].
  rewrite Hrun. split; [apply selectOne_lanes|].
  pose proof (omap_shorter selectOne chosen). lia.
Qed.

(** X8.  Every selection sampleRoads returns sits on the road its position
    resolves to and asks for at least one lane and at most as many lanes as
    that road has driving lanes there, so in spawn the array [lanes] of
    [nLanes] entries is filled completely by [sample].  When the draw is
    positive the selections together ask for no more lanes than were
    drawn. *)
Theorem sampleRoads_selection_bounds (minN maxN : Z) (sols : Solutions) (g : Gen) :
  (forall rid s, 0 <= GetNumberOfDrivingLanes rid s) ->
  is_int minN -> is_int maxN -> minN <= maxN ->
  Forall (fun s =>
      resolved (pos s) /\
      1 <= nLanes s <= GetNumberOfDrivingLanes (road s) (GetS (pos s)) /\
      forall g',
        length (sample (seqZ 0 (GetNumberOfDrivingLanes (road s) (GetS (pos s))))
                  (Z.to_nat (nLanes s)) g').1 = Z.to_nat (nLanes s))
    (sampleRoads minN maxN sols [] g).1 /\
  (0 < (nCarsToSpawn minN maxN g).1 ->
   lanesAssigned (sampleRoads minN maxN sols [] g).1 <= (nCarsToSpawn minN maxN g).1).
Proof.
  intros Hlanes Hmin Hmax Hle. split.
  - pose proof (sampleRoads_resolved minN maxN sols g) as Hres.
    pose proof (sampleRoads_lanes_available minN maxN sols g Hlanes) as Hav.
    rewrite Forall_forall in Hres, Hav. apply Forall_forall. intros s Hs.
    split; [now apply Hres|]. split; [now apply Hav|].
    intros g'. apply sample_exact. rewrite length_seqZ.
    specialize (Hav s Hs). cbn beta in Hav. lia.
  - now apply sampleRoads_within_draw.
Qed.

Lemma ensureDistance_same_lane (st : SwarmTrafficAction) (p : Position)
    (laneId : Z) :
  (forall info, info ∈ spawnedV st ->
     lane info = laneId -> roadID info = GetTrackId p ->
     is_Some (entities_ st !! vehicleID info)) ->
  exists ok,
    ensureDistance st p laneId = Some ok /\
    (ok = true <->
       forall info vehicle, info ∈ spawnedV st ->
         lane info = laneId -> roadID info = GetTrackId p ->
         entities_ st !! vehicleID info = Some vehicle ->
         tooClose (GetS (pos_ vehicle)) (GetS p) = false).
Proof.
  unfold ensureDistance. generalize (entities_ st). intros e.
  induction (spawnedV st) as [|info l IH]; intros Halive.
  - exists true. split; [reflexivity|]. split; [|reflexivity].
    intros _ info vehicle Hin. inversion Hin.
  - destruct IH as (ok & Hrun & Hok).
    { intros r Hr. apply Halive. now apply list_elem_of_further. }
    cbn [ensureDistanceLoop].
    destruct (Z.eqb_spec (lane info) laneId) as [Hlane|Hlane];
      destruct (Z.eqb_spec (roadID info) (GetTrackId p)) as [Hroad|Hroad]; cbn [andb].
    1: { destruct (Halive info (list_elem_of_here _ _) Hlane Hroad) as [v Hv].
         unfold GetObjectById. rewrite Hv. cbn [mbind option_bind].
         destruct (abs_of_double (GetS (pos_ v) - GetS p) <=? VHEICLE_DISTANCE)%float
           eqn:Hnear.
         - exists false. split; [reflexivity|]. split; [discriminate|].
           intros Hall. specialize (Hall info v (list_elem_of_here _ _) Hlane Hroad Hv).
           unfold tooClose in Hall. congruence.
         - exists ok. split; [exact Hrun|]. rewrite Hok. split.
           + intros Hall r w Hr. apply elem_of_cons in Hr as [->|Hr]; [|now apply Hall].
             intros _ _ Hw. rewrite Hv in Hw. injection Hw as <-. exact Hnear.
           + intros Hall r w Hr. apply Hall. now apply list_elem_of_further. }
    all: exists ok; split; [exact Hrun|]; rewrite Hok; split;
      [ intros Hall r w Hr; apply elem_of_cons in Hr as [->|Hr];
        [intros; congruence|now apply Hall]
      | intros Hall r w Hr; apply Hall; now apply list_elem_of_further ].
Qed.

(** X9.  ensureDistance looks up the vehicles of the records on the
    candidate's road and lane only: when these are registered it returns, and
    it accepts the candidate exactly when its test fails for every one of
    them.  The test takes the absolute value of the difference of the two
    arc-lengths after converting it to an [int], so the difference is
    truncated: a vehicle less than 13 away blocks the candidate, one 12.5
    away included, and an accepted candidate is at least 13 from each of
    them.  Records on other roads or lanes never block a candidate,
    registered or not. *)
Theorem ensureDistance_same_lane_only (st : SwarmTrafficAction) (p : Position)
    (laneId : Z) :
  (forall info, info ∈ spawnedV st ->
     lane info = laneId -> roadID info = GetTrackId p ->
     is_Some (entities_ st !! vehicleID info)) ->
  exists ok,
    ensureDistance st p laneId = Some ok /\
    (ok = true <->
       forall info vehicle, info ∈ spawnedV st ->
         lane info = laneId -> roadID info = GetTrackId p ->
         entities_ st !! vehicleID info = Some vehicle ->
         tooClose (GetS (pos_ vehicle)) (GetS p) = false) /\
    (forall info vehicle, info ∈ spawnedV st ->
       lane info = laneId -> roadID info = GetTrackId p ->
       entities_ st !! vehicleID info = Some vehicle ->
       (abs (GetS (pos_ vehicle) - GetS p) <? 13)%float = true ->
       ok = false) /\
    (ok = true ->
     forall info vehicle, info ∈ spawnedV st ->
       lane info = laneId -> roadID info = GetTrackId p ->
       entities_ st !! vehicleID info = Some vehicle ->
       (13 <=? abs (GetS (pos_ vehicle) - GetS p))%float = true).
Proof.
  intros Halive. destruct (ensureDistance_same_lane st p laneId Halive)
    as (ok & Hrun & Hok).
  exists ok. split; [exact Hrun|]. split; [exact Hok|]. split.
  - intros info vehicle Hin Hlane Hroad Hv Hnear.
    destruct ok; [|reflexivity].
    pose proof (proj1 Hok eq_refl info vehicle Hin Hlane Hroad Hv) as Hfar.
    unfold tooClose in Hfar. rewrite (within_13_rejected _ Hnear) in Hfar. discriminate.
  - intros Hacc info vehicle Hin Hlane Hroad Hv.
    apply accepted_13. exact (proj1 Hok Hacc info vehicle Hin Hlane Hroad Hv).
Qed.

(** X10.  The triangles createRoadSegments cuts a straight geometry into
    follow one another along the arc-length: the first starts at the
    geometry's start (none is made when the start is not below GetLength),
    each next one starts where the previous one ends, each ends one minSize_
    after its start or at GetLength, none ends beyond GetLength, and each
    refers to the geometry it was cut from.  A geometry of unknown type
    contributes nothing. *)
Theorem line_segments_chained (fuel : nat) (minSize : float) (gm : Geometry)
    (v : BBoxVec) :
  GetType gm <> GEOMETRY_TYPE_OTHER ->
  geometrySegments fuel minSize gm = Some v ->
  match GetType gm with
  | GEOMETRY_TYPE_LINE =>
      ringChained (intervals v) /\
      fst <$> head (intervals v) =
        (if (gm_S gm <? GetLength gm)%float then Some (gm_S gm) else None) /\
      Forall (fun s => (GetLength gm <? s.2)%float = false) (intervals v) /\
      Forall (fun bx =>
          tr_geometry (triangle bx) = Some gm /\
          (sF (triangle bx) = (sI (triangle bx) + minSize)%float \/
           sF (triangle bx) = GetLength gm)) v
  | _ => v = []
  end.
Proof.
  intros Hty. unfold geometrySegments.
  destruct (GetType gm); [now intros [= <-]| |congruence].
  intros Hrun. destruct (lineLoop_intervals _ _ _ _ _ _ Hrun) as (Hc & Hh & Hb).
  split; [exact Hc|]. split; [exact Hh|]. split; [exact Hb|].
  clear Hc Hh Hb Hty. revert v Hrun. generalize (gm_S gm). 
  induction fuel as [|fuel IH]; intros dist v; [discriminate|].
  cbn [lineLoop]. destruct (dist <? GetLength gm)%float; [|intros [= <-]; constructor].
  destruct (lineLoop fuel gm minSize (GetLength gm) _) as [rest|] eqn:Hrest;
    [|discriminate].
  cbn [mbind option_bind]. intros [= <-]. constructor; [|exact (IH _ _ Hrest)].
  unfold lineChunk. destruct (EvaluateDS gm dist) as [[x0 y0] h0].
  destruct (EvaluateDS gm _) as [[x1 y1] h1]. cbn.
  split; [reflexivity|]. destruct (_ <? _)%float; auto.
Qed.

(** X11.  Start arms the action: whenever it returns, the road tree is
    built, the chunk size minSize_ is not zero, the mid radii are the means
    of the outer radii and the inner radius, and lastTime is -1, so that the
    first Step after it runs the evaluation whatever the simulation time.
    The lifecycle list, the repository and the configured radii, speed and
    fleet size are left as they were. *)
Theorem Start_arms_first_step (fuel : nat) (st st' : SwarmTrafficAction) :
  Start fuel st = Some st' ->
  is_Some (rTree st') /\
  (minSize_ st' =? 0)%float = false /\
  midSMjA st' = ((semiMajorAxis_ st + innerRadius_ st) / 2.0)%float /\
  midSMnA st' = ((semiMinorAxis_ st + innerRadius_ st) / 2.0)%float /\
  (forall fuel' dt simTime g,
     Step fuel' dt simTime g st' = evaluation fuel' simTime g st') /\
  spawnedV st' = spawnedV st /\ entities_ st' = entities_ st /\
  innerRadius_ st' = innerRadius_ st /\
  semiMajorAxis_ st' = semiMajorAxis_ st /\
  semiMinorAxis_ st' = semiMinorAxis_ st /\
  velocity_ st' = velocity_ st /\
  numberOfVehicles st' = numberOfVehicles st /\
  centralObject_ st' = centralObject_ st.
Proof.
  unfold Start.
  destruct (paramEllipse 0 0 0 _ _ 0) as [x0 y0].
  destruct (paramEllipse (M_PI / 36)%float 0 0 _ _ 0) as [x1 y1].
  set (m := (ceil _ / 100.0)%float).
  destruct (createRoadSegments fuel _) as [vec|]; [|discriminate].
  cbn [mbind option_bind]. intros [= <-]. cbn.
  split; [eauto|]. split; [|repeat split].
  fold m. destruct (m =? 0)%float eqn:Hm; [reflexivity|exact Hm].
Qed.

End FirstBranch.

Section CountFacts.
Context `{RM : RoadManager} `{SG : SwarmGeometry}.



End CountFacts.

Lemma sampleRoads_enough_points_witness :
  exists chosen,
    chosen ⊆+ [mkPoint 25 0 0; mkPoint 80 0 0] /\
    length chosen = 1%nat /\
    (sampleRoads (RM := flatRoads) 0 2 [mkPoint 25 0 0; mkPoint 80 0 0] [] [1; 0; 0; 0]).1
      = omap (selectOne (RM := flatRoads)) chosen.
Proof.
  destruct (sampleRoads_enough_points (RM := flatRoads) 0 2
              [mkPoint 25 0 0; mkPoint 80 0 0] [] [1; 0; 0; 0])
    as (chosen & Hsub & Hlen & Hrun & _).
  - vm_compute. split; [discriminate|reflexivity].
  - vm_compute. split; [discriminate|reflexivity].
  - lia.
  - vm_compute. split; [reflexivity|discriminate].
  - exists chosen. split; [exact Hsub|]. split; [|exact Hrun].
    change ((nCarsToSpawn 0 2 [1; 0; 0; 0]).1) with 1 in Hlen. lia.
Defined.

Lemma sampleRoads_selection_bounds_witness :
  Forall (fun s => 1 <= nLanes s <= 2)
    (sampleRoads (RM := flatRoads) 1 3 [mkPoint 25 0 0; mkPoint 80 0 0] [] [2; 1; 0; 0]).1.
Proof.
  destruct (sampleRoads_selection_bounds (RM := flatRoads) 1 3
              [mkPoint 25 0 0; mkPoint 80 0 0] [2; 1; 0; 0]) as [Hall _].
  - intros rid s. cbn. destruct (_ || _); lia.
  - vm_compute. split; [discriminate|reflexivity].
  - vm_compute. split; [discriminate|reflexivity].
  - lia.
  - eapply Forall_impl; [exact Hall|]. intros s (_ & Hs & _).
    cbn in Hs. destruct (_ || _); lia.
Defined.

Lemma ensureDistance_same_lane_only_witness :
  ensureDistance
    (flatState 3 0 [mkSpawnInfo 7 0 0 (-1) 0; mkSpawnInfo 8 0 1 (-1) 0]
       {[ 7 := car 7 20 0 ]})
    (mkPosition 32.5 0 0 0 (-1) 32.5 0) (-1) = Some false.
Proof.
  destruct (ensureDistance_same_lane_only
              (flatState 3 0 [mkSpawnInfo 7 0 0 (-1) 0; mkSpawnInfo 8 0 1 (-1) 0]
                 {[ 7 := car 7 20 0 ]})
              (mkPosition 32.5 0 0 0 (-1) 32.5 0) (-1)) as (ok & Hrun & _ & Hnear & _).
  - intros info Hin Hlane Hroad.
    apply elem_of_cons in Hin as [->|Hin].
    + exists (car 7 20 0). reflexivity.
    + apply list_elem_of_singleton in Hin as ->. discriminate.
  - rewrite Hrun. f_equal.
    apply (Hnear (mkSpawnInfo 7 0 0 (-1) 0) (car 7 20 0));
      [apply list_elem_of_here|reflexivity..].
Defined.

Lemma line_segments_chained_witness :
  exists v,
    geometrySegments (RM := flatRoads) (SG := flatGeometry) 10 30
      (mkGeometry GEOMETRY_TYPE_LINE 0 100 0 0 0) = Some v /\
    ringChained (intervals v).
Proof.
  destruct (geometrySegments (RM := flatRoads) (SG := flatGeometry) 10 30
              (mkGeometry GEOMETRY_TYPE_LINE 0 100 0 0 0)) as [v|] eqn:Hrun;
    [|vm_compute in Hrun; discriminate].
  exists v. split; [reflexivity|].
  exact (proj1 (line_segments_chained (RM := flatRoads) (SG := flatGeometry) 10 30
                  (mkGeometry GEOMETRY_TYPE_LINE 0 100 0 0 0) v
                  ltac:(discriminate) Hrun)).
Defined.

Lemma Start_arms_first_step_witness :
  exists st',
    Start (RM := flatRoads) 200 (flatState 3 0 [] ∅) = Some st' /\
    is_Some (rTree st') /\ (minSize_ st' =? 0)%float = false.
Proof.
  destruct (Start (RM := flatRoads) 200 (flatState 3 0 [] ∅)) as [st'|] eqn:Hrun;
    [|vm_compute in Hrun; discriminate].
  exists st'. split; [reflexivity|].
  destruct (Start_arms_first_step (RM := flatRoads) 200 (flatState 3 0 [] ∅) st' Hrun)
    as (Htree & Hsize & _).
  now split.
Defined.

(** * The OSMP source of the FMU *)

(** ** Pointers through two integers *)

Lemma to_int_mod (z : Z) : to_int z mod 4294967296 = z mod 4294967296.
Proof.
  pose proof (Z.div_mod (z + 2147483648) 4294967296) as Hdiv.
  replace (to_int z)
    with (z + (- ((z + 2147483648) / 4294967296)) * 4294967296)
    by (unfold to_int; lia).
  apply Z_mod_plus_full.
Qed.

Lemma to_int_is_int (z : Z) : is_int (to_int z).
Proof.
  unfold is_int, to_int.
  pose proof (Z.mod_pos_bound (z + 2147483648) 4294967296). lia.
Qed.

Lemma to_int_id (z : Z) : is_int z -> to_int z = z.
Proof. unfold is_int, to_int. intros Hz. rewrite Z.mod_small; lia. Qed.

Lemma to_int_of_mod (z : Z) : is_int z -> to_int (z mod 4294967296) = z.
Proof.
  intros Hz. rewrite <- (to_int_id z Hz) at 2. unfold to_int.
  now rewrite Zplus_mod_idemp_l.
Qed.

Lemma decode_integer_to_pointer_from_eq (u : addrconv) (hi lo : Z) :
  decode_integer_to_pointer_from u hi lo =
    hi mod 4294967296 * 4294967296 + lo mod 4294967296.
Proof.
  unfold decode_integer_to_pointer_from, set_base_hi, set_base_lo. cbn [address].
  f_equal. rewrite Z.add_comm, Z_mod_plus_full. apply Z.mod_mod. lia.
Qed.

Lemma pointer_back (ptr : Z) :
  is_pointer ptr ->
  decode_integer_to_pointer (encode_pointer_to_integer ptr).1
    (encode_pointer_to_integer ptr).2 = ptr.
Proof.
  intros Hp. unfold encode_pointer_to_integer, base_hi, base_lo. cbn [fst snd address].
  unfold decode_integer_to_pointer. rewrite decode_integer_to_pointer_from_eq.
  rewrite !to_int_mod. rewrite Z.mod_mod by lia.
  unfold is_pointer in Hp.
  rewrite (Z.mod_small (ptr / 4294967296)).
  - pose proof (Z.div_mod ptr 4294967296). lia.
  - split; [apply Z.div_pos; lia|]. apply Z.div_lt_upper_bound; lia.
Qed.

(** X12.  A 64-bit pointer survives the passage through two FMI integers:
    encode_pointer_to_integer yields two values in the range of [int], and
    decode_integer_to_pointer applied to them gives the pointer back. *)
Theorem pointer_survives_encoding (ptr : Z) :
  is_pointer ptr ->
  is_int (encode_pointer_to_integer ptr).1 /\
  is_int (encode_pointer_to_integer ptr).2 /\
  decode_integer_to_pointer (encode_pointer_to_integer ptr).1
    (encode_pointer_to_integer ptr).2 = ptr.
Proof.
  intros Hp. split; [apply to_int_is_int|]. split; [apply to_int_is_int|].
  now apply pointer_back.
Qed.

(** X13.  Two integers in the range of [int] survive the passage through a
    pointer: decode_integer_to_pointer gives a 64-bit address that does not
    depend on what the union held before, its high half taken from [hi] and
    its low half from [lo], and encode_pointer_to_integer applied to it
    gives [hi] and [lo] back. *)
Theorem integers_survive_decoding (myaddr : addrconv) (hi lo : Z) :
  is_int hi -> is_int lo ->
  decode_integer_to_pointer_from myaddr hi lo = decode_integer_to_pointer hi lo /\
  is_pointer (decode_integer_to_pointer hi lo) /\
  encode_pointer_to_integer (decode_integer_to_pointer hi lo) = (hi, lo).
Proof.
  intros Hhi Hlo. unfold decode_integer_to_pointer.
  rewrite !decode_integer_to_pointer_from_eq. split; [reflexivity|].
  pose proof (Z.mod_pos_bound hi 4294967296) as Bh.
  pose proof (Z.mod_pos_bound lo 4294967296) as Bl.
  split; [unfold is_pointer; lia|].
  unfold encode_pointer_to_integer, base_hi, base_lo. cbn [address].
  rewrite Z.add_comm, Z_mod_plus_full, Z.mod_mod by lia.
  rewrite Z.div_add by lia. rewrite (Z.div_small (lo mod 4294967296)) by lia.
  rewrite Z.add_0_l. now rewrite !to_int_of_mod.
Qed.

(** X14.  In the 32-bit build only [lo] carries the pointer:
    encode_pointer_to_integer sets [hi] to 0, decode_integer_to_pointer
    ignores [hi], and a 32-bit pointer encoded and decoded is the pointer
    again. *)
Theorem pointer_survives_encoding_32 (ptr hi : Z) :
  0 <= ptr < 4294967296 ->
  (encode_pointer_to_integer_32 ptr).1 = 0 /\
  is_int (encode_pointer_to_integer_32 ptr).2 /\
  decode_integer_to_pointer_32 hi (encode_pointer_to_integer_32 ptr).2 = ptr.
Proof.
  intros Hp. unfold encode_pointer_to_integer_32, decode_integer_to_pointer_32.
  cbn [fst snd]. split; [reflexivity|]. split; [apply to_int_is_int|].
  rewrite to_int_mod. apply Z.mod_small. lia.
Qed.

Lemma pointer_survives_encoding_witness :
  decode_integer_to_pointer (encode_pointer_to_integer 140737488355327).1
    (encode_pointer_to_integer 140737488355327).2 = 140737488355327.
Proof.
  apply (pointer_survives_encoding 140737488355327). unfold is_pointer. lia.
Defined.

Lemma integers_survive_decoding_witness :
  encode_pointer_to_integer (decode_integer_to_pointer (-1) (-2)) = (-1, -2).
Proof.
  apply (integers_survive_decoding (mkAddrconv 5) (-1) (-2)); unfold is_int; lia.
Defined.

Lemma pointer_survives_encoding_32_witness :
  decode_integer_to_pointer_32 7 (encode_pointer_to_integer_32 4294967295).2
    = 4294967295.
Proof.
  apply (pointer_survives_encoding_32 4294967295 7). lia.
Defined.

(** ** The variable arrays *)

Lemma cutAtFirstInvalid_exists (n : nat) (vr : list nat) :
  exists pre rest, vr = pre ++ rest /\ cutAtFirstInvalid n pre rest.
Proof.
  induction vr as [|r vr (pre & rest & -> & Hpre & Hrest)].
  - exists [], []. repeat split. constructor.
  - destruct (Nat.ltb_spec r n) as [Hr|Hr].
    + exists (r :: pre), rest. repeat split; [now constructor|exact Hrest].
    + exists [], (r :: pre ++ rest). repeat split; [constructor|exact Hr].
Qed.

Lemma getLoop_valid {A : Type} `{Inhabited A} (n : nat) (vars : list A)
    (pre rest : list nat) : forall i value,
  validRefs n pre -> (i + length pre <= length value)%nat ->
  getLoop n vars (pre ++ rest) i value =
    getLoop n vars rest (i + length pre)
      (take i value ++ ((fun r => vars !!! r) <$> pre) ++ drop (i + length pre) value).
Proof.
  induction pre as [|r pre IH]; intros i value Hpre Hlen.
  - cbn [app fmap list_fmap length]. now rewrite Nat.add_0_r, take_drop.
  - apply Forall_cons in Hpre as [Hr Hpre]. cbn [app getLoop length] in *.
    destruct (Nat.ltb_spec r n); [|lia].
    rewrite IH; [|exact Hpre|rewrite length_insert; lia].
    replace (Datatypes.S i + length pre)%nat with (i + Datatypes.S (length pre))%nat by lia.
    f_equal.
    rewrite (take_S_r _ _ (vars !!! r)) by (apply list_lookup_insert_eq; lia).
    rewrite take_insert_ge by lia. rewrite drop_insert_lt by lia.
    rewrite fmap_cons. now rewrite <- !app_assoc.
Qed.

Lemma getLoop_spec {A : Type} `{Inhabited A} (n : nat) (vars : list A) :
  getterSpec n vars (fun vr value => getLoop n vars vr 0 value).
Proof.
  intros pre rest value [Hpre Hrest] Hlen.
  rewrite getLoop_valid by (try exact Hpre; lia). cbn [take app Nat.add].
  destruct rest as [|r rest]; [reflexivity|]. cbn [getLoop statusOf].
  destruct (Nat.ltb_spec r n); [lia|reflexivity].
Qed.

Lemma setLoop_valid {A : Type} (n : nat) (pre rest : list (nat * A)) :
  forall vars,
  validRefs n (fst <$> pre) -> length vars = n ->
  exists v,
    setLoop n (pre ++ rest) vars = setLoop n rest v /\
    length v = n /\
    forall j, v !! j = match written pre j with
                       | Some w => Some w
                       | None => vars !! j
                       end.
Proof.
  induction pre as [|[r x] pre IH]; intros vars Hpre Hlen.
  - exists vars. now repeat split.
  - rewrite fmap_cons in Hpre. apply Forall_cons in Hpre as [Hr Hpre]. cbn [fst] in Hr.
    cbn [app setLoop written]. destruct (Nat.ltb_spec r n); [|lia].
    destruct (IH (<[r := x]> vars) Hpre) as (v & Hrun & Hv & Hlook);
      [now rewrite length_insert|].
    exists v. split; [exact Hrun|]. split; [exact Hv|].
    intros j. rewrite Hlook. destruct (written pre j); [reflexivity|].
    destruct (decide (r = j)) as [->|Hne].
    + apply list_lookup_insert_eq. lia.
    + now apply list_lookup_insert_ne.
Qed.

Lemma setLoop_spec {A : Type} (n : nat) (vars : list A)
    (pre rest : list (nat * A)) :
  length vars = n ->
  cutAtFirstInvalid n (fst <$> pre) (fst <$> rest) ->
  exists v,
    setLoop n (pre ++ rest) vars = (statusOf rest, v) /\
    length v = n /\
    forall j, v !! j = match written pre j with
                       | Some w => Some w
                       | None => vars !! j
                       end.
Proof.
  intros Hlen [Hpre Hrest].
  destruct (setLoop_valid n pre rest vars Hpre Hlen) as (v & Hrun & Hv & Hlook).
  exists v. split; [|now split]. rewrite Hrun.
  destruct rest as [|[r x] rest]; [reflexivity|].
  rewrite fmap_cons in Hrest. cbn [fst] in Hrest. cbn [setLoop statusOf].
  destruct (Nat.ltb_spec r n); [lia|reflexivity].
Qed.

Lemma written_NoDup {A : Type} (args : list (nat * A)) (r : nat) (x : A) :
  NoDup (fst <$> args) -> (r, x) ∈ args -> written args r = Some x.
Proof.
  induction args as [|[r' x'] args IH]; intros Hnd Hin; [inversion Hin|].
  rewrite fmap_cons in Hnd. apply NoDup_cons in Hnd as [Hnot Hnd]. cbn [fst] in Hnot.
  cbn [written]. apply elem_of_cons in Hin as [[= <- <-]|Hin].
  - destruct (written args r) as [w|] eqn:Hw.
    + exfalso. apply Hnot. clear -Hw.
      induction args as [|[r2 x2] args IH]; [discriminate|].
      cbn [written] in Hw. rewrite fmap_cons. cbn [fst].
      destruct (written args r); [apply list_elem_of_further; now apply IH|].
      destruct (decide (r2 = r)) as [->|]; [apply list_elem_of_here|discriminate].
    + now rewrite decide_True.
  - now rewrite (IH Hnd Hin).
Qed.

Lemma setLoop_getLoop {A : Type} `{Inhabited A} (n : nat) (vars : list A)
    (args : list (nat * A)) (value : list A) :
  length vars = n -> validRefs n (fst <$> args) -> NoDup (fst <$> args) ->
  (length args <= length value)%nat ->
  exists v,
    setLoop n args vars = (fmi2OK, v) /\ length v = n /\
    getLoop n v (fst <$> args) 0 value =
      (fmi2OK, (snd <$> args) ++ drop (length args) value).
Proof.
  intros Hlen Hvalid Hnd Hroom.
  destruct (setLoop_spec n vars args [] Hlen) as (v & Hrun & Hv & Hlook).
  { split; [exact Hvalid|exact I]. }
  rewrite app_nil_r in Hrun. exists v. split; [exact Hrun|]. split; [exact Hv|].
  pose proof (getLoop_spec n v (fst <$> args) [] value) as Hget.
  rewrite app_nil_r, length_fmap in Hget. rewrite Hget; [|now split|exact Hroom].
  cbn [statusOf]. do 2 f_equal. rewrite <- list_fmap_compose.
  apply Forall_fmap_ext, Forall_forall. intros [r x] Hin. cbn.
  rewrite list_lookup_total_alt, Hlook, (written_NoDup args r x Hnd Hin). reflexivity.
Qed.

Lemma fillLoop_S {A : Type} (n : nat) (x : A) (vars : list A) :
  fillLoop (Datatypes.S n) x vars = <[n := x]> (fillLoop n x vars).
Proof. unfold fillLoop. now rewrite seq_S, foldl_snoc. Qed.

Lemma fillLoop_replicate {A : Type} (n : nat) (x : A) (vars : list A) :
  (n <= length vars)%nat -> fillLoop n x vars = replicate n x ++ drop n vars.
Proof.
  induction n as [|n IH]; intros Hn; [reflexivity|].
  rewrite fillLoop_S, IH by lia.
  rewrite insert_app_r_alt by (rewrite length_replicate; lia).
  rewrite length_replicate, Nat.sub_diag.
  destruct (drop n vars) as [|y rest] eqn:Hdrop.
  - apply (f_equal length) in Hdrop. rewrite length_drop in Hdrop. cbn in Hdrop. lia.
  - cbn [insert list_insert]. rewrite replicate_S_end, <- app_assoc. cbn [app].
    do 2 f_equal.
    replace (drop (Datatypes.S n) vars) with (drop 1 (drop n vars))
      by (rewrite drop_drop; f_equal; lia).
    now rewrite Hdrop.
Qed.

Lemma fillLoop_all {A : Type} (n : nat) (x : A) (vars : list A) :
  length vars = n -> fillLoop n x vars = replicate n x.
Proof.
  intros Hn. rewrite fillLoop_replicate by lia.
  rewrite drop_ge by lia. apply app_nil_r.
Qed.

Section OsiSourceFacts.
Context `{VL : VariableLayout} `{PB : Protobuf}.
Implicit Types (c : EsminiOsiSource).

(** X15.  GetReal, GetInteger, GetBoolean and GetString stop at the first
    reference that is not below the size of their array and return
    fmi2Error then, fmi2OK otherwise.  The entries of the caller's array
    that belong to the valid references before it have been written by
    then, each with the value of the variable referred to; every other
    entry is left as it was.  Every list of references is cut in this way. *)
Theorem getters_read_valid_prefix c :
  getterSpec FMI_REAL_VARS (real_vars c) (GetReal c) /\
  getterSpec FMI_INTEGER_VARS (integer_vars c) (GetInteger c) /\
  getterSpec FMI_BOOLEAN_VARS (boolean_vars c) (GetBoolean c) /\
  getterSpec FMI_STRING_VARS (string_vars c) (GetString c) /\
  forall n vr, exists pre rest, vr = pre ++ rest /\ cutAtFirstInvalid n pre rest.
Proof.
  repeat split; try apply getLoop_spec. apply cutAtFirstInvalid_exists.
Qed.

Ltac setter_spec c pre rest Hlen Hcut :=
  let v := fresh "v" in
  let Hrun := fresh "Hrun" in
  let Hrest := fresh "Hrest" in
  destruct (setLoop_spec _ _ pre rest Hlen Hcut) as (v & Hrun & Hrest);
  exists v; split; [|exact Hrest];
  cbv beta delta [SetReal SetInteger SetBoolean SetString]; now rewrite Hrun.

(** X16.  SetReal, SetInteger, SetBoolean and SetString are not atomic: they
    apply the pairs before the first invalid reference and return fmi2Error
    when there is one, fmi2OK otherwise.  A variable written several times
    holds the last value, a variable not referred to keeps its value, the
    array keeps its size and no other member of the instance is
    changed. *)
Theorem setters_write_valid_prefix :
  setterSpec FMI_REAL_VARS real_vars with_real_vars SetReal /\
  setterSpec FMI_INTEGER_VARS integer_vars with_integer_vars SetInteger /\
  setterSpec FMI_BOOLEAN_VARS boolean_vars with_boolean_vars SetBoolean /\
  setterSpec FMI_STRING_VARS string_vars with_string_vars SetString.
Proof.
  repeat split; intros c pre rest Hlen Hcut; setter_spec c pre rest Hlen Hcut.
Qed.

Ltac round_trip c args value Hlen Hvalid Hnd Hroom :=
  let v := fresh "v" in
  let Hrun := fresh "Hrun" in
  let Hv := fresh "Hv" in
  let Hget := fresh "Hget" in
  destruct (setLoop_getLoop _ _ args value Hlen Hvalid Hnd Hroom)
    as (v & Hrun & Hv & Hget);
  cbv beta delta [SetReal SetInteger SetBoolean SetString];
  rewrite Hrun; eexists; split; [reflexivity|]; split; [exact Hv|exact Hget].

(** X17.  Setting distinct valid variables and getting the same references
    back returns fmi2OK twice and the values that were set, for each of the
    four types. *)
Theorem set_then_get_round_trip :
  roundTripSpec FMI_REAL_VARS real_vars SetReal GetReal /\
  roundTripSpec FMI_INTEGER_VARS integer_vars SetInteger GetInteger /\
  roundTripSpec FMI_BOOLEAN_VARS boolean_vars SetBoolean GetBoolean /\
  roundTripSpec FMI_STRING_VARS string_vars SetString GetString.
Proof.
  repeat split; intros c args value Hlen Hvalid Hnd Hroom;
    round_trip c args value Hlen Hvalid Hnd Hroom.
Qed.

End OsiSourceFacts.

Lemma lookup_total_insert_same {A : Type} `{Inhabited A} (l : list A) (i : nat)
    (x : A) :
  (i < length l)%nat -> <[i := x]> l !!! i = x.
Proof.
  intros Hi. now rewrite list_lookup_total_alt, list_lookup_insert_eq.
Qed.

Lemma lookup_total_insert_other {A : Type} `{Inhabited A} (l : list A)
    (i j : nat) (x : A) :
  i <> j -> <[i := x]> l !!! j = l !!! j.
Proof.
  intros Hij. now rewrite !list_lookup_total_alt, list_lookup_insert_ne.
Qed.

Lemma addCategory_elem (acc : gset string) (category s : string) :
  s ∈ addCategory acc category <->
  s ∈ acc \/ (s ∈ allCategories /\ s = category).
Proof.
  unfold addCategory, allCategories.
  destruct (String.eqb_spec category "FMI") as [->|Hfmi];
    [|destruct (String.eqb_spec category "OSMP") as [->|Hosmp];
      [|destruct (String.eqb_spec category "OSI") as [->|Hosi]]];
    rewrite ?elem_of_union, ?elem_of_singleton; split; try tauto.
  intros [Hs|[Hall ->]]; [exact Hs|]. exfalso. tauto.
Qed.

Lemma addCategory_fold (categories : list string) : forall (acc : gset string) s,
  s ∈ foldl addCategory acc categories <->
  s ∈ acc \/ (s ∈ allCategories /\ s ∈ categories).
Proof.
  induction categories as [|category rest IH]; intros acc s; cbn [foldl].
  - split; [auto|]. intros [Hs|[_ Hs]]; [exact Hs|inversion Hs].
  - rewrite IH, addCategory_elem, elem_of_cons. tauto.
Qed.

Section OsiInstanceFacts.
Context `{VL : VariableLayout} `{PB : Protobuf}.
Implicit Types (c : EsminiOsiSource).

(** X18.  Reset (and the doInit of Instantiate) returns fmi2OK and leaves
    every variable at zero: every boolean fmi2False, every integer 0, every
    real 0.0 and every string empty, whatever the variables held, so that no
    traffic update is pending and GetInteger of valid references returns
    zeros.  The two serialization buffers and the logging settings are not
    reset. *)
Theorem Reset_zeroes_variables c :
  sizesOk c -> layoutOk ->
  (Reset c).1 = fmi2OK /\
  boolean_vars (Reset c).2 = replicate FMI_BOOLEAN_VARS fmi2False /\
  integer_vars (Reset c).2 = replicate FMI_INTEGER_VARS 0 /\
  real_vars (Reset c).2 = replicate FMI_REAL_VARS 0%float /\
  string_vars (Reset c).2 = replicate FMI_STRING_VARS EmptyString /\
  sizesOk (Reset c).2 /\
  get_fmi_traffic_update_in (Reset c).2 = None /\
  (forall vr value,
     validRefs FMI_INTEGER_VARS vr -> (length vr <= length value)%nat ->
     GetInteger (Reset c).2 vr value =
       (fmi2OK, replicate (length vr) 0 ++ drop (length vr) value)) /\
  currentBuffer (Reset c).2 = currentBuffer c /\
  lastBuffer (Reset c).2 = lastBuffer c /\
  loggingOn (Reset c).2 = loggingOn c /\
  loggingCategories (Reset c).2 = loggingCategories c.
Proof.
  intros (Hb & Hi & Hr & Hs) Hlay. unfold Reset, doInit. cbn [fst snd].
  cbn [boolean_vars integer_vars real_vars string_vars currentBuffer lastBuffer
       loggingOn loggingCategories].
  rewrite !fillLoop_all by assumption.
  split; [reflexivity|]. do 4 (split; [reflexivity|]).
  split; [unfold sizesOk; cbn; now rewrite !length_replicate|].
  split.
  { unfold get_fmi_traffic_update_in. cbn [integer_vars].
    destruct Hlay as (_ & _ & _ & _ & _ & _ & _ & _ & Hsize & _).
    now rewrite lookup_total_replicate_2. }
  split; [|now repeat split].
  intros vr value Hvalid Hroom.
  pose proof (getLoop_spec FMI_INTEGER_VARS (replicate FMI_INTEGER_VARS 0) vr [] value)
    as Hget.
  rewrite app_nil_r in Hget. unfold GetInteger. cbn [integer_vars].
  rewrite Hget; [|now split|exact Hroom]. cbn [statusOf]. do 2 f_equal.
  clear Hget Hroom. induction Hvalid as [|r vr Hlt _ IH]; [reflexivity|].
  rewrite fmap_cons, IH. cbn [length replicate]. f_equal.
  now apply lookup_total_replicate_2.
Qed.

(** X19.  set_fmi_sensor_view_out publishes the buffer it has just
    serialized into: the two base variables decode to the address of that
    buffer's characters and the size variable holds its length (as an
    [int]), no other variable changes, and the buffer becomes lastBuffer
    while the previous lastBuffer becomes the buffer the next call writes
    to.  So the buffer published by one call is still held, untouched, after
    the next call. *)
Theorem sensor_view_published (data : SensorView) c :
  layoutOk -> sizesOk c ->
  is_pointer (str_data (SerializeToString data (currentBuffer c))) ->
  lastBuffer (set_fmi_sensor_view_out data c)
    = SerializeToString data (currentBuffer c) /\
  currentBuffer (set_fmi_sensor_view_out data c) = lastBuffer c /\
  decode_integer_to_pointer
    (integer_vars (set_fmi_sensor_view_out data c)
       !!! FMI_INTEGER_SENSORVIEW_OUT_BASEHI_IDX)
    (integer_vars (set_fmi_sensor_view_out data c)
       !!! FMI_INTEGER_SENSORVIEW_OUT_BASELO_IDX)
    = str_data (lastBuffer (set_fmi_sensor_view_out data c)) /\
  integer_vars (set_fmi_sensor_view_out data c) !!! FMI_INTEGER_SENSORVIEW_OUT_SIZE_IDX
    = to_int (Z.of_nat (length (str_bytes (lastBuffer (set_fmi_sensor_view_out data c))))) /\
  (forall j, j <> FMI_INTEGER_SENSORVIEW_OUT_BASEHI_IDX ->
             j <> FMI_INTEGER_SENSORVIEW_OUT_BASELO_IDX ->
             j <> FMI_INTEGER_SENSORVIEW_OUT_SIZE_IDX ->
     integer_vars (set_fmi_sensor_view_out data c) !! j = integer_vars c !! j) /\
  sizesOk (set_fmi_sensor_view_out data c) /\
  boolean_vars (set_fmi_sensor_view_out data c) = boolean_vars c /\
  real_vars (set_fmi_sensor_view_out data c) = real_vars c /\
  string_vars (set_fmi_sensor_view_out data c) = string_vars c /\
  (forall data',
     currentBuffer (set_fmi_sensor_view_out data' (set_fmi_sensor_view_out data c))
       = SerializeToString data (currentBuffer c)).
Proof.
  intros (Hlo & Hhi & Hsz & Hlh & Hls & Hhs & _) (Hb & Hi & Hre & Hst) Hptr.
  pose proof (pointer_back _ Hptr) as Hback.
  unfold set_fmi_sensor_view_out at 1 2 3 4 5 6 7 8 9 10 11 12.
  unfold encode_pointer_to_integer in *. cbn [fst snd] in Hback.
  cbn [boolean_vars integer_vars real_vars string_vars currentBuffer lastBuffer].
  split; [reflexivity|]. split; [reflexivity|]. split.
  { rewrite (lookup_total_insert_other _ FMI_INTEGER_SENSORVIEW_OUT_SIZE_IDX) by congruence.
    rewrite (lookup_total_insert_other _ FMI_INTEGER_SENSORVIEW_OUT_BASELO_IDX) by congruence.
    rewrite lookup_total_insert_same by lia.
    rewrite (lookup_total_insert_other _ FMI_INTEGER_SENSORVIEW_OUT_SIZE_IDX) by congruence.
    rewrite lookup_total_insert_same by (rewrite length_insert; lia).
    exact Hback. }
  split; [apply lookup_total_insert_same; rewrite !length_insert; lia|].
  split.
  { intros j H1 H2 H3. rewrite !list_lookup_insert_ne by congruence. reflexivity. }
  split; [unfold sizesOk; cbn; now rewrite !length_insert|].
  do 3 (split; [reflexivity|]).
  intros data'. reflexivity.
Qed.

(** X20.  A pointer and a positive size written with SetInteger into the
    three traffic-update variables are what get_fmi_traffic_update_in reads:
    it parses from that very address with that size.  With a size that is
    not positive it reports that there is no update. *)
Theorem traffic_update_pointer_arrives c (ptr size : Z) :
  layoutOk -> sizesOk c -> is_pointer ptr ->
  exists c',
    SetInteger c
      [(FMI_INTEGER_TRAFFICUPDATE_IN_BASEHI_IDX, (encode_pointer_to_integer ptr).1);
       (FMI_INTEGER_TRAFFICUPDATE_IN_BASELO_IDX, (encode_pointer_to_integer ptr).2);
       (FMI_INTEGER_TRAFFICUPDATE_IN_SIZE_IDX, size)] = (fmi2OK, c') /\
    get_fmi_traffic_update_in c' =
      (if 0 <? size then Some (ptr, size) else None).
Proof.
  intros (_ & _ & _ & _ & _ & _ & Hlo & Hhi & Hsz & Hlh & Hls & Hhs)
    (Hb & Hi & Hre & Hst) Hptr.
  pose proof (pointer_back _ Hptr) as Hback.
  unfold SetInteger. cbn [setLoop].
  destruct (Nat.ltb_spec FMI_INTEGER_TRAFFICUPDATE_IN_BASEHI_IDX FMI_INTEGER_VARS); [|lia].
  destruct (Nat.ltb_spec FMI_INTEGER_TRAFFICUPDATE_IN_BASELO_IDX FMI_INTEGER_VARS); [|lia].
  destruct (Nat.ltb_spec FMI_INTEGER_TRAFFICUPDATE_IN_SIZE_IDX FMI_INTEGER_VARS); [|lia].
  eexists. split; [reflexivity|].
  unfold get_fmi_traffic_update_in. cbn [integer_vars with_integer_vars].
  rewrite lookup_total_insert_same by (rewrite !length_insert; lia).
  destruct (0 <? size); [|reflexivity]. do 2 f_equal.
  rewrite (lookup_total_insert_other _ FMI_INTEGER_TRAFFICUPDATE_IN_SIZE_IDX) by congruence.
  rewrite (lookup_total_insert_other _ FMI_INTEGER_TRAFFICUPDATE_IN_BASELO_IDX) by congruence.
  rewrite lookup_total_insert_same by lia.
  rewrite (lookup_total_insert_other _ FMI_INTEGER_TRAFFICUPDATE_IN_SIZE_IDX) by congruence.
  rewrite lookup_total_insert_same by (rewrite length_insert; lia).
  exact Hback.
Qed.

(** X21.  SetDebugLogging always returns fmi2OK and touches nothing but the
    logging settings.  Given at least one category it enables exactly the
    known categories (FMI, OSMP, OSI) among those given, silently dropping
    every other name, so a list of unknown names only disables them all;
    given no category (a null pointer or a count of 0) it enables all
    three.  Logging is on exactly when the flag is not 0. *)
Theorem SetDebugLogging_categories (theloggingOn : Z)
    (categories : option (list string)) c :
  (SetDebugLogging theloggingOn categories c).1 = fmi2OK /\
  loggingOn (SetDebugLogging theloggingOn categories c).2
    = negb (theloggingOn =? 0) /\
  loggingCategories (SetDebugLogging theloggingOn categories c).2 ⊆ allCategories /\
  (forall l s, categories = Some l -> l <> [] ->
     (s ∈ loggingCategories (SetDebugLogging theloggingOn categories c).2 <->
      s ∈ allCategories /\ s ∈ l)) /\
  (categories = None \/ categories = Some [] ->
   loggingCategories (SetDebugLogging theloggingOn categories c).2 = allCategories) /\
  boolean_vars (SetDebugLogging theloggingOn categories c).2 = boolean_vars c /\
  integer_vars (SetDebugLogging theloggingOn categories c).2 = integer_vars c /\
  real_vars (SetDebugLogging theloggingOn categories c).2 = real_vars c /\
  string_vars (SetDebugLogging theloggingOn categories c).2 = string_vars c /\
  currentBuffer (SetDebugLogging theloggingOn categories c).2 = currentBuffer c /\
  lastBuffer (SetDebugLogging theloggingOn categories c).2 = lastBuffer c.
Proof.
  unfold SetDebugLogging.
  cbn [fst snd boolean_vars integer_vars real_vars string_vars currentBuffer
       lastBuffer loggingOn loggingCategories].
  split; [reflexivity|]. split; [now destruct (theloggingOn =? 0)|].
  split.
  { destruct categories as [[|category rest]|]; [reflexivity| |reflexivity].
    intros s Hs. apply addCategory_fold in Hs as [Hs|[Hs _]]; [|exact Hs].
    apply elem_of_empty in Hs. contradiction. }
  split.
  { intros l s -> Hl. destruct l as [|category rest]; [congruence|].
    rewrite addCategory_fold. split; [|auto].
    intros [Hs|Hs]; [apply elem_of_empty in Hs; contradiction|exact Hs]. }
  split; [|now repeat split].
  intros [->| ->]; reflexivity.
Qed.

End OsiInstanceFacts.

Lemma smallLayout_ok : layoutOk (VL := smallLayout).
Proof. unfold layoutOk. cbn. repeat split; lia. Qed.

Lemma smallSource_sizesOk (v : list Z) :
  length v = 6%nat -> sizesOk (VL := smallLayout) (with_integer_vars smallSource v).
Proof. intros Hv. unfold sizesOk. cbn. now rewrite Hv. Qed.

Lemma getters_read_valid_prefix_witness :
  GetInteger (VL := smallLayout)
    (with_integer_vars smallSource [10; 11; 12; 13; 14; 15]) [1; 7; 0]%nat [9; 9; 9]
  = (fmi2Error, [11; 9; 9]).
Proof.
  apply (proj1 (proj2 (getters_read_valid_prefix (VL := smallLayout)
           (with_integer_vars smallSource [10; 11; 12; 13; 14; 15])))
         [1%nat] [7; 0]%nat [9; 9; 9]).
  - split; [repeat constructor|]; cbn; lia.
  - cbn. lia.
Defined.

Lemma setters_write_valid_prefix_witness :
  exists v,
    SetInteger (VL := smallLayout) smallSource [(1%nat, 5); (9%nat, 6); (2%nat, 7)]
      = (fmi2Error, with_integer_vars smallSource v) /\
    v !! 1%nat = Some 5 /\ v !! 2%nat = Some 0.
Proof.
  destruct (proj1 (proj2 (setters_write_valid_prefix (VL := smallLayout)))
              smallSource [(1%nat, 5)] [(9%nat, 6); (2%nat, 7)])
    as (v & Hrun & _ & Hlook).
  - reflexivity.
  - split; [repeat constructor|]; cbn; lia.
  - exists v. split; [exact Hrun|]. split; [exact (Hlook 1%nat)|exact (Hlook 2%nat)].
Defined.

Lemma set_then_get_round_trip_witness :
  exists c',
    SetReal (VL := smallLayout) smallSource [(1%nat, 2.5%float); (0%nat, 1.5%float)]
      = (fmi2OK, c') /\
    GetReal (VL := smallLayout) c' [1; 0]%nat [0%float; 0%float]
      = (fmi2OK, [2.5%float; 1.5%float]).
Proof.
  destruct (proj1 (set_then_get_round_trip (VL := smallLayout))
              smallSource [(1%nat, 2.5%float); (0%nat, 1.5%float)] [0%float; 0%float])
    as (c' & Hset & _ & Hget).
  - reflexivity.
  - repeat constructor; cbn; lia.
  - apply NoDup_cons. split; [|apply NoDup_singleton].
    intros Hin. apply list_elem_of_singleton in Hin. discriminate.
  - cbn. lia.
  - exists c'. split; [exact Hset|exact Hget].
Defined.

Lemma Reset_zeroes_variables_witness :
  integer_vars
    (Reset (VL := smallLayout) (with_integer_vars smallSource [10; 11; 12; 13; 14; 15])).2
  = [0; 0; 0; 0; 0; 0].
Proof.
  exact (proj1 (proj2 (proj2
    (Reset_zeroes_variables (VL := smallLayout)
       (with_integer_vars smallSource [10; 11; 12; 13; 14; 15])
       (smallSource_sizesOk [10; 11; 12; 13; 14; 15] eq_refl) smallLayout_ok)))).
Defined.

Lemma sensor_view_published_witness :
  decode_integer_to_pointer
    (integer_vars
       (set_fmi_sensor_view_out (VL := smallLayout) (PB := smallProtobuf)
          [Byte.x01; Byte.x02] smallSource) !!! 4%nat)
    (integer_vars
       (set_fmi_sensor_view_out (VL := smallLayout) (PB := smallProtobuf)
          [Byte.x01; Byte.x02] smallSource) !!! 3%nat)
  = 4112.
Proof.
  refine (proj1 (proj2 (proj2
    (sensor_view_published (VL := smallLayout) (PB := smallProtobuf)
       [Byte.x01; Byte.x02] smallSource smallLayout_ok
       (smallSource_sizesOk [0; 0; 0; 0; 0; 0] eq_refl) _)))).
  unfold is_pointer. cbn. lia.
Defined.

Lemma traffic_update_pointer_arrives_witness :
  exists c',
    SetInteger (VL := smallLayout) smallSource
      [(1%nat, (encode_pointer_to_integer 140737488355327).1);
       (0%nat, (encode_pointer_to_integer 140737488355327).2);
       (2%nat, 24)] = (fmi2OK, c') /\
    get_fmi_traffic_update_in (VL := smallLayout) c' = Some (140737488355327, 24).
Proof.
  apply (traffic_update_pointer_arrives (VL := smallLayout) smallSource
           140737488355327 24 smallLayout_ok
           (smallSource_sizesOk [0; 0; 0; 0; 0; 0] eq_refl)).
  unfold is_pointer. lia.
Defined.

(** * Event::Start *)

Lemma Event_Start_more (pre rest : list OSCAction) : forall simTime,
  Forall isPrivate pre ->
  Event_Start (pre ++ rest) simTime =
    '(times, final) ← Event_Start rest (setBack simTime (headstarts pre));
    Some (((fun i => setBack simTime (headstarts (take i pre))) <$> seq 0 (length pre))
            ++ times, final).
Proof.
  induction pre as [|a pre IH]; intros simTime Hpriv.
  - cbn. destruct (Event_Start rest simTime) as [[times final]|]; reflexivity.
  - apply Forall_cons in Hpriv as [Ha Hpriv]. destruct a as [pa|]; [|contradiction].
    cbn [app Event_Start]. rewrite IH by exact Hpriv.
    assert (Hhead : forall l,
      headstarts (PrivateAction pa :: l) =
        if isGhostTeleport pa then object_GetHeadstartTime pa :: headstarts l
        else headstarts l).
    { intros l. unfold headstarts. cbn [omap list_omap].
      now destruct (isGhostTeleport pa). }
    assert (Hback : forall l,
      setBack simTime (headstarts (PrivateAction pa :: l)) =
        setBack (if isGhostTeleport pa
                 then (simTime - object_GetHeadstartTime pa)%float else simTime)
          (headstarts l)).
    { intros l. rewrite Hhead. now destruct (isGhostTeleport pa). }
    rewrite Hback.
    destruct (Event_Start rest _) as [[times final]|]; [|reflexivity].
    cbn [mbind option_bind length seq fmap list_fmap take app].
    do 3 f_equal. rewrite <- fmap_S_seq, <- list_fmap_compose. f_equal.
    apply list_fmap_ext. intros i j _. unfold compose. cbn [take]. now rewrite Hback.
Qed.

(** X22.  Event::Start starts every action of an event of private actions,
    in order, and each with the event's time set back by the headstart times
    of the ghost teleports that come before it in the event: the teleport
    itself and the actions before it are started with the time not yet set
    back by it.  StoryBoardElement::Start gets the time set back by all of
    them.  An event without a ghost teleport starts everything at the
    event's time. *)
Theorem Event_Start_sets_back_later_actions (action_ : list OSCAction)
    (simTime : float) :
  Forall isPrivate action_ ->
  exists times,
    Event_Start action_ simTime = Some (times, setBack simTime (headstarts action_)) /\
    length times = length action_ /\
    (forall i t, times !! i = Some t ->
       t = setBack simTime (headstarts (take i action_))) /\
    (headstarts action_ = [] ->
     times = replicate (length action_) simTime /\
     setBack simTime (headstarts action_) = simTime).
Proof.
  intros Hpriv. pose proof (Event_Start_more action_ [] simTime Hpriv) as Hrun.
  rewrite app_nil_r in Hrun. cbn [Event_Start mbind option_bind] in Hrun.
  rewrite app_nil_r in Hrun. eexists. split; [exact Hrun|].
  split; [now rewrite length_fmap, length_seq|]. split.
  - intros i t Hi. apply list_lookup_fmap_Some in Hi as (j & -> & Hj).
    apply lookup_seq in Hj as [-> _]. reflexivity.
  - intros Hnone. split; [|now rewrite Hnone].
    assert (Hpre : forall i, headstarts (take i action_) = []).
    { intros i. apply (f_equal length) in Hnone. cbn in Hnone.
      pose proof (omap_shorter (fun a => match a with
        | PrivateAction pa =>
            if isGhostTeleport pa then Some (object_GetHeadstartTime pa) else None
        | GlobalAction => None end) (take i action_)) as Hshort.
      clear Hrun Hpriv. revert i Hshort.
      induction action_ as [|a l IH]; intros i Hshort.
      - now rewrite take_nil.
      - destruct i as [|i]; [reflexivity|]. unfold headstarts in *.
        cbn [take omap list_omap] in *.
        destruct a as [pa|]; [destruct (isGhostTeleport pa); [discriminate|]|];
          apply IH; try exact Hnone;
          apply (omap_shorter _ (take i l)). }
    clear Hrun. generalize 0%nat at 1.
    induction (length action_) as [|n IH]; intros k; [reflexivity|].
    cbn [seq fmap list_fmap replicate]. rewrite Hpre. cbn [setBack foldl].
    f_equal. apply IH.
Qed.

Lemma Event_Start_sets_back_later_actions_witness :
  exists times,
    Event_Start
      [PrivateAction (mkPrivateAction false OTHER_ACTION 0);
       PrivateAction (mkPrivateAction true TELEPORT 3);
       PrivateAction (mkPrivateAction false TELEPORT 7)] 10
    = Some (times, 7%float) /\
    times !! 2%nat = Some 7%float.
Proof.
  destruct (Event_Start_sets_back_later_actions
              [PrivateAction (mkPrivateAction false OTHER_ACTION 0);
               PrivateAction (mkPrivateAction true TELEPORT 3);
               PrivateAction (mkPrivateAction false TELEPORT 7)] 10)
    as (times & Hrun & Hlen & Htimes & _).
  - repeat constructor.
  - exists times. split; [exact Hrun|].
    destruct (times !! 2%nat) as [t|] eqn:Ht.
    + now rewrite (Htimes 2%nat t Ht).
    + apply lookup_ge_None in Ht. rewrite Hlen in Ht. cbn in Ht. lia.
Defined.
